(** * Fake-news detection notebook: the text cleaner and the training pipeline

    A shallow embedding of [fake_news_detection.ipynb].

    - Part 1 embeds the cleaner ([remove_urls], [remove_numbers],
      [remove_stopwords], [tokenize], [lemmatizer], [clean_text], ...).
      Python strings are lists of Unicode code points; the regular
      expressions of the notebook are written as matchers for one generic
      left-to-right substitution loop, the way [re.sub] runs them.
    - Part 2 embeds the classes [TrainTestSplit], [Vectorize],
      [TextProcessor] and [Model] as a state-and-exception monad over a
      world that holds the files, the global random generator, the heap
      of data frames and a log of what the libraries were asked to do.

    The libraries the notebook calls (the Unicode database behind [str]
    and [re], BeautifulSoup, the NLTK corpora, numpy, scikit-learn) are
    interfaces; module [Reference] gives a small instance of each, on
    which the code is run on concrete inputs. *)

From Stdlib Require Import NArith ZArith Lia Ascii String.
From stdpp Require Import base decidable option numbers strings gmap sets listset list.

Local Open Scope N_scope.

(** ** Strings *)

(** A Python [str] is a sequence of code points. *)
Definition char : Type := N.
Definition str : Type := list char.

(** An ASCII literal as a [str]. *)
Definition u (s : string) : str :=
  (fun a => N_of_ascii a) <$> list_ascii_of_string s.

(** [str.isspace] on one character; the same set is the class [\s] of [re]
    on [str] patterns and drives [str.split()] and [str.strip()]. *)
Definition isspace (c : char) : bool :=
  ((9 <=? c) && (c <=? 13)) || ((28 <=? c) && (c <=? 32))
  || (c =? 133) || (c =? 160) || (c =? 5760)
  || ((8192 <=? c) && (c <=? 8202))
  || (c =? 8232) || (c =? 8233) || (c =? 8239) || (c =? 8287) || (c =? 12288).

Definition is_ascii (c : char) : bool := c <? 128.
Definition ascii_isdigit (c : char) : bool := (48 <=? c) && (c <=? 57).
Definition ascii_isupper (c : char) : bool := (65 <=? c) && (c <=? 90).
Definition ascii_islower (c : char) : bool := (97 <=? c) && (c <=? 122).
Definition ascii_lower (c : char) : char := if ascii_isupper c then c + 32 else c.

(** The part of the Unicode character database that lies outside ASCII:
    which code points are alphabetic or numeric, which are decimal digits
    (category Nd), and the lower-casing of a string that is not pure ASCII. *)
Class Unicode := {
  ucd_alnum : char -> bool;
  ucd_decimal : char -> bool;
  ucd_lower : str -> str
}.

Section Text.
Context {UCD : Unicode}.

(** [\d]: a decimal digit. *)
Definition re_d (c : char) : bool :=
  if is_ascii c then ascii_isdigit c else ucd_decimal c.

(** [\w]: alphanumeric (of which the decimal digits are part) or underscore. *)
Definition re_w (c : char) : bool :=
  if is_ascii c
  then ascii_isdigit c || ascii_isupper c || ascii_islower c || (c =? 95)
  else ucd_alnum c || ucd_decimal c.

(** [\S] and [\W]. *)
Definition re_S (c : char) : bool := negb (isspace c).
Definition re_W (c : char) : bool := negb (re_w c).

(** [str.lower()]. *)
Definition str_lower (s : str) : str :=
  if forallb is_ascii s then ascii_lower <$> s else ucd_lower s.

(** The longest prefix whose characters all satisfy [p] (a greedy [p*]). *)
Fixpoint span (p : char -> bool) (s : str) : str :=
  match s with
  | c :: s' => if p c then c :: span p s' else []
  | [] => []
  end.

(** [old in s] and [s.startswith(old)]. *)
Fixpoint startswith (old s : str) : bool :=
  match old, s with
  | [], _ => true
  | a :: old', b :: s' => (a =? b) && startswith old' s'
  | _ :: _, [] => false
  end.

Fixpoint str_contains (old s : str) : bool :=
  startswith old s ||
  match s with
  | [] => false
  | _ :: s' => str_contains old s'
  end.

(** [sep.join(parts)]. *)
Fixpoint str_join (sep : str) (parts : list str) : str :=
  match parts with
  | [] => []
  | [p] => p
  | p :: rest => p ++ sep ++ str_join sep rest
  end.

(** [s.split()]: the maximal runs of non-whitespace characters. *)
Fixpoint split_go (acc : str) (s : str) : list str :=
  match s with
  | [] => match acc with [] => [] | _ => [acc] end
  | c :: s' =>
      if isspace c
      then match acc with [] => split_go [] s' | _ => acc :: split_go [] s' end
      else split_go (acc ++ [c]) s'
  end.

Definition str_split (s : str) : list str := split_go [] s.

(** [s.strip()]. *)
Fixpoint lstrip (s : str) : str :=
  match s with
  | c :: s' => if isspace c then lstrip s' else s
  | [] => []
  end.

Definition str_strip (s : str) : str := rev (lstrip (rev (lstrip s))).

(** ** Regular-expression substitution

    A matcher answers, for the text that starts at the current position,
    how long the match of the pattern that starts there is. [re_sub]
    is the loop of [re.sub] and of [str.replace]: scan from the left, at a
    match emit the replacement and jump over the match ([skip] counts the
    characters of the match still to jump over), otherwise copy one
    character. None of the patterns of the notebook matches the empty
    string. *)
Definition matcher : Type := str -> option nat.

Fixpoint re_sub (m : matcher) (repl : str) (skip : nat) (s : str) : str :=
  match s with
  | [] => []
  | c :: s' =>
      match skip with
      | S k => re_sub m repl k s'
      | O =>
          match m s with
          | Some (S n) => repl ++ re_sub m repl n s'
          | _ => c :: re_sub m repl 0 s'
          end
      end
  end.

(** [http\S+] *)
Definition m_url : matcher := fun s =>
  if startswith (u "http") s
  then match length (span re_S (drop 4 s)) with
       | O => None
       | S k => Some (4 + S k)%nat
       end
  else None.

(** [\[[^]]*\]]: an opening bracket, up to the first closing bracket. *)
Definition m_brackets : matcher := fun s =>
  match s with
  | c :: rest =>
      if c =? 91
      then let body := span (fun c => negb (c =? 93)) rest in
           match drop (length body) rest with
           | _ :: _ => Some (length body + 2)%nat
           | [] => None
           end
      else None
  | [] => None
  end.

(** [\w*\d\w*]: the greedy [\w*] takes the whole run of word characters
    and gives back up to the last digit of the run, the second [\w*]
    takes the rest of the run again; the match is the whole run when the
    run holds a digit, and there is none otherwise. *)
Definition m_number : matcher := fun s =>
  let run := span re_w s in
  if existsb re_d run then Some (length run) else None.

(** A character class such as [[abc]] or the literal [\n]. *)
Definition m_class (cls : list char) : matcher := fun s =>
  match s with
  | c :: _ => if existsb (N.eqb c) cls then Some 1%nat else None
  | [] => None
  end.

(** A literal, for [str.replace]. *)
Definition m_literal (old : str) : matcher := fun s =>
  if startswith old s then Some (length old) else None.

Definition str_replace (old new s : str) : str := re_sub (m_literal old) new 0 s.

(** ** The cleaner (PART 1 of the notebook) *)

(** [string.punctuation], one string per character. *)
Definition string_punctuation : list str :=
  (fun c => [c]) <$> (u "!" ++ [34] ++ u "#$%&'()*+,-./:;<=>?@[\]^_`{|}~").

(** [get_all_punctuations]: the English stopwords and the punctuation
    characters in one set. [stopwords_english] is [stopwords.words("english")]. *)
Definition get_all_punctuations (stopwords_english : list str) : listset str :=
  list_to_set stopwords_english ∪ list_to_set string_punctuation.

Definition remove_urls (text : str) : str := re_sub m_url [] 0 text.

Definition remove_between_square_brackets (text : str) : str :=
  re_sub m_brackets [] 0 text.

Definition remove_numbers (text : str) : str := re_sub m_number [] 0 text.

(** The list [_punctuations] of [remove_stopwords]; the curly quotes are
    U+201C, U+201D, U+2019, U+2018 and the pound sign is U+00A3. *)
Definition _punctuations : list str :=
  [u "\"; u "`"; u "*"; u "_"; u "{"; u "}"; u "["; u "]"; u "("; u ")"; u "/";
   [8220]; [8221]; [8217]; [8216]; u ">"; u "@"; u "#"; u "+";
   u "-"; u "--"; u "?"; u "%"; u "#"; [163]; u "."; u ":"; u ";"; u ","; u "!";
   u "$"; u "'"].

(** The inner loop of [remove_stopwords]:
    [for ch in _punctuations: if ch in i: i = i.replace(ch, " ")]. *)
Definition replace_punctuations (i : str) : str :=
  foldl (fun i ch => if str_contains ch i then str_replace ch (u " ") i else i)
        i _punctuations.

Definition remove_stopwords (stopwords_english : list str) (text : str) : str :=
  let stops := get_all_punctuations stopwords_english in
  let final_text :=
    (fun i => str_strip (replace_punctuations i))
      <$> filter (fun i => str_lower (str_strip i) ∉ stops) (str_split text) in
  str_join (u " ") final_text.

(** [[‘’“”…]]: U+2018, U+2019, U+201C, U+201D, U+2026. *)
Definition remove_accent_signs (text : str) : str :=
  re_sub (m_class [8216; 8217; 8220; 8221; 8230]) [] 0 text.

Definition remove_new_lines (text : str) : str := re_sub (m_class [10]) [] 0 text.

(** [re.split("\W+", text)]: [acc] is the piece being read, [in_sep] tells
    that the previous character belonged to a separator. A separator at
    either end of the text leaves an empty piece there. *)
Fixpoint re_split_W (acc : str) (in_sep : bool) (s : str) : list str :=
  match s with
  | [] => [acc]
  | c :: s' =>
      if re_w c then re_split_W (acc ++ [c]) false s'
      else if in_sep then re_split_W acc true s'
      else acc :: re_split_W [] true s'
  end.

Definition tokenize (text : str) : list str := re_split_W [] false text.

(** [lemmatizer]; [lemmatize] is [WordNetLemmatizer().lemmatize]. *)
Definition lemmatizer (stopwords_english : list str) (lemmatize : str -> str)
    (text : list str) : list str :=
  lemmatize <$> filter (fun word => word ∉ (list_to_set stopwords_english : listset str)) text.

Section Clean.
(** [strip_html] is [BeautifulSoup(text, "html.parser").get_text()]. *)
Variable strip_html : str -> str.
Variable stopwords_english : list str.
Variable lemmatize : str -> str.

Definition clean_text (text : str) : str :=
  let text := strip_html text in
  let text := str_lower text in
  let text := remove_between_square_brackets text in
  let text := remove_urls text in
  let text := remove_stopwords stopwords_english text in
  let text := remove_numbers text in
  let text := remove_accent_signs text in
  let text := remove_new_lines text in
  let text := tokenize text in
  let text := lemmatizer stopwords_english lemmatize text in
  str_join (u " ") text.

End Clean.
End Text.

(** * The pipeline (PARTS 2 to 6 of the notebook) *)

(** ** Data frames

    A frame has named columns and rows; a row carries its index label and
    its cells by column name. A cell that a row lacks in a column the
    frame has is NaN. *)
Inductive Cell := CStr (s : str) | CInt (z : Z) | CNaN.

Record Frame := { columns : list string; rows : list (nat * gmap string Cell) }.

(** A pandas [Series]: values with their index labels. *)
Definition Series : Type := list (nat * Cell).

Inductive exn :=
| FileNotFoundError (path : string)
| KeyError (key : string)
| AttributeError (msg : string)
| TypeError (msg : string)
| ValueError (msg : string)
| RuntimeError (msg : string).

Definition cell_of (col : string) (r : gmap string Cell) : Cell := default CNaN (r !! col).

(** [df[col] = v] for a scalar [v]. *)
Definition setitem_const (col : string) (v : Cell) (f : Frame) : Frame :=
  {| columns := if decide (col ∈ columns f) then columns f else columns f ++ [col];
     rows := (fun r => (r.1, <[col := v]> r.2)) <$> rows f |}.

(** [pd.concat([f1, f2], axis=0)]: the rows of [f1], then those of [f2],
    each with its own index label; the columns of both. *)
Definition pd_concat (f1 f2 : Frame) : Frame :=
  {| columns := columns f1 ++ filter (fun c => c ∉ columns f1) (columns f2);
     rows := rows f1 ++ rows f2 |}.

(** [df.drop(cols, axis=1)]: a [KeyError] when a column is not there. *)
Definition drop_columns (cols : list string) (f : Frame) : exn + Frame :=
  match list_find (fun c => c ∉ columns f) cols with
  | Some (_, c) => inl (KeyError c)
  | None =>
      inr {| columns := filter (fun c => c ∉ cols) (columns f);
             rows := (fun r => (r.1, foldr delete r.2 cols)) <$> rows f |}
  end.

(** [df.reset_index()]: the old labels become a column, named [index], or
    [level_0] when [index] is taken; the rows are relabelled 0, 1, 2, ... *)
Definition reset_index (f : Frame) : exn + Frame :=
  let relabel name :=
    {| columns := name :: columns f;
       rows := imap (fun i r => (i, <[name := CInt (Z.of_nat r.1)]> r.2)) (rows f) |} in
  if decide ("index"%string ∈ columns f)
  then if decide ("level_0"%string ∈ columns f)
       then inl (ValueError "cannot insert level_0, already exists")
       else inr (relabel "level_0"%string)
  else inr (relabel "index"%string).

(** Positional selection ([iloc] with a list of positions). *)
Definition take_positions {A} (l : list A) (pos : list nat) : list A :=
  omap (fun i => l !! i) pos.

(** [df.head(n)]; a negative [n] leaves out the last [-n] rows. *)
Definition df_head (n : Z) (f : Frame) : Frame :=
  {| columns := columns f;
     rows := if (0 <=? n)%Z then take (Z.to_nat n) (rows f)
             else take (length (rows f) - Z.to_nat (- n)) (rows f) |}.

(** [df[col]] and [df.col]: the column as a series. *)
Definition column (col : string) (f : Frame) : option Series :=
  if decide (col ∈ columns f)
  then Some ((fun r => (r.1, cell_of col r.2)) <$> rows f)
  else None.

Definition series_at (s : Series) (label : nat) : Cell :=
  match list_find (fun e : nat * Cell => e.1 = label) s with
  | Some (_, (_, v)) => v
  | None => CNaN
  end.

(** [df[col] = series]: the values are aligned on the index labels. *)
Definition setitem (col : string) (s : Series) (f : Frame) : Frame :=
  {| columns := if decide (col ∈ columns f) then columns f else columns f ++ [col];
     rows := (fun r => (r.1, <[col := series_at s r.1]> r.2)) <$> rows f |}.

(** [series.apply(g)] for a function [g] on strings; [clean_text] on a
    cell that is not a string ends in a [TypeError] inside BeautifulSoup. *)
Fixpoint series_apply (g : str -> str) (s : Series) : exn + Series :=
  match s with
  | [] => inr []
  | (label, CStr t) :: s' =>
      match series_apply g s' with
      | inr out => inr ((label, CStr (g t)) :: out)
      | inl e => inl e
      end
  | (_, _) :: _ => inl (TypeError "object of type 'float' has no len()")
  end.

(** ** The enumerations *)
Inductive VectorizerType := Tfidf | Count.
Inductive ModelType := nb | lr | pa | dt.

(** Python checks no argument against its annotation: what arrives as a
    selector is a member of the enumeration or some other object. *)
Inductive selector (E : Type) :=
| Member (e : E)
| Foreign (repr : string).
Arguments Member {E} e.
Arguments Foreign {E} repr.

(** ** The libraries *)

(** numpy's global generator, which [df.sample] draws from when it is
    given no [random_state]. *)
Class Numpy := {
  rng_state : Type;
  permutation : rng_state -> nat -> list nat * rng_state
}.

(** scikit-learn, with the parameters the notebook passes fixed:
    [split_positions] is [train_test_split(..., train_size=.8,
    stratify=category, random_state=19)] as the positions that go to the
    train and to the test part; the four estimators are the four
    constructor calls of [create_model]. A decision tree built without
    [random_state] draws from the global generator when it is fitted. *)
Class Sklearn `{Numpy} := {
  matrix : Type;
  vectorizer : Type;
  estimator : Type;
  score : Type;
  split_positions : list Cell -> exn + (list nat * list nat);
  TfidfVectorizer : vectorizer;
  CountVectorizer : vectorizer;
  fit_transform : vectorizer -> list Cell -> exn + (vectorizer * matrix);
  transform : vectorizer -> list Cell -> exn + matrix;
  MultinomialNB : estimator;
  LogisticRegression : estimator;
  PassiveAggressiveClassifier : estimator;
  DecisionTreeClassifier : estimator;
  fit : estimator -> matrix -> list Cell -> rng_state -> exn + (estimator * rng_state);
  predict : estimator -> matrix -> exn + list Cell;
  accuracy_score : list Cell -> list Cell -> exn + score;
  classification_report : list Cell -> list Cell -> exn + string
}.

(** ** A state-and-exception monad *)
Inductive Res (S A : Type) :=
| Ok (a : A) (s : S)
| Raise (e : exn) (s : S).
Arguments Ok {S A} a s.
Arguments Raise {S A} e s.

Definition M (S A : Type) : Type := S -> Res S A.

Definition ret {S A} (a : A) : M S A := fun s => Ok a s.
Definition raise {S A} (e : exn) : M S A := fun s => Raise e s.
Definition bind {S A B} (c : M S A) (k : A -> M S B) : M S B :=
  fun s => match c s with
           | Ok a s' => k a s'
           | Raise e s' => Raise e s'
           end.
Definition gets {S A} (f : S -> A) : M S A := fun s => Ok (f s) s.
Definition modify {S} (f : S -> S) : M S unit := fun s => Ok tt (f s).
Definition of_sum {S A} (r : exn + A) : M S A :=
  match r with inr a => ret a | inl e => raise e end.
Definition final {S A} (r : Res S A) : S :=
  match r with Ok _ s => s | Raise _ s => s end.

Notation "x <~ c ;; k" := (bind c (fun x => k))
  (at level 100, c at next level, right associativity).
Notation "c ;;; k" := (bind c (fun _ => k))
  (at level 100, right associativity).

Section Pipeline.
Context {UCD : Unicode} {NP : Numpy} {SK : Sklearn}.
Variable strip_html : str -> str.
Variable stopwords_english : list str.
Variable lemmatize : str -> str.

(** ** The world *)

(** A data-frame object is a location in the heap: two references to the
    same frame are the same location. *)
Definition loc : Type := nat.

(** What the run asked of the libraries, oldest first. *)
Inductive Event :=
| EReadCsv (path : string)
| ESample (n : nat)
| EClean (df : loc)
| ESplit (df : loc)
| EFitTransform
| ETransform
| EFit
| EPredict
| EPrint (line : string).

Record World := {
  files : gmap string Frame;   (* what [pd.read_csv] parses at each path *)
  rng : rng_state;             (* the global generator of numpy *)
  heap : list Frame;           (* the data-frame objects *)
  log : list Event
}.

(** ** The objects *)
Record TrainTestSplit := {
  tts_df : loc;
  text_train : Series;
  text_test : Series;
  category_train : Series;
  category_test : Series
}.

Record Vectorize := {
  v_split : TrainTestSplit;
  _vectorizer : vectorizer;
  train : matrix;
  test : matrix
}.

(** A [Model] instance; the first seven fields are those it inherits from
    [TextProcessor]. [model] is [None] when [create_model] returned
    Python's [None]. *)
Record Model := {
  _df : option loc;
  true_news : Frame;
  fake_news : Frame;
  vectorizer_type : selector VectorizerType;
  sample_size : Z;
  _split : option TrainTestSplit;
  _vectorize : option Vectorize;
  model_type : selector ModelType;
  model : option estimator;
  _score : option score
}.

Record State := { self : Model; world : World }.

Definition on_world (f : World -> World) (st : State) : State :=
  {| self := self st; world := f (world st) |}.
Definition on_self (f : Model -> Model) (st : State) : State :=
  {| self := f (self st); world := world st |}.

Definition with_log (l : list Event) (w : World) : World :=
  {| files := files w; rng := rng w; heap := heap w; log := l |}.
Definition with_rng (g : rng_state) (w : World) : World :=
  {| files := files w; rng := g; heap := heap w; log := log w |}.
Definition with_heap (h : list Frame) (w : World) : World :=
  {| files := files w; rng := rng w; heap := h; log := log w |}.

Definition with_df (d : option loc) (m : Model) : Model :=
  {| _df := d; true_news := true_news m; fake_news := fake_news m;
     vectorizer_type := vectorizer_type m; sample_size := sample_size m;
     _split := _split m; _vectorize := _vectorize m;
     model_type := model_type m; model := model m; _score := _score m |}.
Definition with_news (t f : Frame) (m : Model) : Model :=
  {| _df := _df m; true_news := t; fake_news := f;
     vectorizer_type := vectorizer_type m; sample_size := sample_size m;
     _split := _split m; _vectorize := _vectorize m;
     model_type := model_type m; model := model m; _score := _score m |}.
Definition with_split (s : option TrainTestSplit) (m : Model) : Model :=
  {| _df := _df m; true_news := true_news m; fake_news := fake_news m;
     vectorizer_type := vectorizer_type m; sample_size := sample_size m;
     _split := s; _vectorize := _vectorize m;
     model_type := model_type m; model := model m; _score := _score m |}.
Definition with_vectorize (v : option Vectorize) (m : Model) : Model :=
  {| _df := _df m; true_news := true_news m; fake_news := fake_news m;
     vectorizer_type := vectorizer_type m; sample_size := sample_size m;
     _split := _split m; _vectorize := v;
     model_type := model_type m; model := model m; _score := _score m |}.
Definition with_model (e : option estimator) (m : Model) : Model :=
  {| _df := _df m; true_news := true_news m; fake_news := fake_news m;
     vectorizer_type := vectorizer_type m; sample_size := sample_size m;
     _split := _split m; _vectorize := _vectorize m;
     model_type := model_type m; model := e; _score := _score m |}.
Definition with_score (s : option score) (m : Model) : Model :=
  {| _df := _df m; true_news := true_news m; fake_news := fake_news m;
     vectorizer_type := vectorizer_type m; sample_size := sample_size m;
     _split := _split m; _vectorize := _vectorize m;
     model_type := model_type m; model := model m; _score := s |}.

(** Effects on the world, inside a method. *)
Definition emit (ev : Event) : M State unit :=
  modify (on_world (fun w => with_log (log w ++ [ev]) w)).

Definition alloc (f : Frame) : M State loc :=
  fun st => Ok (length (heap (world st)))
               (on_world (fun w => with_heap (heap w ++ [f]) w) st).

(** Every location comes from [alloc], so the lookup succeeds. *)
Definition load (l : loc) : M State Frame :=
  fun st => match heap (world st) !! l with
            | Some f => Ok f st
            | None => Raise (RuntimeError "no such object") st
            end.

Definition store (l : loc) (f : Frame) : M State unit :=
  modify (on_world (fun w => with_heap (<[l := f]> (heap w)) w)).

(** One draw of a permutation from the global generator. *)
Definition draw_permutation (n : nat) : M State (list nat) :=
  fun st => let '(p, g) := permutation (rng (world st)) n in
            Ok p (on_world (with_rng g) st).

(** ** PART 2: [TrainTestSplit] *)

(** [df.text], [df.category]: attribute access to a column. *)
Definition attribute (col : string) (f : Frame) : M State Series :=
  match column col f with
  | Some s => ret s
  | None => raise (AttributeError col)
  end.

Definition TrainTestSplit__init__ (df : loc) : M State TrainTestSplit :=
  f <~ load df ;;
  text <~ attribute "text" f ;;
  category <~ attribute "category" f ;;
  emit (ESplit df) ;;;
  parts <~ of_sum (split_positions (snd <$> category)) ;;
  ret {| tts_df := df;
         text_train := take_positions text parts.1;
         text_test := take_positions text parts.2;
         category_train := take_positions category parts.1;
         category_test := take_positions category parts.2 |}.

(** ** PART 3: [Vectorize] *)
Definition Vectorize__init__ (split : TrainTestSplit)
    (vectorizer_type : selector VectorizerType) : M State Vectorize :=
  vec <~ match vectorizer_type with
         | Member Tfidf => ret TfidfVectorizer
         | Member Count => ret CountVectorizer
         | Foreign _ => raise (RuntimeError "Unable to determine the vectorizer type.")
         end ;;
  emit EFitTransform ;;;
  fitted <~ of_sum (fit_transform vec (snd <$> text_train split)) ;;
  emit ETransform ;;;
  test <~ of_sum (transform fitted.1 (snd <$> text_test split)) ;;
  emit (EPrint "Train: shape") ;;;
  emit (EPrint "Test: shape") ;;;
  ret {| v_split := split; _vectorizer := fitted.1; train := fitted.2; test := test |}.

(** ** PART 4: [TextProcessor] *)
Definition read_csv (path : string) : M World Frame :=
  fun w => let w' := with_log (log w ++ [EReadCsv path]) w in
           match files w !! path with
           | Some f => Ok f w'
           | None => Raise (FileNotFoundError path) w'
           end.

Definition create_data_frame : M State loc :=
  modify (on_self (fun m =>
    with_news (setitem_const "category" (CInt 1) (true_news m))
              (setitem_const "category" (CInt 0) (fake_news m)) m)) ;;;
  m <~ gets self ;;
  let df := pd_concat (true_news m) (fake_news m) in
  df <~ of_sum (drop_columns ["title"; "subject"; "date"]%string df) ;;
  df <~ of_sum (reset_index df) ;;
  df <~ of_sum (drop_columns ["index"]%string df) ;;
  emit (ESample (length (rows df))) ;;;
  p <~ draw_permutation (length (rows df)) ;;
  let shuffled := {| columns := columns df; rows := take_positions (rows df) p |} in
  alloc (df_head (sample_size m) shuffled).

(** The property [df]. *)
Definition df : M State loc :=
  d <~ gets (fun st => _df (self st)) ;;
  match d with
  | Some l => ret l
  | None =>
      l <~ create_data_frame ;;
      modify (on_self (with_df (Some l))) ;;;
      ret l
  end.

(** [self.df['text'] = self.df['text'].apply(clean_text)]: the right-hand
    side first, then the frame that is assigned into. *)
Definition cleanup_text : M State unit :=
  l <~ df ;;
  f <~ load l ;;
  text <~ match column "text" f with
          | Some s => ret s
          | None => raise (KeyError "text")
          end ;;
  emit (EClean l) ;;;
  cleaned <~ of_sum (series_apply (clean_text strip_html stopwords_english lemmatize) text) ;;
  l' <~ df ;;
  f' <~ load l' ;;
  store l' (setitem "text" cleaned f').

Definition pre_processor : M State unit :=
  create_data_frame ;;; cleanup_text.

(** The property [split]. *)
Definition split : M State TrainTestSplit :=
  s <~ gets (fun st => _split (self st)) ;;
  match s with
  | Some sp => ret sp
  | None =>
      l <~ df ;;
      sp <~ TrainTestSplit__init__ l ;;
      modify (on_self (with_split (Some sp))) ;;;
      ret sp
  end.

(** The property [vectorize]. *)
Definition vectorize : M State Vectorize :=
  v <~ gets (fun st => _vectorize (self st)) ;;
  match v with
  | Some vz => ret vz
  | None =>
      sp <~ split ;;
      vt <~ gets (fun st => vectorizer_type (self st)) ;;
      vz <~ Vectorize__init__ sp vt ;;
      modify (on_self (with_vectorize (Some vz))) ;;;
      ret vz
  end.

(** ** PART 5: [Model] *)

(** [create_model]: the chain of [if]/[elif] has no [else], so for any
    other object the function falls off its end and returns [None]. *)
Definition create_model (model_type : selector ModelType) : option estimator :=
  match model_type with
  | Member nb => Some MultinomialNB
  | Member lr => Some LogisticRegression
  | Member pa => Some PassiveAggressiveClassifier
  | Member dt => Some DecisionTreeClassifier
  | Foreign _ => None
  end.

(** [Model.__init__], with [TextProcessor.__init__] inlined at [super()]. *)
Definition Model__init__ (true_news fake_news : string)
    (vectorizer_type : selector VectorizerType) (model_type : selector ModelType)
    (sample_size : Z) : M World Model :=
  t <~ read_csv true_news ;;
  f <~ read_csv fake_news ;;
  ret {| _df := None; true_news := t; fake_news := f;
         vectorizer_type := vectorizer_type; sample_size := sample_size;
         _split := None; _vectorize := None;
         model_type := model_type; model := create_model model_type;
         _score := None |}.

(** [self.model.<name>]: the attribute of the estimator is looked up
    before the arguments of the call are evaluated. *)
Definition model_attribute (name : string) : M State estimator :=
  m <~ gets (fun st => model (self st)) ;;
  match m with
  | Some est => ret est
  | None => raise (AttributeError name)
  end.

Definition Model_fit : M State unit :=
  est <~ model_attribute "fit" ;;
  vz <~ vectorize ;;
  sp <~ split ;;
  emit EFit ;;;
  g <~ gets (fun st => rng (world st)) ;;
  fitted <~ of_sum (fit est (train vz) (snd <$> category_train sp) g) ;;
  modify (on_world (with_rng fitted.2)) ;;;
  modify (on_self (with_model (Some fitted.1))).

Definition Model_predict : M State (list Cell) :=
  est <~ model_attribute "predict" ;;
  vz <~ vectorize ;;
  emit EPredict ;;;
  of_sum (predict est (test vz)).

(** The property [accuracy_score]. *)
Definition Model_accuracy_score : M State score :=
  s <~ gets (fun st => _score (self st)) ;;
  match s with
  | Some sc => ret sc
  | None =>
      sp <~ split ;;
      predicted <~ Model_predict ;;
      sc <~ of_sum (accuracy_score (snd <$> category_test sp) predicted) ;;
      modify (on_self (with_score (Some sc))) ;;;
      ret sc
  end.

(** [self.model_type.value]: a member of [ModelType] has its value. Of
    the objects that are no member the model takes those that have no
    such attribute (a string, a number, [None]). *)
Definition model_type_value : M State string :=
  mt <~ gets (fun st => model_type (self st)) ;;
  match mt with
  | Member nb => ret "MultinomialNBModel"%string
  | Member lr => ret "LogisticRegressionModel"%string
  | Member pa => ret "PassiveAggressiveClassifier"%string
  | Member dt => ret "DecisionTreeClassifier"%string
  | Foreign _ => raise (AttributeError "value")
  end.

(** The two printing methods; the text of the lines is not modelled. The
    line of the score is put together from left to right: the value of
    the model selector is read before the accuracy score is asked for. *)
Definition print_accuracy_score : M State unit :=
  model_type_value ;;;
  Model_accuracy_score ;;;
  emit (EPrint "accuracy score").

Definition print_classification_report : M State unit :=
  sp <~ split ;;
  predicted <~ Model_predict ;;
  report <~ of_sum (classification_report (snd <$> category_test sp) predicted) ;;
  emit (EPrint report).

Definition run : M State unit :=
  pre_processor ;;;
  Model_fit ;;;
  print_accuracy_score ;;;
  print_classification_report.

(** ** PART 6: [run_model] *)

(** A method call on a fresh instance, seen from the world. *)
Definition on_instance {A} (m : Model) (c : M State A) : M World A :=
  fun w => match c {| self := m; world := w |} with
           | Ok a st => Ok a (world st)
           | Raise e st => Raise e (world st)
           end.

Definition with_log_w (ev : Event) : M World unit :=
  fun w => Ok tt (with_log (log w ++ [ev]) w).

Fixpoint run_each (true_news fake_news : string) (sample_size : Z)
    (model_type : selector ModelType) (vectorizer_types : list VectorizerType)
    : M World unit :=
  match vectorizer_types with
  | [] => ret tt
  | vectorizer_type :: rest =>
      m <~ Model__init__ true_news fake_news (Member vectorizer_type) model_type sample_size ;;
      on_instance m run ;;;
      with_log_w (EPrint "Execution time") ;;;
      with_log_w (EPrint "") ;;;
      with_log_w (EPrint "------------------------------------------------------") ;;;
      run_each true_news fake_news sample_size model_type rest
  end.

Definition run_model (true_news fake_news : string) (sample_size : Z)
    (model_type : selector ModelType) : M World unit :=
  run_each true_news fake_news sample_size model_type [Tfidf; Count].

(** The public methods and properties of an instance, for statements
    about whatever is called next. *)
Inductive method :=
| call_create_data_frame | call_df | call_cleanup_text | call_pre_processor
| call_split | call_vectorize | call_fit | call_predict | call_accuracy_score
| call_print_accuracy_score | call_print_classification_report | call_run.

Definition call (c : method) : M State unit :=
  match c with
  | call_create_data_frame => create_data_frame ;;; ret tt
  | call_df => df ;;; ret tt
  | call_cleanup_text => cleanup_text
  | call_pre_processor => pre_processor
  | call_split => split ;;; ret tt
  | call_vectorize => vectorize ;;; ret tt
  | call_fit => Model_fit
  | call_predict => Model_predict ;;; ret tt
  | call_accuracy_score => Model_accuracy_score ;;; ret tt
  | call_print_accuracy_score => print_accuracy_score
  | call_print_classification_report => print_classification_report
  | call_run => run
  end.

(** A sequence of calls, each made whether or not the one before raised
    (the analyst at the notebook may catch an exception and go on). *)
Definition calls (cs : list method) (st : State) : State :=
  foldl (fun st c => final (call c st)) st cs.

End Pipeline.

(** * Reference instances of the libraries

    Small stand-ins on which the code above runs on concrete inputs. Each
    says what it takes from the library it stands for; none of them is
    used by a statement that quantifies over the libraries. *)
Module Reference.

(** The Unicode database cut down to ASCII: outside ASCII no code point
    is alphanumeric and lower-casing changes nothing. Exact on ASCII text
    and on the punctuation the notebook names (the curly quotes, the
    ellipsis, the pound sign). *)
#[export] Instance basic_latin : Unicode :=
  {| ucd_alnum := fun _ => false;
     ucd_decimal := fun _ => false;
     ucd_lower := fun s => s |}.

(** [stopwords.words("english")] of the NLTK stopwords corpus. *)
Definition nltk_stopwords : list str :=
  u <$> ["i"; "me"; "my"; "myself"; "we"; "our"; "ours"; "ourselves"; "you";
   "you're"; "you've"; "you'll"; "you'd"; "your"; "yours"; "yourself";
   "yourselves"; "he"; "him"; "his"; "himself"; "she"; "she's"; "her"; "hers";
   "herself"; "it"; "it's"; "its"; "itself"; "they"; "them"; "their";
   "theirs"; "themselves"; "what"; "which"; "who"; "whom"; "this"; "that";
   "that'll"; "these"; "those"; "am"; "is"; "are"; "was"; "were"; "be";
   "been"; "being"; "have"; "has"; "had"; "having"; "do"; "does"; "did";
   "doing"; "a"; "an"; "the"; "and"; "but"; "if"; "or"; "because"; "as";
   "until"; "while"; "of"; "at"; "by"; "for"; "with"; "about"; "against";
   "between"; "into"; "through"; "during"; "before"; "after"; "above";
   "below"; "to"; "from"; "up"; "down"; "in"; "out"; "on"; "off"; "over";
   "under"; "again"; "further"; "then"; "once"; "here"; "there"; "when";
   "where"; "why"; "how"; "all"; "any"; "both"; "each"; "few"; "more";
   "most"; "other"; "some"; "such"; "no"; "nor"; "not"; "only"; "own";
   "same"; "so"; "than"; "too"; "very"; "s"; "t"; "can"; "will"; "just";
   "don"; "don't"; "should"; "should've"; "now"; "d"; "ll"; "m"; "o"; "re";
   "ve"; "y"; "ain"; "aren"; "aren't"; "couldn"; "couldn't"; "didn";
   "didn't"; "doesn"; "doesn't"; "hadn"; "hadn't"; "hasn"; "hasn't"; "haven";
   "haven't"; "isn"; "isn't"; "ma"; "mightn"; "mightn't"; "mustn"; "mustn't";
   "needn"; "needn't"; "shan"; "shan't"; "shouldn"; "shouldn't"; "wasn";
   "wasn't"; "weren"; "weren't"; "won"; "won't"; "wouldn"; "wouldn't"]%string.

(** A lemmatizer by table: a word that the table lacks is returned as it
    is, which is what [WordNetLemmatizer.lemmatize] does with a word for
    which WordNet offers no shorter form. *)
Definition lemma_table : list (str * str) :=
  [(u "visits", u "visit"); (u "articles", u "article"); (u "stories", u "story")].

Definition table_lemmatize (word : str) : str :=
  match list_find (fun e : str * str => e.1 = word) lemma_table with
  | Some (_, (_, lemma)) => lemma
  | None => word
  end.

(** A tag: [<], a letter or a slash, and everything up to the next [>]. *)
Definition m_tag : matcher := fun s =>
  match s with
  | c :: d :: rest =>
      if (c =? 60) && (ascii_islower d || ascii_isupper d || (d =? 47))
      then let body := span (fun c => negb (c =? 62)) rest in
           match drop (length body) rest with
           | _ :: _ => Some (length body + 3)%nat
           | [] => None
           end
      else None
  | _ => None
  end.

(** Stand-in for [BeautifulSoup(text, "html.parser").get_text()]: the
    tags are deleted and the text between them is kept. Text without
    [<] and [&] that is not all blank passes unchanged, as it does through
    BeautifulSoup; entities, comments and scripts are not modelled. *)
Definition strip_tags (text : str) : str := re_sub m_tag [] 0 text.

(** The cleaner on the reference resources. *)
Definition clean (text : str) : str :=
  clean_text strip_tags nltk_stopwords table_lemmatize text.

(** A generator whose state is a counter; the permutation it draws is the
    rotation by the counter. It stands for numpy's generator only in that
    different states draw different permutations. *)
#[export] Instance counter_numpy : Numpy :=
  {| rng_state := nat;
     permutation := fun g n => (rotate g (seq 0 n), S g) |}.

#[export] Instance Cell_eq_dec : EqDecision Cell.
Proof. solve_decision. Defined.

Definition count_label (labels : list Cell) (c : Cell) : nat :=
  length (filter (fun x => x = c) labels).

(** Stand-in for the stratified split: the sizes and the refusals of
    scikit-learn (an empty train part, a class with a single member, fewer
    rows than classes in a part); which rows go where is its own choice
    (the first rows train, the last rows test), where scikit-learn
    shuffles within each class with its fixed seed. *)
Definition ordered_split (labels : list Cell) : exn + (list nat * list nat) :=
  let n := length labels in
  let n_train := (8 * n / 10)%nat in
  let n_test := (n - n_train)%nat in
  let classes := remove_dups labels in
  if decide (n_train = 0)%nat
  then inl (ValueError "the resulting train set will be empty")
  else if decide (Exists (fun c => count_label labels c < 2)%nat classes)
  then inl (ValueError "The least populated class in y has only 1 member")
  else if decide (n_train < length classes)%nat
  then inl (ValueError "The train_size should be greater or equal to the number of classes")
  else if decide (n_test < length classes)%nat
  then inl (ValueError "The test_size should be greater or equal to the number of classes")
  else inr (seq 0 n_train, seq n_train n_test).

Definition cell_words (c : Cell) : list str :=
  match c with CStr s => str_split s | _ => [] end.

Definition count_word (doc : list str) (w : str) : nat :=
  length (filter (fun x => x = w) doc).

Definition majority (labels : list Cell) : Cell :=
  if decide (count_label labels (CInt 0) <= count_label labels (CInt 1))%nat
  then CInt 1 else CInt 0.

(** Stand-in for scikit-learn: a vectorizer that counts the words of its
    vocabulary, one estimator that answers the majority label of its
    training set whatever the kind asked for, accuracy as the pair of the
    hits and the size. *)
#[export] Instance toy_sklearn : Sklearn :=
  {| matrix := list (list nat);
     vectorizer := list str;
     estimator := option Cell;
     score := nat * nat;
     split_positions := ordered_split;
     TfidfVectorizer := [];
     CountVectorizer := [];
     fit_transform := fun _ docs =>
       let vocabulary := remove_dups (concat (cell_words <$> docs)) in
       match vocabulary with
       | [] => inl (ValueError "empty vocabulary")
       | _ => inr (vocabulary,
                   (fun d => count_word (cell_words d) <$> vocabulary) <$> docs)
       end;
     transform := fun vocabulary docs =>
       inr ((fun d => count_word (cell_words d) <$> vocabulary) <$> docs);
     MultinomialNB := None;
     LogisticRegression := None;
     PassiveAggressiveClassifier := None;
     DecisionTreeClassifier := None;
     fit := fun _ _ labels g => inr (Some (majority labels), g);
     predict := fun est X =>
       match est with
       | Some label => inr ((fun _ => label) <$> X)
       | None => inl (ValueError "This estimator is not fitted yet")
       end;
     accuracy_score := fun y_true y_pred =>
       inr (length (filter (fun p : Cell * Cell => p.1 = p.2) (zip y_true y_pred)),
            length y_true);
     classification_report := fun _ _ => inr "report"%string |}.

(** Two small corpora as [pd.read_csv] delivers them. *)
Definition article (label : nat) (text : string) : nat * gmap string Cell :=
  (label, {[ "title"%string := CStr (u "t"); "text"%string := CStr (u text);
             "subject"%string := CStr (u "news"); "date"%string := CStr (u "d") ]}).

Definition news_columns : list string := ["title"; "text"; "subject"; "date"]%string.

Definition true_csv : Frame :=
  {| columns := news_columns;
     rows := [article 0 "Senate passes the budget bill"; article 1 "Court upholds ruling";
              article 2 "Markets close higher"] |}.

Definition fake_csv : Frame :=
  {| columns := news_columns;
     rows := [article 0 "Aliens endorse candidate!!"; article 1 "Miracle cure found [ad]";
              article 2 "You won't believe this"] |}.

Definition disk : World :=
  {| files := {[ "True.csv"%string := true_csv; "Fake.csv"%string := fake_csv ]};
     rng := 0%nat; heap := []; log := [] |}.

(** One run of the notebook on the reference libraries. *)
Definition run_once (vectorizer_type : selector VectorizerType)
    (model_type : selector ModelType) (sample_size : Z) (w : World) : Res World unit :=
  (m <~ Model__init__ "True.csv" "Fake.csv" vectorizer_type model_type sample_size ;;
   on_instance m (run strip_tags nltk_stopwords table_lemmatize)) w.

(** The instance and the world that [Model.__init__] leaves on [disk]. *)
Definition fresh_state (vectorizer_type : selector VectorizerType)
    (model_type : selector ModelType) (sample_size : Z) : State :=
  {| self := {| _df := None; true_news := true_csv; fake_news := fake_csv;
                vectorizer_type := vectorizer_type; sample_size := sample_size;
                _split := None; _vectorize := None;
                model_type := model_type; model := create_model model_type;
                _score := None |};
     world := with_log [EReadCsv "True.csv"; EReadCsv "Fake.csv"] disk |}.


End Reference.

(** * Vocabulary of the statements *)

(** [a] occurs in [s] as a substring. *)
Definition occurs_in (a s : str) : Prop := exists l r, s = l ++ a ++ r.


(** The text before a run ends where the run starts: it is empty or its
    last character satisfies [sep]; likewise the text after a run. *)
Definition ends_with (sep : char -> bool) (pre : str) : Prop :=
  pre = [] \/ exists p c, pre = p ++ [c] /\ sep c = true.
Definition begins_with (sep : char -> bool) (post : str) : Prop :=
  post = [] \/ exists c p, post = c :: p /\ sep c = true.

(** A matcher is local to [a] before [b] when, from every position inside
    [a], it sees the same match with [b] appended, and that match ends
    inside [a]. *)
Definition local_to (m : matcher) (a b : str) : Prop :=
  forall p a', a = p ++ a' -> a' <> [] ->
    m (a' ++ b) = m a' /\ forall n, m a' = Some n -> (n <= length a')%nat.

(** The words of step 6 of the specification, "delete any
    whitespace-delimited run that contains at least one numeral", as a
    function of their own: [run] is the run being read. *)
Section SpecWords.
Context {UCD : Unicode}.

Definition keep_run (run : str) : str := if existsb re_d run then [] else run.

Fixpoint delete_digit_runs_go (run : str) (s : str) : str :=
  match s with
  | [] => keep_run run
  | c :: s' =>
      if isspace c then keep_run run ++ c :: delete_digit_runs_go [] s'
      else delete_digit_runs_go (run ++ [c]) s'
  end.

Definition delete_digit_runs (text : str) : str := delete_digit_runs_go [] text.

(** Resources on which the two texts [x=] and [x ] pass unchanged up to
    the tokenizer: the markup stripper finds no markup in them, neither
    [x], [x=] nor the empty string is a stopword, and the lemmatizer has
    no shorter form for [x] and for the empty string. *)
Definition plain_on_x (strip_html : str -> str) (stopwords_english : list str)
    (lemmatize : str -> str) : Prop :=
  strip_html (u "x=") = u "x=" /\ strip_html (u "x ") = u "x " /\
  (u "x" ∉ stopwords_english) /\ (u "x=" ∉ stopwords_english) /\
  ([] ∉ stopwords_english) /\
  lemmatize (u "x") = u "x" /\ lemmatize [] = [].

End SpecWords.

(** ** Outcomes of a method

    [wp c Q E st]: from [st] the computation [c] returns a value and a
    state that satisfy [Q], or raises in a state that satisfies [E]. *)
Definition wp {S A} (c : M S A) (Q : A -> S -> Prop) (E : exn -> S -> Prop) (st : S) : Prop :=
  match c st with
  | Ok a st' => Q a st'
  | Raise e st' => E e st'
  end.

Section StatementsOnRuns.
Context {UCD : Unicode} {NP : Numpy} {SK : Sklearn}.

(** The events of preparing the data: sampling, cleaning, splitting. *)
Definition preparation (ev : Event) : Prop :=
  match ev with
  | ESample _ | EClean _ | ESplit _ => True
  | _ => False
  end.

(** [st'] comes after [st] by preparation only: the log grew by
    preparation events, and the selectors, the estimator and the cached
    vectorizer of the instance are as they were. *)
Definition prepared (st st' : State) : Prop :=
  (exists evs, log (world st') = log (world st) ++ evs /\ Forall preparation evs) /\
  vectorizer_type (self st') = vectorizer_type (self st) /\
  model (self st') = model (self st) /\
  _vectorize (self st') = _vectorize (self st).

(** The cache of the sampled frame is kept. *)
Definition keeps_df (st st' : State) : Prop :=
  forall l, _df (self st) = Some l -> _df (self st') = Some l.

(** The rows of an assembled frame: distinct labels below the size of the
    two corpora, and the category that the origin of the row dictates,
    1 for a row of the first [n_true] (the genuine corpus) and 0 for a
    later one (the fabricated corpus). *)
Definition labelled (n_true n_fake : nat) (f : Frame) : Prop :=
  "category"%string ∈ columns f /\
  NoDup (fst <$> rows f) /\
  forall label r, (label, r) ∈ rows f ->
    (label < n_true)%nat /\ cell_of "category" r = CInt 1 \/
    (n_true <= label < n_true + n_fake)%nat /\ cell_of "category" r = CInt 0.

(** The series of a column, whether or not the frame lists the column. *)
Definition series_of (col : string) (f : Frame) : Series :=
  (fun r => (r.1, cell_of col r.2)) <$> rows f.

(** Whatever the outcome of [c], the state it ends in is related by [R]
    to the state it started from. *)
Definition always {A} (R : State -> State -> Prop) (c : M State A) : Prop :=
  forall st, R st (final (c st)).

(** [prepared], and the cached split is as it was. *)
Definition prepared_unsplit (st st' : State) : Prop :=
  prepared st st' /\ _split (self st') = _split (self st).

(** The cached split was made from the cached frame, and the cached
    vectorizer from the cached split. *)
Definition coherent (st : State) : Prop :=
  (forall sp, _split (self st) = Some sp -> _df (self st) = Some (tts_df sp)) /\
  (forall vz, _vectorize (self st) = Some vz -> _split (self st) = Some (v_split vz)).

(** [coherent], with the frame [d] in the cache when [d] names one. *)
Definition coherent_at (d : option loc) (st : State) : Prop :=
  coherent st /\ forall l, d = Some l -> _df (self st) = Some l.

(** Whether a computation returned, and what. *)
Definition succeeded {S A} (r : Res S A) : bool :=
  match r with Ok _ _ => true | Raise _ _ => false end.
Definition returned {S A} (r : Res S A) : option A :=
  match r with Ok a _ => Some a | Raise _ _ => None end.

(** The exception a computation ended with, if any, and the log. *)
Definition outcome {S A} (log_of : S -> list Event) (r : Res S A) : option exn * list Event :=
  match r with
  | Ok _ s => (None, log_of s)
  | Raise e s => (Some e, log_of s)
  end.

(** The rows that [pd.concat] and [reset_index] hand to the shuffle:
    [n_true + n_fake] of them, the row at position [i] labelled [i] and of
    category 1 or 0 as [i] lies in the genuine or in the fabricated part. *)
Definition assembled (n_true n_fake : nat) (rs : list (nat * gmap string Cell)) : Prop :=
  length rs = (n_true + n_fake)%nat /\
  forall i lr, rs !! i = Some lr ->
    lr.1 = i /\ cell_of "category" lr.2 = CInt (if decide (i < n_true)%nat then 1 else 0).

(** The two corpora of the instance have [n_true] and [n_fake] rows, and
    the cached frame, when there is one, is in the heap and [labelled]. *)
Definition frame_labelled (n_true n_fake : nat) (st : State) : Prop :=
  length (rows (true_news (self st))) = n_true /\
  length (rows (fake_news (self st))) = n_fake /\
  forall l, _df (self st) = Some l ->
    exists f, heap (world st) !! l = Some f /\ labelled n_true n_fake f.

(** What [TrainTestSplit] holds is the split of the frame [f]: the four
    series are the text and the category column of [f] at the positions
    that scikit-learn chose. *)
Definition split_of (f : Frame) (sp : TrainTestSplit) : Prop :=
  exists parts,
    split_positions (snd <$> series_of "category" f) = inr parts /\
    text_train sp = take_positions (series_of "text" f) parts.1 /\
    text_test sp = take_positions (series_of "text" f) parts.2 /\
    category_train sp = take_positions (series_of "category" f) parts.1 /\
    category_test sp = take_positions (series_of "category" f) parts.2.


(** The three caches of the instance are as they were. *)
Definition same_caches (st st' : State) : Prop :=
  _df (self st') = _df (self st) /\
  _split (self st') = _split (self st) /\
  _vectorize (self st') = _vectorize (self st).

(** [P] holds at the end of [c], however it ends, when it held at the start. *)
Definition preserves {A} (P : State -> Prop) (c : M State A) : Prop :=
  forall st, P st -> P (final (c st)).

(** [P] is carried from a state to a later one. *)
Definition carries (P : State -> Prop) (st st' : State) : Prop := P st -> P st'.

End StatementsOnRuns.

(** [i.replace(ch, " ")] on one character of [i], for a [ch] of one
    character: the character [c] becomes a space, another stays. *)
Definition blank_out (c : char) (x : char) : char := if x =? c then 32 else x.

(** The characters that make up an entry of [_punctuations] on their own. *)
Definition listed (c : char) : bool := bool_decide ([c] ∈ _punctuations).

(** One turn of the loop of [remove_stopwords] over [_punctuations]:
    [if ch in i: i = i.replace(ch, " ")]. *)
Definition turn (i ch : str) : str :=
  if str_contains ch i then str_replace ch (u " ") i else i.

(** What the turns for the entries of one character do to one character. *)
Definition turns (l : list str) (x : char) : char :=
  foldl (fun x ch => match ch with [d] => blank_out d x | _ => x end) x l.

Section StatementsOnSteps.
Context {UCD : Unicode} {NP : Numpy} {SK : Sklearn}.

(** The frame that [create_data_frame] hands to the shuffle, or the
    exception on the way to it: the two corpora with their category,
    one under the other, without the three columns that are dropped and
    with the rows numbered anew. *)
Definition assemble (T F : Frame) : exn + Frame :=
  match drop_columns ["title"; "subject"; "date"]%string
          (pd_concat (setitem_const "category" (CInt 1) T)
                     (setitem_const "category" (CInt 0) F)) with
  | inl e => inl e
  | inr df1 =>
      match reset_index df1 with
      | inl e => inl e
      | inr df2 => drop_columns ["index"]%string df2
      end
  end.

(** The instance with the category written into its two corpora. *)
Definition marked (st : State) : State :=
  on_self (fun m => with_news (setitem_const "category" (CInt 1) (true_news m))
                              (setitem_const "category" (CInt 0) (fake_news m)) m) st.

(** The sample cut from the frame [df] with the permutation drawn in [st]. *)
Definition sample_of (st : State) (df : Frame) : Frame :=
  df_head (sample_size (self st))
    {| columns := columns df;
       rows := take_positions (rows df)
                 (permutation (rng (world st)) (length (rows df))).1 |}.

(** A cache that is filled stays filled with what it holds. *)
Definition keeps_filled (st st' : State) : Prop :=
  (forall l, _df (self st) = Some l -> _df (self st') = Some l) /\
  (forall sp, _split (self st) = Some sp -> _split (self st') = Some sp) /\
  (forall vz, _vectorize (self st) = Some vz -> _vectorize (self st') = Some vz) /\
  (forall sc, _score (self st) = Some sc -> _score (self st') = Some sc).

(** The columns of a corpus that the assembly neither drops nor writes. *)
Definition carried_over (col : string) : Prop :=
  col ∉ ["title"; "subject"; "date"; "index"; "level_0"; "category"]%string.

(** What one run asks of the libraries, in this order: two samples of
    [n] rows, the cleaning and the split of the frame [l], the fit of the
    vectorizer and the transformation of the test texts with the two
    lines printed on them, the fit of the model, a prediction and the
    line of the accuracy score, a prediction and the report. *)
Definition run_events (n : nat) (l : loc) (report : string) : list Event :=
  [ESample n; ESample n; EClean l; ESplit l;
   EFitTransform; ETransform; EPrint "Train: shape"; EPrint "Test: shape";
   EFit; EPredict; EPrint "accuracy score"; EPredict; EPrint report].


End StatementsOnSteps.

(** * Properties of the cleaner *)

Section CleanerFacts.
Context {UCD : Unicode}.

(** ** The substitution loop *)

Lemma re_sub_skip m repl k s : re_sub m repl k s = re_sub m repl 0 (drop k s).
Proof.
  revert k. induction s as [|c s IH]; intros [|k]; simpl; try reflexivity.
  - apply IH.
Qed.

Lemma re_sub_match m repl s n :
  s <> [] -> m s = Some (S n) ->
  re_sub m repl 0 s = repl ++ re_sub m repl 0 (drop (S n) s).
Proof.
  destruct s as [|c s]; [done|]. intros _ Hm. simpl. rewrite Hm.
  by rewrite re_sub_skip.
Qed.

Lemma re_sub_copy m repl c s :
  m (c :: s) = None -> re_sub m repl 0 (c :: s) = c :: re_sub m repl 0 s.
Proof. intros Hm. simpl. by rewrite Hm. Qed.

(** What is left of the text are characters of the text or of the
    replacement. *)
Lemma re_sub_Forall (P : char -> Prop) m repl k s :
  Forall P repl -> Forall P s -> Forall P (re_sub m repl k s).
Proof.
  intros Hr. revert k. induction s as [|c s IH]; intros k Hs; simpl; [constructor|].
  inversion Hs as [|? ? Hc Hs']; subst.
  destruct k as [|k]; [|by apply IH].
  destruct (m (c :: s)) as [[|n]|]; try (constructor; [done|by apply IH]).
  apply Forall_app; split; [done|by apply IH].
Qed.

(** A character that the loop copies at a position without a match
    satisfies [P]; so does all of the result. *)
Lemma re_sub_copied (P : char -> Prop) m k s :
  (forall c s', m (c :: s') = None \/ m (c :: s') = Some 0%nat -> P c) ->
  Forall P (re_sub m [] k s).
Proof.
  intros Hm. revert k. induction s as [|c s IH]; intros k; simpl; [constructor|].
  destruct k as [|k]; [|apply IH].
  destruct (m (c :: s)) as [[|n]|] eqn:E; simpl; try apply IH.
  - constructor; [apply Hm with s; by right|apply IH].
  - constructor; [apply Hm with s; by left|apply IH].
Qed.

Lemma local_to_suffix m a b p a' : local_to m a b -> a = p ++ a' -> local_to m a' b.
Proof.
  intros H -> q a'' -> Hne. apply (H (p ++ q) a''); [by rewrite <-app_assoc|done].
Qed.

Lemma re_sub_app m repl a b :
  local_to m a b ->
  re_sub m repl 0 (a ++ b) = re_sub m repl 0 a ++ re_sub m repl 0 b.
Proof.
  remember (length a) as n eqn:Hn. revert a Hn.
  induction (lt_wf n) as [n _ IH]. intros a -> Hloc.
  destruct a as [|c a]; [done|].
  destruct (Hloc [] (c :: a) eq_refl ltac:(done)) as [Hsame Hlen].
  change ((c :: a) ++ b) with (c :: (a ++ b)) in *.
  simpl re_sub at 1 2. rewrite Hsame.
  destruct (m (c :: a)) as [[|k]|] eqn:E.
  - simpl. f_equal. apply (IH (length a)); [simpl; lia|done|].
    by apply (local_to_suffix _ _ _ [c] a Hloc).
  - specialize (Hlen _ eq_refl). simpl in Hlen.
    rewrite <-app_assoc. f_equal.
    rewrite !(re_sub_skip _ _ k). rewrite drop_app_le by lia.
    apply (IH (length (drop k a))).
    + rewrite length_drop. simpl. lia.
    + done.
    + apply (local_to_suffix _ _ _ (c :: take k a) (drop k a) Hloc).
      simpl. by rewrite take_drop.
  - simpl. f_equal. apply (IH (length a)); [simpl; lia|done|].
    by apply (local_to_suffix _ _ _ [c] a Hloc).
Qed.

(** ** Greedy runs *)

Lemma span_prefix p s : exists r, s = span p s ++ r.
Proof.
  induction s as [|c s [r IH]]; simpl; [by exists []|].
  destruct (p c); [|by eexists]. exists r. simpl. by f_equal.
Qed.

Lemma span_length p s : (length (span p s) <= length s)%nat.
Proof. induction s as [|c s IH]; simpl; [lia|]. destruct (p c); simpl; lia. Qed.

Lemma span_all p s : forallb p s = true -> span p s = s.
Proof.
  induction s as [|c s IH]; simpl; [done|].
  intros [Hc Hs]%andb_prop. rewrite Hc. f_equal. by apply IH.
Qed.

Lemma span_idem p s : span p (span p s) = span p s.
Proof.
  induction s as [|c s IH]; simpl; [done|].
  destruct (p c) eqn:E; simpl; [|done]. rewrite E. by f_equal.
Qed.

Lemma span_Forall p s : Forall (fun c => p c = true) (span p s).
Proof.
  induction s as [|c s IH]; simpl; [constructor|].
  destruct (p c) eqn:E; by constructor.
Qed.

(** A run stops at the first character outside the class, whatever
    follows. *)
Lemma span_stop p x c y : p c = false -> span p (x ++ c :: y) = span p x.
Proof.
  intros Hc. induction x as [|d x IH]; simpl; [by rewrite Hc|].
  destruct (p d); [by f_equal|done].
Qed.

Lemma span_run p run post :
  forallb p run = true -> begins_with (fun c => negb (p c)) post ->
  span p (run ++ post) = run.
Proof.
  intros Hrun [->|(c & q & -> & Hc)].
  - rewrite app_nil_r. by apply span_all.
  - rewrite span_stop; [by apply span_all|]. by destruct (p c).
Qed.

(** A text that ends with a separator, cut anywhere, still holds one. *)
Lemma ends_with_suffix sep a p a' :
  ends_with sep a -> a = p ++ a' -> a' <> [] ->
  exists x c, a' = x ++ [c] /\ sep c = true.
Proof.
  intros [->|(q & c & -> & Hc)] Heq Hne.
  - by destruct p, a'.
  - destruct a' as [|d x _] using rev_ind; [done|].
    rewrite app_assoc in Heq. apply app_inj_tail in Heq as [_ ->]. eauto.
Qed.

End CleanerFacts.

Section Runs.
Context {UCD : Unicode}.

Lemma startswith_true old s : startswith old s = true -> s = old ++ drop (length old) s.
Proof.
  revert s. induction old as [|o old IH]; intros [|d s]; simpl; try done.
  intros [Ho Hs]%andb_prop. apply N.eqb_eq in Ho as ->. f_equal. by apply IH.
Qed.

Lemma startswith_span p old s :
  forallb p old = true -> startswith old (span p s) = startswith old s.
Proof.
  revert s. induction old as [|o old IH]; intros [|d s] Hold; simpl; try done.
  apply andb_prop in Hold as [Ho Hold].
  destruct (p d) eqn:Hd; simpl; [by rewrite IH|].
  destruct (N.eqb_spec o d) as [->|]; [congruence|done].
Qed.

Lemma span_app_all p a s : forallb p a = true -> span p (a ++ s) = a ++ span p s.
Proof.
  induction a as [|c a IH]; simpl; [done|].
  intros [Hc Ha]%andb_prop. rewrite Hc. f_equal. by apply IH.
Qed.

Lemma u_http : u "http" = [104; 116; 116; 112].
Proof. reflexivity. Qed.

Lemma http_not_blank : forallb re_S (u "http") = true.
Proof. reflexivity. Qed.

(** [http\S+] looks no further than the end of the run it starts in. *)
Lemma m_url_span s : m_url (span re_S s) = m_url s.
Proof.
  unfold m_url. rewrite startswith_span by apply http_not_blank.
  destruct (startswith (u "http") s) eqn:E; [|done].
  apply startswith_true in E. change (length (u "http")) with 4%nat in E.
  rewrite E at 1. rewrite span_app_all by apply http_not_blank.
  change (drop 4 (u "http" ++ span re_S (drop 4 s))) with (span re_S (drop 4 s)).
  by rewrite span_idem.
Qed.

Lemma m_url_length s n : m_url s = Some n -> (n <= length s)%nat.
Proof.
  unfold m_url. destruct (startswith (u "http") s) eqn:E; [|done].
  apply startswith_true in E. change (length (u "http")) with 4%nat in E.
  pose proof (span_length re_S (drop 4 s)) as Hle.
  destruct (length (span re_S (drop 4 s))) as [|k] eqn:Hk; [done|].
  intros [= <-]. rewrite E, length_app.
  change (length (u "http")) with 4%nat. lia.
Qed.

Lemma m_number_span s : m_number (span re_w s) = m_number s.
Proof. unfold m_number. by rewrite span_idem. Qed.

Lemma m_number_length s n : m_number s = Some n -> (n <= length s)%nat.
Proof.
  unfold m_number. destruct (existsb re_d (span re_w s)); [|done].
  intros [= <-]. apply span_length.
Qed.

(** A matcher that reads one run only is local to a text that ends
    outside the class of the run. *)
Lemma local_by_span p m a b :
  (forall s, m (span p s) = m s) ->
  (forall s n, m s = Some n -> (n <= length s)%nat) ->
  ends_with (fun c => negb (p c)) a ->
  local_to m a b.
Proof.
  intros Hspan Hlen Ha q a' Heq Hne.
  destruct (ends_with_suffix _ _ _ _ Ha Heq Hne) as (x & c & -> & Hc).
  apply negb_true_iff in Hc. split; [|apply Hlen].
  rewrite <-(Hspan ((x ++ [c]) ++ b)), <-(Hspan (x ++ [c])).
  rewrite <-app_assoc. simpl. by rewrite !span_stop.
Qed.

Lemma re_S_blank sep : ends_with isspace sep -> ends_with (fun c => negb (re_S c)) sep.
Proof.
  intros [->|(p & c & -> & Hc)]; [by left|right].
  exists p, c. split; [done|]. unfold re_S. by rewrite negb_involutive.
Qed.

Lemma re_S_blank_begin post :
  begins_with isspace post -> begins_with (fun c => negb (re_S c)) post.
Proof.
  intros [->|(c & p & -> & Hc)]; [by left|right].
  exists c, p. split; [done|]. unfold re_S. by rewrite negb_involutive.
Qed.

Lemma m_url_other c s : c <> 104 -> m_url (c :: s) = None.
Proof.
  intros Hc. unfold m_url.
  replace (startswith (u "http") (c :: s)) with false; [done|].
  rewrite u_http. cbn [startswith]. symmetry.
  apply andb_false_intro1, N.eqb_neq. congruence.
Qed.

(** The bare word [http], with nothing after it in its run, is no match. *)
Lemma m_url_bare post : begins_with isspace post -> m_url (u "http" ++ post) = None.
Proof.
  intros Hpost. unfold m_url.
  change (drop 4 (u "http" ++ post)) with post.
  assert (span re_S post = []) as ->.
  { destruct Hpost as [->|(c & p & -> & Hc)]; [done|]. simpl. unfold re_S. by rewrite Hc. }
  by destruct (startswith _ _).
Qed.

End Runs.

Section UrlsAndNumbers.
Context {UCD : Unicode}.

Lemma remove_urls_app pre s :
  ends_with isspace pre -> remove_urls (pre ++ s) = remove_urls pre ++ remove_urls s.
Proof.
  intros Hpre. apply re_sub_app.
  apply (local_by_span re_S); [apply m_url_span|apply m_url_length|by apply re_S_blank].
Qed.

Lemma remove_urls_run body post :
  body <> [] -> forallb re_S body = true -> begins_with isspace post ->
  remove_urls (u "http" ++ body ++ post) = remove_urls post.
Proof.
  intros Hne Hbody Hpost. unfold remove_urls.
  assert (m_url (u "http" ++ body ++ post) = Some (4 + length body)%nat) as Hm.
  { unfold m_url. change (drop 4 (u "http" ++ body ++ post)) with (body ++ post).
    rewrite (span_run re_S); [|done|by apply re_S_blank_begin].
    destruct body; [done|]. reflexivity. }
  destruct body as [|b body]; [done|].
  rewrite (re_sub_match _ _ _ (3 + length (b :: body))%nat); [|done|exact Hm].
  simpl. by rewrite drop_app_length.
Qed.

Lemma remove_urls_bare post :
  begins_with isspace post ->
  remove_urls (u "http" ++ post) = u "http" ++ remove_urls post.
Proof.
  intros Hpost. unfold remove_urls.
  pose proof (m_url_bare post Hpost) as Hbare.
  rewrite u_http in *. simpl app in *.
  rewrite re_sub_copy by done.
  rewrite !re_sub_copy by (by apply m_url_other). done.
Qed.

(** C2, as it holds: at the stage that removes URLs, a whitespace-delimited
    run that begins with [http] and goes on for at least one more
    character is deleted whole, nothing of it is left and the text around
    it is treated as if the run had not been there; a run that is exactly
    [http] stays. *)
Theorem remove_urls_deletes_whole_run (pre body post : str) :
  ends_with isspace pre -> begins_with isspace post ->
  body <> [] -> forallb re_S body = true ->
  remove_urls (pre ++ u "http" ++ body ++ post) = remove_urls pre ++ remove_urls post /\
  remove_urls (pre ++ u "http" ++ post) = remove_urls pre ++ u "http" ++ remove_urls post.
Proof.
  intros Hpre Hpost Hne Hbody. split.
  - rewrite remove_urls_app by done. f_equal. by apply remove_urls_run.
  - rewrite remove_urls_app by done. f_equal. by apply remove_urls_bare.
Qed.

Lemma remove_numbers_app pre s :
  ends_with re_W pre -> remove_numbers (pre ++ s) = remove_numbers pre ++ remove_numbers s.
Proof.
  intros Hpre. apply re_sub_app.
  by apply (local_by_span re_w); [apply m_number_span|apply m_number_length|].
Qed.

Lemma remove_numbers_run run post :
  forallb re_w run = true -> existsb re_d run = true -> begins_with re_W post ->
  remove_numbers (run ++ post) = remove_numbers post.
Proof.
  intros Hrun Hd Hpost. unfold remove_numbers.
  assert (m_number (run ++ post) = Some (length run)) as Hm.
  { unfold m_number. rewrite (span_run re_w) by done. by rewrite Hd. }
  destruct run as [|c run]; [done|].
  rewrite (re_sub_match _ _ _ (length run)); [|done|exact Hm].
  change (S (length run)) with (length (c :: run)). by rewrite drop_app_length.
Qed.

(** A decimal digit is a word character. *)
Lemma digit_is_word c : re_d c = true -> re_w c = true.
Proof.
  unfold re_d, re_w. destruct (is_ascii c); intros ->; [done|].
  apply orb_true_r.
Qed.

Lemma remove_numbers_no_digit text :
  Forall (fun c => re_d c = false) (remove_numbers text).
Proof.
  apply re_sub_copied. intros c s' Hm.
  destruct (re_d c) eqn:Hd; [exfalso|done].
  unfold m_number in Hm. simpl in Hm. rewrite (digit_is_word _ Hd) in Hm.
  simpl in Hm. rewrite Hd in Hm. simpl in Hm. by destruct Hm.
Qed.

(** ** Tokens and joins *)

Lemma re_split_W_Forall (P : char -> Prop) acc b s :
  Forall P acc -> Forall P s -> Forall (Forall P) (re_split_W acc b s).
Proof.
  revert acc b. induction s as [|c s IH]; intros acc b Hacc Hs; simpl.
  - by repeat constructor.
  - inversion Hs as [|? ? Hc Hs']; subst.
    destruct (re_w c).
    + apply IH; [|done]. apply Forall_app. by repeat constructor.
    + destruct b; [by apply IH|]. constructor; [done|]. by apply IH.
Qed.

(** Every token is made of word characters. *)
Lemma re_split_W_words acc b s :
  Forall (fun c => re_w c = true) acc ->
  Forall (Forall (fun c => re_w c = true)) (re_split_W acc b s).
Proof.
  revert acc b. induction s as [|c s IH]; intros acc b Hacc; simpl.
  - by repeat constructor.
  - destruct (re_w c) eqn:Hc.
    + apply IH. apply Forall_app. by repeat constructor.
    + destruct b; [by apply IH|]. constructor; [done|]. by apply IH.
Qed.

Lemma str_join_Forall (P : char -> Prop) sep parts :
  Forall P sep -> Forall (Forall P) parts -> Forall P (str_join sep parts).
Proof.
  intros Hsep. induction 1 as [|p parts Hp Hparts IH]; simpl; [constructor|].
  destruct parts as [|q parts]; [done|].
  apply Forall_app. split; [done|]. apply Forall_app. by split.
Qed.

Lemma lemmatizer_Forall (P Q : str -> Prop) sw lem tokens :
  (forall w, P w -> Q (lem w)) ->
  Forall P tokens -> Forall Q (lemmatizer sw lem tokens).
Proof.
  intros Hlem Htok. unfold lemmatizer. apply Forall_fmap.
  apply list.Forall_forall. intros w [_ Hw]%list_elem_of_filter.
  apply Hlem. by eapply list.Forall_forall in Htok.
Qed.

(** C5, as it holds: the output of [clean_text] holds no decimal digit
    (of a lemmatizer that puts no digit into a word without one); at the
    stage that removes numbers it is each maximal run of word characters
    with a digit in it that is deleted, whole, and what stands around it,
    in the same whitespace-delimited run or not, is treated as if the run
    had not been there. *)
Theorem clean_text_no_digit (strip_html : str -> str) (stopwords_english : list str)
    (lemmatize : str -> str) :
  (forall w, Forall (fun c => re_d c = false) w ->
             Forall (fun c => re_d c = false) (lemmatize w)) ->
  (forall text,
     Forall (fun c => re_d c = false) (clean_text strip_html stopwords_english lemmatize text)) /\
  (forall pre run post,
     ends_with re_W pre -> begins_with re_W post ->
     forallb re_w run = true -> existsb re_d run = true ->
     remove_numbers (pre ++ run ++ post) = remove_numbers pre ++ remove_numbers post).
Proof.
  intros Hlem. split.
  - intros text. unfold clean_text.
    apply str_join_Forall; [by repeat constructor|].
    apply (lemmatizer_Forall (Forall (fun c => re_d c = false))); [done|].
    apply re_split_W_Forall; [constructor|].
    unfold remove_new_lines, remove_accent_signs.
    do 2 (apply re_sub_Forall; [constructor|]).
    apply remove_numbers_no_digit.
  - intros pre run post Hpre Hpost Hrun Hd.
    rewrite remove_numbers_app by done. f_equal. by apply remove_numbers_run.
Qed.

End UrlsAndNumbers.

Section BracketsAndResources.
Context {UCD : Unicode}.

(** ** Bracketed spans *)


(** After the brackets stage no opening bracket has a closing bracket
    after it. *)
Lemma brackets_unmatched k text a b :
  re_sub m_brackets [] k text = a ++ 91 :: b -> 93 ∉ b.
Proof.
  revert k a b. induction text as [|c s IH]; intros k a b; cbn [re_sub].
  - by destruct a.
  - destruct k as [|k]; [|apply IH].
    destruct (m_brackets (c :: s)) as [[|n]|] eqn:E; cbn [app]; [|apply IH|].
    + unfold m_brackets in E. destruct (c =? 91); [|done].
      destruct (drop _ s); [done|]. simplify_eq. lia.
    + destruct a as [|d a]; simpl; [|intros [= _ H]; by apply IH in H].
      intros [= -> <-]. unfold m_brackets in E. simpl in E.
      destruct (drop _ s) eqn:Hd; [|done].
      pose proof (span_Forall (fun c => negb (c =? 93)) s) as Hall.
      destruct (span_prefix (fun c => negb (c =? 93)) s) as [r Hr].
      rewrite Hr in Hd at 2. rewrite drop_app_length in Hd. subst r.
      rewrite app_nil_r in Hr. rewrite <-Hr in Hall.
      intros Hin. assert (Forall (fun c => negb (c =? 93) = true) (re_sub m_brackets [] 0 s)) as H.
      { apply re_sub_Forall; [constructor|done]. }
      eapply list.Forall_forall in H; [|done]. done.
Qed.



(** ** The resources *)

Lemma lemmatizer_ext sw1 sw2 lem1 lem2 tokens :
  (list_to_set sw1 : listset str) ≡ list_to_set sw2 ->
  (forall w, lem1 w = lem2 w) ->
  lemmatizer sw1 lem1 tokens = lemmatizer sw2 lem2 tokens.
Proof.
  intros Hsw Hlem. unfold lemmatizer.
  rewrite (list_filter_iff _ (fun word => word ∉ (list_to_set sw2 : listset str))).
  - by apply list_fmap_ext.
  - intros w. by rewrite (Hsw w).
Qed.

Lemma remove_stopwords_ext sw1 sw2 text :
  (list_to_set sw1 : listset str) ≡ list_to_set sw2 ->
  remove_stopwords sw1 text = remove_stopwords sw2 text.
Proof.
  intros Hsw. unfold remove_stopwords, get_all_punctuations. do 2 f_equal.
  apply list_filter_iff. intros i. rewrite !elem_of_union. by rewrite (Hsw _).
Qed.

(** C4: [clean_text] is a function of its input, of the stopword set and
    of the lemmatizer: with the same markup stripper, two stopword lists
    that hold the same words, in whatever order and however often, and two
    lemmatizers that answer alike give the same output on the same input. *)
Theorem clean_text_deterministic (strip_html : str -> str)
    (stopwords1 stopwords2 : list str) (lemmatize1 lemmatize2 : str -> str) (text : str) :
  (list_to_set stopwords1 : listset str) ≡ list_to_set stopwords2 ->
  (forall w, lemmatize1 w = lemmatize2 w) ->
  clean_text strip_html stopwords1 lemmatize1 text =
  clean_text strip_html stopwords2 lemmatize2 text.
Proof.
  intros Hsw Hlem. unfold clean_text.
  rewrite (remove_stopwords_ext stopwords1 stopwords2) by done.
  by rewrite (lemmatizer_ext stopwords1 stopwords2 lemmatize1 lemmatize2).
Qed.

(** ** The two texts [x=] and [x ] *)

Lemma not_punctuation (w : str) :
  bool_decide (w ∈ string_punctuation) = false -> w ∉ string_punctuation.
Proof. apply bool_decide_eq_false. Qed.

Lemma not_a_stop sw (w : str) :
  w ∉ sw -> bool_decide (w ∈ string_punctuation) = false ->
  w ∉ get_all_punctuations sw.
Proof.
  intros Hsw Hp%not_punctuation. unfold get_all_punctuations.
  rewrite elem_of_union, !elem_of_list_to_set. tauto.
Qed.

Lemma remove_stopwords_x_eq sw :
  u "x=" ∉ sw -> remove_stopwords sw (u "x=") = u "x=".
Proof.
  intros Hsw. unfold remove_stopwords.
  change (str_split (u "x=")) with [u "x="].
  rewrite filter_cons_True; [reflexivity|].
  change (str_lower (str_strip (u "x="))) with (u "x=").
  by apply not_a_stop.
Qed.

Lemma remove_stopwords_x_blank sw :
  u "x" ∉ sw -> remove_stopwords sw (u "x ") = u "x".
Proof.
  intros Hsw. unfold remove_stopwords.
  change (str_split (u "x ")) with [u "x"].
  rewrite filter_cons_True; [reflexivity|].
  change (str_lower (str_strip (u "x"))) with (u "x").
  by apply not_a_stop.
Qed.

Lemma lemmatizer_keeps sw lem tokens :
  Forall (fun w => w ∉ sw) tokens -> lemmatizer sw lem tokens = lem <$> tokens.
Proof.
  intros H. unfold lemmatizer. f_equal.
  induction H as [|w tokens Hw _ IH]; [done|].
  rewrite filter_cons_True; [by f_equal|]. by rewrite elem_of_list_to_set.
Qed.

Lemma clean_x_eq strip_html sw lem :
  plain_on_x strip_html sw lem -> clean_text strip_html sw lem (u "x=") = u "x ".
Proof.
  intros (H1 & _ & Hx & Hxe & He & Hlx & Hle). unfold clean_text. rewrite H1.
  change (remove_urls (remove_between_square_brackets (str_lower (u "x=")))) with (u "x=").
  rewrite remove_stopwords_x_eq by done.
  change (tokenize _) with [u "x"; []].
  rewrite lemmatizer_keeps by (by repeat constructor).
  simpl. by rewrite Hlx, Hle.
Qed.

Lemma clean_x_blank strip_html sw lem :
  plain_on_x strip_html sw lem -> clean_text strip_html sw lem (u "x ") = u "x".
Proof.
  intros (_ & H2 & Hx & Hxe & He & Hlx & Hle). unfold clean_text. rewrite H2.
  change (remove_urls (remove_between_square_brackets (str_lower (u "x ")))) with (u "x ").
  rewrite remove_stopwords_x_blank by done.
  change (tokenize _) with [u "x"].
  rewrite lemmatizer_keeps by (by repeat constructor).
  simpl. by rewrite Hlx.
Qed.

(** C8: [clean_text] is not idempotent. On resources that leave [x=] and
    [x ] alone, the text [x=] is cleaned to [x ] and that, cleaned again,
    to [x]. *)
Theorem clean_text_not_idempotent (strip_html : str -> str)
    (stopwords_english : list str) (lemmatize : str -> str) :
  plain_on_x strip_html stopwords_english lemmatize ->
  exists s,
    clean_text strip_html stopwords_english lemmatize
      (clean_text strip_html stopwords_english lemmatize s)
    <> clean_text strip_html stopwords_english lemmatize s.
Proof.
  intros H. exists (u "x="). rewrite (clean_x_eq _ _ _ H), (clean_x_blank _ _ _ H). done.
Qed.

Lemma join_x_blank (parts : list str) :
  Forall (fun p => p <> [] /\ 32 ∉ p) parts -> str_join (u " ") parts <> u "x ".
Proof.
  intros Hparts Heq. destruct parts as [|p parts]; [done|].
  inversion Hparts as [|? ? [Hp Hsp] Hrest]; subst.
  destruct parts as [|q parts].
  - simpl in Heq. subst p. apply Hsp. by apply list_elem_of_In; right; left.
  - inversion Hrest as [|? ? [Hq _] _]; subst.
    change (str_join (u " ") (p :: q :: parts))
      with (p ++ 32 :: str_join (u " ") (q :: parts)) in Heq.
    destruct p as [|c p]; [done|]. injection Heq as -> Heq.
    destruct p as [|d p].
    + injection Heq as Heq. destruct q as [|e q]; [done|].
      simpl in Heq. by destruct parts.
    + injection Heq as -> Heq. apply Hsp. by apply list_elem_of_In; right; left.
Qed.

(** C9: the output of [clean_text] can end with a space. On resources
    that leave [x=] alone, [x=] is split at [\W+] into [x] and an empty
    token at the end, the empty token is no stopword and is lemmatized to
    itself, and the join of the two is [x ], which no join by single
    spaces of tokens that are not empty and hold no space equals. *)
Theorem clean_text_boundary_space (strip_html : str -> str)
    (stopwords_english : list str) (lemmatize : str -> str) :
  plain_on_x strip_html stopwords_english lemmatize ->
  exists s,
    tokenize s = [u "x"; []] /\
    lemmatizer stopwords_english lemmatize (tokenize s) = [u "x"; []] /\
    last (clean_text strip_html stopwords_english lemmatize s) = Some 32 /\
    forall parts, Forall (fun p => p <> [] /\ 32 ∉ p) parts ->
      str_join (u " ") parts <> clean_text strip_html stopwords_english lemmatize s.
Proof.
  intros H. exists (u "x="). rewrite (clean_x_eq _ _ _ H).
  destruct H as (_ & _ & Hx & _ & He & Hlx & Hle).
  split; [reflexivity|]. split; [|split; [reflexivity|apply join_x_blank]].
  change (tokenize (u "x=")) with [u "x"; []].
  rewrite lemmatizer_keeps by (by repeat constructor).
  simpl. by rewrite Hlx, Hle.
Qed.

End BracketsAndResources.

(** ** The cleaner on the reference resources *)
Module CleanerOnReference.
Import Reference.

Lemma table_lemmatize_cases (w : str) :
  table_lemmatize w = w \/ table_lemmatize w ∈ (snd <$> lemma_table).
Proof.
  unfold table_lemmatize.
  destruct (list_find _ lemma_table) as [[i [k v]]|] eqn:E; [right|by left].
  apply list_find_Some in E as (Hi & _ & _).
  apply list_elem_of_fmap. exists (k, v). split; [done|].
  by apply list_elem_of_lookup_2 with i.
Qed.

Lemma table_lemmatize_Forall (P : char -> Prop) (w : str) :
  Forall (Forall P) (snd <$> lemma_table) -> Forall P w -> Forall P (table_lemmatize w).
Proof.
  intros Ht Hw. destruct (table_lemmatize_cases w) as [->|Hin]; [done|].
  by eapply list.Forall_forall in Ht.
Qed.

Lemma table_no_digit (w : str) :
  Forall (fun c => re_d c = false) w -> Forall (fun c => re_d c = false) (table_lemmatize w).
Proof. apply table_lemmatize_Forall. vm_compute. by repeat constructor. Qed.


Lemma reference_plain_on_x : plain_on_x strip_tags nltk_stopwords table_lemmatize.
Proof.
  repeat split; try reflexivity;
    apply (bool_decide_eq_false_1 (_ ∈ _)); vm_compute; reflexivity.
Qed.

(** The end-to-end scenario of the specification: the markup, the address,
    the bracketed span, the number, the punctuation and the stopword [now]
    go, and the token that the number left behind puts one blank at the end. *)
Example clean_breaking :
  clean (u "<p>BREAKING: Visit http://x.com NOW!! [ad] 2024</p>") = u "breaking visit ".
Proof. reflexivity. Qed.

Lemma see_ends_blank : ends_with isspace (u "see ").
Proof. right. exists (u "see"), 32. split; reflexivity. Qed.

Lemma now_begins_blank : begins_with isspace (u " now").
Proof. right. exists 32, (u "now"). split; reflexivity. Qed.

(** In [see http://x.com now] the run after [see ] goes whole, and in
    [see http now] the run [http] stays. *)
Lemma remove_urls_deletes_whole_run_witness :
  (ends_with isspace (u "see ") /\ begins_with isspace (u " now") /\
   u "://x.com" <> [] /\ forallb re_S (u "://x.com") = true) /\
  remove_urls (u "see " ++ u "http" ++ u "://x.com" ++ u " now")
    = remove_urls (u "see ") ++ remove_urls (u " now") /\
  remove_urls (u "see " ++ u "http" ++ u " now")
    = remove_urls (u "see ") ++ u "http" ++ remove_urls (u " now").
Proof.
  assert (u "://x.com" <> []) as H3 by (vm_compute; discriminate).
  assert (forallb re_S (u "://x.com") = true) as H4 by reflexivity.
  split; [exact (conj see_ends_blank (conj now_begins_blank (conj H3 H4)))|].
  exact (remove_urls_deletes_whole_run (u "see ") (u "://x.com") (u " now")
           see_ends_blank now_begins_blank H3 H4).
Defined.

(** C2 as stated fails: the text [http] is one whitespace-delimited run
    that begins with [http], and the output of the cleaner is [http]. *)
Lemma bare_http_survives :
  u "http" ∈ str_split (u "http") /\
  startswith (u "http") (u "http") = true /\
  clean (u "http") = u "http" /\
  occurs_in (u "http") (clean (u "http")).
Proof.
  split; [|split; [reflexivity|split; [reflexivity|]]].
  - vm_compute. by left.
  - exists [], []. reflexivity.
Qed.

(** C5 as stated fails: [x=1] is one whitespace-delimited run with a
    numeral in it; deleting the run would leave nothing, the stage that
    removes numbers leaves [x=] and the cleaner answers [x ]. *)
Lemma digit_run_partly_kept :
  u "x=1" ∈ str_split (u "x=1") /\
  existsb re_d (u "x=1") = true /\
  delete_digit_runs (u "x=1") = [] /\
  remove_numbers (u "x=1") = u "x=" /\
  clean (u "x=1") = u "x ".
Proof.
  split; [vm_compute; by left|]. repeat split; reflexivity.
Qed.

Lemma covid_ends_blank : ends_with re_W (u "covid ").
Proof. right. exists (u "covid"), 32. split; reflexivity. Qed.

Lemma now_begins_nonword : begins_with re_W (u " now").
Proof. right. exists 32, (u "now"). split; reflexivity. Qed.

Lemma clean_text_no_digit_witness :
  (forall w, Forall (fun c => re_d c = false) w ->
             Forall (fun c => re_d c = false) (table_lemmatize w)) /\
  Forall (fun c => re_d c = false) (clean (u "route 66 and covid-19")) /\
  (ends_with re_W (u "covid ") /\ begins_with re_W (u " now") /\
   forallb re_w (u "19") = true /\ existsb re_d (u "19") = true) /\
  remove_numbers (u "covid " ++ u "19" ++ u " now")
    = remove_numbers (u "covid ") ++ remove_numbers (u " now").
Proof.
  split; [exact table_no_digit|].
  destruct (clean_text_no_digit strip_tags nltk_stopwords table_lemmatize table_no_digit)
    as [Ha Hb].
  split; [apply Ha|].
  split; [exact (conj covid_ends_blank (conj now_begins_nonword (conj eq_refl eq_refl)))|].
  apply Hb; [apply covid_ends_blank|apply now_begins_nonword|reflexivity|reflexivity].
Defined.


Lemma clean_text_deterministic_witness :
  ((list_to_set nltk_stopwords : listset str) ≡ list_to_set (reverse nltk_stopwords) /\
   (forall w, table_lemmatize w = table_lemmatize (w ++ []))) /\
  clean_text strip_tags nltk_stopwords table_lemmatize (u "the visits")
  = clean_text strip_tags (reverse nltk_stopwords) (fun w => table_lemmatize (w ++ [])) (u "the visits").
Proof.
  assert ((list_to_set nltk_stopwords : listset str) ≡ list_to_set (reverse nltk_stopwords)) as H1.
  { intros w. rewrite !elem_of_list_to_set. by rewrite elem_of_reverse. }
  assert (forall w, table_lemmatize w = table_lemmatize (w ++ [])) as H2.
  { intros w. by rewrite app_nil_r. }
  split; [by split|].
  exact (clean_text_deterministic strip_tags nltk_stopwords (reverse nltk_stopwords)
           table_lemmatize (fun w => table_lemmatize (w ++ [])) (u "the visits") H1 H2).
Defined.

Lemma clean_text_not_idempotent_witness :
  plain_on_x strip_tags nltk_stopwords table_lemmatize /\
  exists s, clean (clean s) <> clean s.
Proof.
  split; [exact reference_plain_on_x|].
  exact (clean_text_not_idempotent strip_tags nltk_stopwords table_lemmatize
           reference_plain_on_x).
Defined.

Lemma clean_text_boundary_space_witness :
  plain_on_x strip_tags nltk_stopwords table_lemmatize /\
  exists s,
    tokenize s = [u "x"; []] /\
    lemmatizer nltk_stopwords table_lemmatize (tokenize s) = [u "x"; []] /\
    last (clean s) = Some 32 /\
    forall parts, Forall (fun p => p <> [] /\ 32 ∉ p) parts ->
      str_join (u " ") parts <> clean s.
Proof.
  split; [exact reference_plain_on_x|].
  exact (clean_text_boundary_space strip_tags nltk_stopwords table_lemmatize
           reference_plain_on_x).
Defined.

End CleanerOnReference.

(** * The stages of the cleaner, one by one *)

Section StagesOfTheCleaner.
Context {UCD : Unicode}.

(** ** Texts that a pattern does not match *)

(** A text in which the pattern matches at no position is left as it is. *)
Lemma re_sub_quiet m repl s :
  (forall p a, s = p ++ a -> m a = None) -> re_sub m repl 0 s = s.
Proof.
  induction s as [|c s IH]; intros H; [done|].
  rewrite re_sub_copy by (by apply (H [])). f_equal.
  apply IH. intros p a ->. by apply (H (c :: p)).
Qed.

Lemma filter_all {A} (P : A -> Prop) `{!forall x, Decision (P x)} (l : list A) :
  Forall P l -> filter P l = l.
Proof.
  induction 1 as [|x l Hx _ IH]; [done|]. rewrite filter_cons_True by done. by f_equal.
Qed.

Lemma filter_agree {A} (P Q : A -> Prop) `{!forall x, Decision (P x)}
    `{!forall x, Decision (Q x)} (l : list A) :
  Forall (fun x => P x <-> Q x) l -> filter P l = filter Q l.
Proof.
  induction 1 as [|x l Hx _ IH]; [done|].
  destruct (decide (P x)) as [HP|HP].
  - rewrite !filter_cons_True by tauto. by f_equal.
  - rewrite !filter_cons_False by tauto. done.
Qed.

(** The substitution of nothing for a class of characters keeps the
    characters outside the class, in their order. *)
Lemma existsb_eqb (c : char) cls : existsb (N.eqb c) cls = true <-> c ∈ cls.
Proof.
  induction cls as [|d cls IH]; simpl.
  - split; [done|]. by intros ?%elem_of_nil.
  - rewrite orb_true_iff, IH, N.eqb_eq, elem_of_cons. done.
Qed.

Lemma re_sub_class cls (s : list char) :
  re_sub (m_class cls) [] 0 s = filter (fun c => c ∉ cls) s.
Proof.
  induction s as [|c s IH]; [done|]. cbn [re_sub]. unfold m_class at 1.
  destruct (existsb (N.eqb c) cls) eqn:E.
  - apply existsb_eqb in E. rewrite filter_cons_False by tauto. exact IH.
  - rewrite filter_cons_True; [by rewrite <-IH|].
    intros Hin%existsb_eqb. congruence.
Qed.

(** ** Whitespace tokens *)

Lemma split_go_Forall (P : char -> Prop) acc s :
  Forall P acc -> Forall P s -> Forall (Forall P) (split_go acc s).
Proof.
  revert acc. induction s as [|c s IH]; intros acc Hacc Hs; simpl.
  - destruct acc; [constructor|by constructor].
  - inversion Hs as [|? ? Hc Hs']; subst. destruct (isspace c).
    + destruct acc; [by apply IH|]. constructor; [done|]. by apply IH.
    + apply IH; [|done]. apply Forall_app. by repeat constructor.
Qed.

Lemma split_go_no_blank acc s :
  Forall (fun c => isspace c = false) acc ->
  Forall (Forall (fun c => isspace c = false)) (split_go acc s).
Proof.
  revert acc. induction s as [|c s IH]; intros acc Hacc; simpl.
  - destruct acc; [constructor|by constructor].
  - destruct (isspace c) eqn:E.
    + destruct acc; [by apply IH|]. constructor; [done|]. by apply IH.
    + apply IH. apply Forall_app. by repeat constructor.
Qed.

Lemma split_go_blank s :
  Forall (fun c => isspace c = true) s ->
  forall acc, split_go acc s = match acc with [] => [] | _ => [acc] end.
Proof.
  induction 1 as [|c s Hc _ IH]; intros acc; simpl; [done|].
  rewrite Hc. destruct acc; by rewrite IH.
Qed.

Lemma lstrip_Forall (P : char -> Prop) s : Forall P s -> Forall P (lstrip s).
Proof.
  induction 1 as [|c s Hc Hs IH]; simpl; [constructor|].
  destruct (isspace c); [done|by constructor].
Qed.

Lemma str_strip_Forall (P : char -> Prop) s : Forall P s -> Forall P (str_strip s).
Proof.
  intros H. unfold str_strip.
  apply Forall_rev, lstrip_Forall, Forall_rev, lstrip_Forall, H.
Qed.

(** ** [str.replace] of one character *)

Lemma str_replace_char c (s : list char) : str_replace [c] [32] s = blank_out c <$> s.
Proof.
  unfold str_replace. induction s as [|x s IH]; [done|].
  cbn [re_sub]. unfold m_literal at 1. cbn [startswith length]. csimpl.
  rewrite andb_true_r, (N.eqb_sym c x). unfold blank_out at 1.
  destruct (x =? c); csimpl; by rewrite IH.
Qed.

Lemma str_contains_char c (s : list char) : str_contains [c] s = false -> blank_out c <$> s = s.
Proof.
  induction s as [|x s IH]; [done|]. cbn [str_contains startswith].
  rewrite andb_true_r. intros [H1 H2]%orb_false_elim. csimpl.
  unfold blank_out at 1. rewrite N.eqb_sym, H1. f_equal. by apply IH.
Qed.

Lemma replace_char c (i : list char) :
  (if str_contains [c] i then str_replace [c] [32] i else i) = blank_out c <$> i.
Proof.
  destruct (str_contains [c] i) eqn:E; [apply str_replace_char|].
  by rewrite str_contains_char.
Qed.

Lemma str_contains_two c (s : list char) : c ∉ s -> str_contains [c; c] s = false.
Proof.
  induction s as [|x s IH]; [done|]. intros [Hx Hs]%not_elem_of_cons.
  cbn [str_contains startswith]. rewrite (IH Hs), orb_false_r.
  apply andb_false_intro1. by apply N.eqb_neq.
Qed.

Lemma blanked_out_away c (s : list char) : c <> 32 -> c ∉ blank_out c <$> s.
Proof.
  intros Hc (x & Hx & _)%list_elem_of_fmap. unfold blank_out in Hx.
  destruct (N.eqb_spec x c); congruence.
Qed.

End StagesOfTheCleaner.

Section StopwordsStage.
Context {UCD : Unicode}.

(** ** The punctuation loop of [remove_stopwords] *)

Lemma turns_singles (l : list str) (i : list char) :
  Forall (fun ch => exists d, ch = [d]) l -> foldl turn i l = turns l <$> i.
Proof.
  intros Hl. revert i. induction Hl as [|ch l [d ->] _ IH]; intros i.
  - simpl. by rewrite list_fmap_id.
  - cbn [foldl]. rewrite IH. unfold turn. change (u " ") with [32].
    rewrite replace_char, <-list_fmap_compose. done.
Qed.

Lemma turns_unlisted (c : char) : listed c = false -> turns _punctuations c = c.
Proof.
  unfold listed. intros H%bool_decide_eq_false.
  assert (forall l : list str, (forall d, [d] ∈ l -> d <> c) -> turns l c = c) as Hl.
  { induction l as [|ch l IH]; intros Hd; [done|]. unfold turns. cbn [foldl].
    assert (match ch with [d] => blank_out d c | _ => c end = c) as ->.
    { destruct ch as [|d [|]]; try done. unfold blank_out.
      destruct (N.eqb_spec c d) as [->|]; [|done]. exfalso. apply (Hd d); [by left|done]. }
    apply IH. intros d Hin. apply Hd. by right. }
  apply Hl. intros d Hin ->. done.
Qed.

Lemma turns_listed (c : char) : listed c = true -> turns _punctuations c = 32.
Proof.
  unfold listed. intros H%bool_decide_eq_true. vm_compute in H.
  repeat (apply elem_of_cons in H as [H|H]; [simplify_eq; vm_compute; reflexivity|]).
  by apply elem_of_nil in H.
Qed.

Lemma turns_all (c : char) : turns _punctuations c = if listed c then 32 else c.
Proof.
  destruct (listed c) eqn:E; [by apply turns_listed|by apply turns_unlisted].
Qed.

Lemma before_singles : Forall (fun ch => exists d, ch = [d]) (take 20 _punctuations).
Proof. vm_compute. repeat constructor; by eexists. Qed.

Lemma after_singles : Forall (fun ch => exists d, ch = [d]) (drop 21 _punctuations).
Proof. vm_compute. repeat constructor; by eexists. Qed.

Lemma turns_before_hyphen (x : char) : turns (take 20 _punctuations) x <> 45.
Proof.
  change (take 20 _punctuations) with (take 19 _punctuations ++ [[45]]).
  unfold turns. rewrite foldl_app. cbn [foldl].
  generalize (foldl (fun x ch => match ch with [d] => blank_out d x | _ => x end) x
                    (take 19 _punctuations)).
  intros y. unfold blank_out. destruct (N.eqb_spec y 45); [done|done].
Qed.

Lemma turns_parts (x : char) :
  turns _punctuations x = turns (drop 21 _punctuations) (turns (take 20 _punctuations) x).
Proof.
  unfold turns.
  transitivity (foldl (fun x ch => match ch with [d] => blank_out d x | _ => x end) x
                  (take 20 _punctuations ++ [u "--"] ++ drop 21 _punctuations)); [reflexivity|].
  by rewrite !foldl_app.
Qed.

Lemma replace_punctuations_turns (i : list char) :
  replace_punctuations i = turns _punctuations <$> i.
Proof.
  unfold replace_punctuations. fold turn.
  rewrite <-(take_drop 20 _punctuations) at 1.
  change (drop 20 _punctuations) with ([u "--"] ++ drop 21 _punctuations).
  rewrite !foldl_app. cbn [foldl]. rewrite (turns_singles (take 20 _punctuations)) by apply before_singles.
  assert (turn (turns (take 20 _punctuations) <$> i) (u "--") = turns (take 20 _punctuations) <$> i) as ->.
  { unfold turn. change (u "--") with [45; 45]. rewrite str_contains_two; [done|].
    intros (x & Hx & _)%list_elem_of_fmap. symmetry in Hx. by apply turns_before_hyphen in Hx. }
  rewrite (turns_singles (drop 21 _punctuations)) by apply after_singles.
  rewrite <-list_fmap_compose. apply list_fmap_ext. intros _ x _.
  symmetry. apply turns_parts.
Qed.

Lemma replace_punctuations_listed (i : list char) :
  replace_punctuations i = (fun c => if listed c then 32 else c) <$> i.
Proof. rewrite replace_punctuations_turns. apply list_fmap_ext. intros _ x _. apply turns_all. Qed.

(** X1: Each character that is an entry of [_punctuations] becomes one space
    and every other character stays: the loop works character by
    character. The entry of two hyphens never applies, since both hyphens
    are spaces by the time its turn comes, and the token keeps its
    length. *)
Theorem replace_punctuations_by_character (i : str) :
  replace_punctuations i = (fun c => if listed c then 32 else c) <$> i /\
  length (replace_punctuations i) = length i /\
  str_contains (u "--") (foldl turn i (take 20 _punctuations)) = false.
Proof.
  pose proof (replace_punctuations_listed i) as Heq.
  split; [done|]. split; [by rewrite Heq, length_fmap|].
  rewrite (turns_singles (take 20 _punctuations)) by apply before_singles.
  change (u "--") with [45; 45]. apply str_contains_two.
  intros (x & Hx & _)%list_elem_of_fmap. symmetry in Hx. by apply turns_before_hyphen in Hx.
Qed.

End StopwordsStage.

Section StagesTogether.
Context {UCD : Unicode}.

Lemma listed_blank : listed 32 = false.
Proof. reflexivity. Qed.

Lemma replace_punctuations_Forall (P : char -> Prop) (i : str) :
  P 32 -> Forall P i -> Forall P (replace_punctuations i).
Proof.
  intros Hb Hi. rewrite (replace_punctuations_listed i).
  apply Forall_fmap. eapply Forall_impl; [exact Hi|].
  intros c Hc. simpl. by destruct (listed c).
Qed.

Lemma replace_punctuations_unlisted (i : str) :
  Forall (fun c => isspace c = false) i ->
  Forall (fun c => ([c] ∉ _punctuations) /\ (isspace c = true -> c = 32))
         (replace_punctuations i).
Proof.
  intros Hi. rewrite (replace_punctuations_listed i).
  apply Forall_fmap. eapply Forall_impl; [exact Hi|].
  intros c Hc. simpl. destruct (listed c) eqn:E.
  - split; [|done]. by apply (bool_decide_eq_false_1 (_ ∈ _)).
  - split; [by apply (bool_decide_eq_false_1 (_ ∈ _))|]. congruence.
Qed.

Lemma str_split_Forall (P : char -> Prop) (s : str) :
  Forall P s -> Forall (Forall P) (str_split s).
Proof. intros H. by apply split_go_Forall. Qed.

Lemma remove_stopwords_Forall (P : char -> Prop) sw (text : str) :
  P 32 -> Forall P text -> Forall P (remove_stopwords sw text).
Proof.
  intros Hb Ht. unfold remove_stopwords.
  apply str_join_Forall; [by repeat constructor|].
  apply Forall_fmap. apply list.Forall_forall. intros i [_ Hi]%list_elem_of_filter.
  simpl. apply str_strip_Forall, replace_punctuations_Forall; [done|].
  pose proof (str_split_Forall P text Ht) as Hall.
  by eapply list.Forall_forall in Hall.
Qed.

Lemma remove_stopwords_unlisted (stopwords_english : list str) (text : str) :
  Forall (fun c => ([c] ∉ _punctuations) /\ (isspace c = true -> c = 32))
         (remove_stopwords stopwords_english text).
Proof.
  unfold remove_stopwords.
  apply str_join_Forall.
  { constructor; [|constructor]. split; [|done]. by apply (bool_decide_eq_false_1 (_ ∈ _)). }
  apply Forall_fmap. apply list.Forall_forall. intros i [_ Hi]%list_elem_of_filter.
  simpl. apply str_strip_Forall, replace_punctuations_unlisted.
  pose proof (split_go_no_blank [] text ltac:(constructor)) as Hall.
  by eapply list.Forall_forall in Hall.
Qed.

(** X2: What [remove_stopwords] hands on holds none of the characters that
    are entries of [_punctuations], and no whitespace but the space. *)
Theorem remove_stopwords_alphabet (stopwords_english : list str) (text : str) :
  Forall (fun c => ([c] ∉ _punctuations) /\ (isspace c = true -> c = 32))
         (remove_stopwords stopwords_english text).
Proof. apply remove_stopwords_unlisted. Qed.

(** X3: [remove_new_lines] deletes the line feeds and nothing else; at its
    place in [clean_text] it finds none, the text having been split at
    whitespace and joined with spaces two stages before. *)
Theorem remove_new_lines_finds_none :
  (forall text : list char, remove_new_lines text = filter (fun c => c <> 10) text) /\
  (forall stopwords_english text,
     let t := remove_accent_signs (remove_numbers (remove_stopwords stopwords_english text)) in
     remove_new_lines t = t).
Proof.
  assert (forall text : list char, remove_new_lines text = filter (fun c => c <> 10) text) as H.
  { intros text. unfold remove_new_lines. rewrite re_sub_class.
    apply list_filter_iff. intros c. rewrite not_elem_of_cons. split; [tauto|].
    intros ?. split; [done|]. apply not_elem_of_nil. }
  split; [exact H|]. intros sw text t. rewrite H. apply filter_all.
  unfold t, remove_accent_signs, remove_numbers.
  do 2 (apply re_sub_Forall; [constructor|]).
  eapply Forall_impl; [apply remove_stopwords_unlisted|].
  intros c [_ Hc] ->. by specialize (Hc eq_refl).
Qed.

(** X4: [remove_accent_signs] deletes the four curly quotes and the ellipsis
    and nothing else; at its place in [clean_text] the curly quotes are
    gone, being entries of [_punctuations], and only the ellipsis is left
    for it to delete. *)
Theorem remove_accent_signs_finds_ellipsis :
  (forall text : list char,
     remove_accent_signs text = filter (fun c => c ∉ [8216; 8217; 8220; 8221; 8230]) text) /\
  (forall stopwords_english text,
     let t : list char := remove_numbers (remove_stopwords stopwords_english text) in
     remove_accent_signs t = filter (fun c => c <> 8230) t).
Proof.
  assert (forall text : list char,
            remove_accent_signs text
            = filter (fun c => c ∉ [8216; 8217; 8220; 8221; 8230]) text) as H.
  { intros text. apply re_sub_class. }
  split; [exact H|]. intros sw text t. rewrite H. apply filter_agree.
  unfold t, remove_numbers. apply re_sub_Forall; [constructor|].
  eapply Forall_impl; [apply remove_stopwords_unlisted|].
  intros c [Hc _]. cbn beta.
  assert (c <> 8216 /\ c <> 8217 /\ c <> 8220 /\ c <> 8221) as (H1 & H2 & H3 & H4).
  { repeat split; intros ->; apply Hc; vm_compute; set_solver. }
  rewrite !not_elem_of_cons. split; [tauto|]. intros ?. repeat split; try done.
  apply not_elem_of_nil.
Qed.

(** ** Tokens *)

Lemma re_split_W_concat acc b (s : list char) :
  concat (re_split_W acc b s) = acc ++ filter (fun c => re_w c = true) s.
Proof.
  revert acc b. induction s as [|c s IH]; intros acc b; simpl.
  - by rewrite filter_nil.
  - destruct (re_w c) eqn:E.
    + rewrite filter_cons_True by done. rewrite IH. by rewrite <-app_assoc.
    + rewrite filter_cons_False by congruence.
      destruct b; [apply IH|]. simpl. by rewrite IH.
Qed.

Lemma re_split_W_inner acc b s i t :
  acc <> [] \/ b = true ->
  re_split_W acc b s !! i = Some t -> (S i < length (re_split_W acc b s))%nat -> t <> [].
Proof.
  revert acc b i. induction s as [|c s IH]; intros acc b i Hab; simpl.
  - intros _ Hi. simpl in Hi. lia.
  - destruct (re_w c).
    + apply IH. left. by destruct acc.
    + destruct b; [apply IH; by right|].
      destruct Hab as [Hacc|?]; [|done].
      destruct i as [|i]; simpl; [by intros [= <-]|].
      intros Ht Hi. apply (IH [] true i); [by right|done|lia].
Qed.

Lemma tokenize_inner (text : list char) i t :
  tokenize text !! i = Some t ->
  (0 < i)%nat -> (S i < length (tokenize text))%nat -> t <> [].
Proof.
  revert i t. unfold tokenize. destruct text as [|c s]; simpl.
  { intros i t _ _ Hi. simpl in Hi. lia. }
  destruct (re_w c).
  + intros i t Ht _ Hi. eapply re_split_W_inner; [|exact Ht|exact Hi]. by left.
  + intros [|i] t; [lia|]. simpl. intros Ht _ Hi.
    apply (re_split_W_inner [] true s i); [by right|done|lia].
Qed.

(** X5: [tokenize] answers at least one token; the tokens hold the word
    characters of the text, all of them and in their order, and nothing
    else; a token between two others is not empty, so an empty token is
    the first one (the text begins with a separator) or the last one (it
    ends with one). *)
Theorem tokenize_tokens (text : list char) :
  (exists t ts, tokenize text = t :: ts) /\
  concat (tokenize text) = filter (fun c => re_w c = true) text /\
  Forall (Forall (fun c => re_w c = true)) (tokenize text) /\
  (forall i t, tokenize text !! i = Some t ->
     (0 < i)%nat -> (S i < length (tokenize text))%nat -> t <> []).
Proof.
  split; [|split; [|split]].
  - unfold tokenize. generalize (@nil char) false.
    induction text as [|c s IH]; intros acc b; simpl; [by eauto|].
    destruct (re_w c); [apply IH|]. destruct b; [apply IH|by eauto].
  - apply (re_split_W_concat [] false).
  - apply re_split_W_words. constructor.
  - apply tokenize_inner.
Qed.

(** X6: Of a lemmatizer that makes words of words, the output of
    [clean_text] is made of word characters and spaces. *)
Theorem clean_text_words_and_spaces (strip_html : str -> str)
    (stopwords_english : list str) (lemmatize : str -> str) :
  (forall w, Forall (fun c => re_w c = true) w -> Forall (fun c => re_w c = true) (lemmatize w)) ->
  forall text,
    Forall (fun c => re_w c = true \/ c = 32)
           (clean_text strip_html stopwords_english lemmatize text).
Proof.
  intros Hlem text. unfold clean_text.
  apply str_join_Forall; [repeat constructor; by right|].
  apply (lemmatizer_Forall (Forall (fun c => re_w c = true))).
  - intros w Hw. eapply Forall_impl; [by apply Hlem|]. intros c Hc. by left.
  - apply re_split_W_words. constructor.
Qed.

(** X8: Apart from the markup stripper, the lower-casing and the lemmatizer,
    the stages delete characters and put in spaces, and do nothing else
    to the characters. *)
Theorem clean_text_only_deletes (strip_html : str -> str)
    (stopwords_english : list str) (lemmatize : str -> str)
    (P : char -> Prop) (text : str) :
  P 32 ->
  (forall w, Forall P w -> Forall P (lemmatize w)) ->
  Forall P (str_lower (strip_html text)) ->
  Forall P (clean_text strip_html stopwords_english lemmatize text).
Proof.
  intros Hb Hlem Ht. unfold clean_text.
  apply str_join_Forall; [by repeat constructor|].
  apply (lemmatizer_Forall (Forall P)); [done|].
  apply re_split_W_Forall; [constructor|].
  unfold remove_new_lines, remove_accent_signs, remove_numbers.
  do 3 (apply re_sub_Forall; [constructor|]).
  apply remove_stopwords_Forall; [done|].
  unfold remove_urls, remove_between_square_brackets.
  do 2 (apply re_sub_Forall; [constructor|]). done.
Qed.

End StagesTogether.

Section FixedPoints.
Context {UCD : Unicode}.

(** ** Texts that a stage leaves as they are *)

Lemma existsb_none {A} (p : A -> bool) l :
  Forall (fun c => p c = false) l -> existsb p l = false.
Proof. induction 1 as [|c l Hc _ IH]; simpl; [done|]. by rewrite Hc, IH. Qed.

Lemma m_number_none (a : str) :
  Forall (fun c => re_d c = false) a -> m_number a = None.
Proof.
  intros Ha. unfold m_number. rewrite existsb_none; [done|].
  destruct (span_prefix re_w a) as [r Hr]. rewrite Hr in Ha.
  by apply Forall_app in Ha as [Ha _].
Qed.

(** X10: [remove_numbers] leaves a text without a digit as it is; so a second
    pass changes nothing. *)
Theorem remove_numbers_idempotent :
  (forall text, Forall (fun c => re_d c = false) text -> remove_numbers text = text) /\
  (forall text, remove_numbers (remove_numbers text) = remove_numbers text).
Proof.
  assert (forall text, Forall (fun c => re_d c = false) text -> remove_numbers text = text) as H.
  { intros text Ht. apply re_sub_quiet. intros p a ->.
    apply m_number_none. by apply Forall_app in Ht as [_ Ht]. }
  split; [exact H|]. intros text. apply H, remove_numbers_no_digit.
Qed.

Lemma m_brackets_none (a : str) :
  (forall b, a = 91 :: b -> 93 ∉ b) -> m_brackets a = None.
Proof.
  intros Ha. destruct a as [|c rest]; [done|]. unfold m_brackets.
  destruct (N.eqb_spec c 91) as [->|]; [|done].
  specialize (Ha rest eq_refl).
  rewrite span_all; [by rewrite drop_all|].
  apply forallb_forall. intros x Hx%list_elem_of_In.
  apply negb_true_iff, N.eqb_neq. by intros ->.
Qed.

(** X11: [remove_between_square_brackets] leaves a text as it is in which no
    opening bracket has a closing bracket after it; a text without an
    opening or without a closing bracket is one, and so is what the
    function answers: a second pass changes nothing. *)
Theorem remove_between_square_brackets_idempotent :
  (forall text, (forall a b, text = a ++ 91 :: b -> 93 ∉ b) ->
     remove_between_square_brackets text = text) /\
  (forall text, 91 ∉ text \/ 93 ∉ text -> remove_between_square_brackets text = text) /\
  (forall text, remove_between_square_brackets (remove_between_square_brackets text)
                = remove_between_square_brackets text).
Proof.
  assert (forall text, (forall a b, text = a ++ 91 :: b -> 93 ∉ b) ->
            remove_between_square_brackets text = text) as H.
  { intros text Ht. apply re_sub_quiet. intros p a ->.
    apply m_brackets_none. intros b ->. by apply (Ht p). }
  split; [exact H|]. split.
  - intros text [Ho|Hc]; apply H; intros a b ->.
    + exfalso. apply Ho. apply elem_of_app. right. by left.
    + intros Hin. apply Hc. apply elem_of_app. right. by right.
  - intros text. apply H. intros a b Heq. by apply brackets_unmatched in Heq.
Qed.

(** ** The stage of the addresses *)

Lemma span_drop p (s : str) :
  drop (length (span p s)) s = [] \/
  exists c r, drop (length (span p s)) s = c :: r /\ p c = false.
Proof.
  induction s as [|c s IH]; simpl; [by left|].
  destruct (p c) eqn:E; simpl; [exact IH|]. right. by exists c, s.
Qed.

Lemma m_url_rest (s : str) k :
  m_url s = Some k ->
  drop k s = [] \/ exists w r, drop k s = w :: r /\ isspace w = true.
Proof.
  unfold m_url. destruct (startswith (u "http") s) eqn:E; [|done].
  destruct (length (span re_S (drop 4 s))) as [|n] eqn:El; [done|]. intros Hk.
  assert (drop k s = drop (S n) (drop 4 s)) as ->.
  { injection Hk as <-. by rewrite drop_drop. }
  rewrite <-El.
  destruct (span_drop re_S (drop 4 s)) as [->|(w & r & -> & Hw)]; [by left|].
  right. exists w, r. split; [done|]. unfold re_S in Hw. by apply negb_false_iff in Hw.
Qed.

Lemma m_url_positive (s : str) : m_url s <> Some 0%nat.
Proof.
  unfold m_url. destruct (startswith _ _); [|done].
  by destruct (length (span re_S (drop 4 s))).
Qed.

Lemma m_url_blank w (s : str) : isspace w = true -> m_url (w :: s) = None.
Proof. intros Hw. apply m_url_other. by intros ->. Qed.

(** The first character of what [remove_urls] answers is a whitespace
    character or the first character of the text, copied. *)
Lemma remove_urls_head (s : str) x out :
  remove_urls s = x :: out ->
  isspace x = true \/ exists s0, s = x :: s0 /\ out = remove_urls s0 /\ m_url s = None.
Proof.
  unfold remove_urls. destruct s as [|c s0]; [done|].
  destruct (m_url (c :: s0)) as [[|k]|] eqn:E.
  - by apply m_url_positive in E.
  - rewrite (re_sub_match _ _ _ k) by done. cbn [app].
    destruct (m_url_rest _ _ E) as [->|(w & r & -> & Hw)]; [done|].
    rewrite re_sub_copy by (by apply m_url_blank). intros [= <- _]. by left.
  - rewrite re_sub_copy by done. intros [= <- <-]. right. by exists s0.
Qed.

Lemma m_url_some (s : str) k :
  m_url s = Some k -> exists d r, s = u "http" ++ d :: r /\ isspace d = false.
Proof.
  unfold m_url. destruct (startswith (u "http") s) eqn:E; [|done].
  apply startswith_true in E. change (length (u "http")) with 4%nat in E.
  destruct (drop 4 s) as [|d r] eqn:Ed; [done|]. cbn [span].
  destruct (re_S d) eqn:Hd; [|done]. intros _. exists d, r. split; [done|].
  unfold re_S in Hd. by apply negb_true_iff in Hd.
Qed.

Lemma m_url_http d (r : str) : isspace d = false -> m_url (u "http" ++ d :: r) <> None.
Proof.
  intros Hd. unfold m_url. change (startswith _ _) with true. cbn [drop app u].
  change (drop 4 (u "http" ++ d :: r)) with (d :: r). cbn [span]. unfold re_S at 1.
  by rewrite Hd.
Qed.

Lemma remove_urls_copied_head c (s : str) :
  m_url (c :: s) = None -> m_url (c :: remove_urls s) = None.
Proof.
  intros Hnone. destruct (m_url (c :: remove_urls s)) as [k|] eqn:E; [exfalso|done].
  apply m_url_some in E as (d & r & Heq & Hd).
  rewrite u_http in Heq. injection Heq as -> Heq.
  apply remove_urls_head in Heq as [?|(s1 & -> & Heq & _)]; [done|]. symmetry in Heq.
  apply remove_urls_head in Heq as [?|(s2 & -> & Heq & _)]; [done|]. symmetry in Heq.
  apply remove_urls_head in Heq as [?|(s3 & -> & Heq & _)]; [done|]. symmetry in Heq.
  apply remove_urls_head in Heq as [?|(s4 & -> & _ & _)]; [congruence|].
  by apply (m_url_http d s4) in Hd.
Qed.

(** In what [remove_urls] answers the pattern matches nowhere. *)
Lemma remove_urls_quiet (s : str) p a : remove_urls s = p ++ a -> m_url a = None.
Proof.
  remember (length s) as n eqn:Hn. revert s Hn p a.
  induction (lt_wf n) as [n _ IH]. intros s -> p a.
  destruct s as [|c s].
  { destruct p; [|done]. cbn. by intros <-. }
  unfold remove_urls. destruct (m_url (c :: s)) as [[|k]|] eqn:E.
  - by apply m_url_positive in E.
  - rewrite (re_sub_match _ _ _ k) by done. cbn [app].
    apply (IH (length (drop (S k) (c :: s)))); [|done].
    rewrite length_drop. simpl. lia.
  - rewrite re_sub_copy by done. destruct p as [|x p]; cbn [app].
    + intros <-. by apply remove_urls_copied_head.
    + intros [= _ H]. apply (IH (length s)) in H; [done|simpl; lia|done].
Qed.

Lemma startswith_app (a r : str) : startswith a (a ++ r) = true.
Proof. induction a as [|c a IH]; [done|]. simpl. by rewrite N.eqb_refl, IH. Qed.

Lemma occurs_contains (a s : str) : occurs_in a s -> str_contains a s = true.
Proof.
  intros (l & r & ->). induction l as [|c l IH].
  - cbn [app]. assert (forall s, startswith a s = true -> str_contains a s = true) as H.
    { intros s Hs. destruct s; simpl; by rewrite Hs. }
    apply H, startswith_app.
  - simpl. by rewrite IH, orb_true_r.
Qed.

Lemma m_url_occurs (a : str) k : m_url a = Some k -> occurs_in (u "http") a.
Proof.
  intros (d & r & -> & _)%m_url_some. by exists [], (d :: r).
Qed.

(** X12: [remove_urls] leaves a text as it is in which [http] does not occur,
    and a second pass changes nothing: what is left of a deleted run is
    the whitespace after it, and no run that begins with [http] and goes
    on is put together from the text before a deleted run and that
    whitespace. *)
Theorem remove_urls_idempotent :
  (forall text, ~ occurs_in (u "http") text -> remove_urls text = text) /\
  (forall text, remove_urls (remove_urls text) = remove_urls text).
Proof.
  split.
  - intros text Ht. apply re_sub_quiet. intros p a ->.
    destruct (m_url a) as [k|] eqn:E; [exfalso|done].
    apply m_url_occurs in E as (l & r & ->). apply Ht.
    exists (p ++ l), r. by rewrite <-app_assoc.
  - intros text. apply re_sub_quiet. intros p a. apply remove_urls_quiet.
Qed.

(** ** Blank texts *)

Lemma blank_is_lower (c : char) :
  isspace c = true -> is_ascii c = true -> ascii_lower c = c.
Proof.
  unfold isspace, is_ascii, ascii_lower, ascii_isupper. intros Hs Ha.
  destruct (N.leb_spec 65 c), (N.leb_spec c 90); simpl; try done.
  apply N.ltb_lt in Ha.
  repeat (apply orb_prop in Hs as [Hs|Hs]);
    repeat match goal with
           | H : (_ && _) = true |- _ => apply andb_prop in H as [? ?]
           | H : (_ <=? _) = true |- _ => apply N.leb_le in H
           | H : (_ =? _) = true |- _ => apply N.eqb_eq in H
           end; lia.
Qed.

Lemma str_lower_blank (t : str) :
  Forall (fun c => isspace c = true /\ is_ascii c = true) t -> str_lower t = t.
Proof.
  intros Ht. unfold str_lower.
  assert (forallb is_ascii t = true) as ->.
  { apply forallb_forall. intros c Hc%list_elem_of_In.
    by eapply list.Forall_forall in Ht as [_ ?]. }
  induction Ht as [|c t [Hs Ha] _ IH]; [done|]. csimpl. rewrite IH.
  by rewrite blank_is_lower.
Qed.

(** X9: A text of which the markup stripper leaves ASCII whitespace only, the
    empty text among them, is cleaned to the empty text. *)
Theorem clean_text_of_blank (strip_html : str -> str)
    (stopwords_english : list str) (lemmatize : str -> str) (text : str) :
  Forall (fun c => isspace c = true /\ is_ascii c = true) (strip_html text) ->
  lemmatize [] = [] ->
  clean_text strip_html stopwords_english lemmatize text = [].
Proof.
  intros Ht Hlem. unfold clean_text. rewrite str_lower_blank by done.
  assert (Forall (fun c => isspace c = true) (strip_html text)) as Hb.
  { eapply Forall_impl; [exact Ht|]. by intros c [? _]. }
  assert (remove_between_square_brackets (strip_html text) = strip_html text) as ->.
  { apply re_sub_quiet. intros p a Heq. rewrite Heq in Hb.
    apply Forall_app in Hb as [_ Ha]. destruct Ha as [|c a Hc _]; [done|].
    unfold m_brackets. destruct (N.eqb_spec c 91) as [->|]; done. }
  assert (remove_urls (strip_html text) = strip_html text) as ->.
  { apply re_sub_quiet. intros p a Heq. rewrite Heq in Hb.
    apply Forall_app in Hb as [_ Ha]. destruct Ha as [|c a Hc _]; [done|].
    by apply m_url_blank. }
  assert (remove_stopwords stopwords_english (strip_html text) = []) as ->.
  { unfold remove_stopwords, str_split. by rewrite split_go_blank. }
  change (tokenize _) with [@nil char]. unfold lemmatizer.
  destruct (decide ([] ∈ (list_to_set stopwords_english : listset str))) as [Hin|Hout].
  - by rewrite filter_cons_False by tauto.
  - rewrite filter_cons_True by done. simpl. by rewrite Hlem.
Qed.

End FixedPoints.

Section Spaces.
Context {UCD : Unicode}.

(** ** One space between two words *)

Lemma filter_split {A} (P : A -> Prop) `{!forall x, Decision (P x)} (l a b : list A) x :
  filter P l = a ++ x :: b ->
  exists a0 b0, l = a0 ++ x :: b0 /\ filter P a0 = a /\ filter P b0 = b.
Proof.
  revert a. induction l as [|y l IH]; intros a.
  - rewrite filter_nil. by destruct a.
  - destruct (decide (P y)) as [Hy|Hy].
    + rewrite filter_cons_True by done. destruct a as [|z a]; cbn [app].
      * intros [= -> Hb]. exists [], l. by rewrite filter_nil.
      * intros [= -> (a0 & b0 & -> & <- & <-)%IH]. exists (z :: a0), b0.
        by rewrite filter_cons_True.
    + rewrite filter_cons_False by done. intros (a0 & b0 & -> & <- & <-)%IH.
      exists (y :: a0), b0. by rewrite filter_cons_False.
Qed.

(** The tokens between two others, as the tokenizer and as the
    lemmatizer leave them, are not empty. *)
Lemma tokenize_between (text : list char) a x b :
  tokenize text = a ++ x :: b -> a <> [] -> b <> [] -> x <> [].
Proof.
  intros Heq Ha Hb. apply (tokenize_inner text (length a) x).
  - rewrite Heq. by apply list_lookup_middle.
  - destruct a; [done|simpl; lia].
  - rewrite Heq, length_app. destruct b; [done|simpl; lia].
Qed.

Lemma lemmatizer_between sw lem (text : list char) a y b :
  (forall w, w <> [] -> lem w <> []) ->
  lemmatizer sw lem (tokenize text) = a ++ y :: b -> a <> [] -> b <> [] -> y <> [].
Proof.
  intros Hlem Heq Ha Hb. unfold lemmatizer in Heq.
  apply fmap_app_inv in Heq as (a1 & b1 & -> & Hb1 & Heq). symmetry in Hb1.
  apply fmap_cons_inv in Hb1 as (x & b2 & -> & -> & ->).
  apply filter_split in Heq as (a0 & b0 & Heq & <- & <-).
  apply Hlem. apply (tokenize_between text a0 x b0 Heq).
  - intros ->. by rewrite filter_nil in Ha.
  - intros ->. by rewrite filter_nil in Hb.
Qed.

Lemma str_join_head (parts : list str) (B : str) :
  Forall (fun p => 32 ∉ p) parts ->
  (forall x b, parts = x :: b -> b <> [] -> x <> []) ->
  str_join (u " ") parts <> 32 :: B.
Proof.
  intros Hparts Hfirst Heq. destruct parts as [|q rest]; [done|].
  inversion Hparts as [|? ? Hq _]; subst.
  destruct rest as [|r rest].
  - simpl in Heq. subst q. apply Hq. by left.
  - assert (q <> []) as Hne by (by apply (Hfirst q (r :: rest))).
    change (str_join (u " ") (q :: r :: rest))
      with (q ++ 32 :: str_join (u " ") (r :: rest)) in Heq.
    destruct q as [|c q]; [done|]. injection Heq as -> _. apply Hq. by left.
Qed.

Lemma str_join_single_spaces (parts : list str) :
  Forall (fun p => 32 ∉ p) parts ->
  (forall a x b, parts = a ++ x :: b -> a <> [] -> b <> [] -> x <> []) ->
  ~ occurs_in (u "  ") (str_join (u " ") parts).
Proof.
  induction parts as [|p parts IH]; intros Hparts Hmid (A & B & Heq).
  { by destruct A. }
  inversion Hparts as [|? ? Hp Hrest]; subst.
  destruct parts as [|q rest].
  { simpl in Heq. subst p. apply Hp. apply elem_of_app. right. by left. }
  change (str_join (u " ") (p :: q :: rest))
    with (p ++ 32 :: str_join (u " ") (q :: rest)) in Heq.
  change (u "  " ++ B) with (32 :: 32 :: B) in Heq.
  assert (forall B', str_join (u " ") (q :: rest) <> 32 :: B') as Hhead.
  { intros B'. apply str_join_head; [done|].
    intros x b [= <- <-] Hb. by apply (Hmid [p] q rest). }
  apply app_eq_inv in Heq as [(k & -> & Hk)|(k & -> & Hk)].
  - destruct k as [|c k]; cbn [app] in Hk.
    + injection Hk as Hk. by apply (Hhead B).
    + injection Hk as <- _. apply Hp. apply elem_of_app. right. by left.
  - destruct k as [|c k]; cbn [app] in Hk.
    + injection Hk as Hk. by apply (Hhead B).
    + injection Hk as <- Hk. apply IH; [done| |by exists k, B].
      intros a x b Heq Ha Hb. apply (Hmid (p :: a) x b); [by rewrite Heq|done|done].
Qed.

(** X7: Of a lemmatizer that makes words of words and no empty word of a
    word, the output of [clean_text] holds no two spaces in a row: its
    words stand one space apart (what the output may hold besides is one
    space at its start and one at its end). *)
Theorem clean_text_single_spaces (strip_html : str -> str)
    (stopwords_english : list str) (lemmatize : str -> str) :
  (forall w, Forall (fun c => re_w c = true) w -> Forall (fun c => re_w c = true) (lemmatize w)) ->
  (forall w, w <> [] -> lemmatize w <> []) ->
  forall text, ~ occurs_in (u "  ") (clean_text strip_html stopwords_english lemmatize text).
Proof.
  intros Hword Hfull text. unfold clean_text. apply str_join_single_spaces.
  - apply (lemmatizer_Forall (Forall (fun c => re_w c = true))).
    + intros w Hw Hin. apply Hword in Hw.
      eapply list.Forall_forall in Hw; [|exact Hin]. by vm_compute in Hw.
    + apply re_split_W_words. constructor.
  - intros a x b. by apply lemmatizer_between.
Qed.

End Spaces.

(** ** The stages on the reference resources *)
Module StagesOnReference.
Import Reference.

Lemma table_words (w : str) :
  Forall (fun c => re_w c = true) w -> Forall (fun c => re_w c = true) (table_lemmatize w).
Proof.
  apply CleanerOnReference.table_lemmatize_Forall. vm_compute. by repeat constructor.
Qed.

Lemma table_full (w : str) : w <> [] -> table_lemmatize w <> [].
Proof.
  intros Hw. destruct (CleanerOnReference.table_lemmatize_cases w) as [->|Hin]; [done|].
  intros Heq. rewrite Heq in Hin. vm_compute in Hin.
  repeat (apply elem_of_cons in Hin as [Hin|Hin]; [done|]). by apply elem_of_nil in Hin.
Qed.

Lemma table_no_capital (w : str) :
  Forall (fun c => ascii_isupper c = false) w ->
  Forall (fun c => ascii_isupper c = false) (table_lemmatize w).
Proof.
  apply CleanerOnReference.table_lemmatize_Forall. vm_compute. by repeat constructor.
Qed.

(** In [=a, b] the token [a] stands between the empty token that the
    leading separator leaves and the token [b]. *)
Lemma tokenize_tokens_witness :
  (tokenize (u "=a, b") !! 1%nat = Some (u "a") /\ (0 < 1)%nat /\
   (2 < length (tokenize (u "=a, b")))%nat) /\
  u "a" <> [].
Proof.
  assert (tokenize (u "=a, b") !! 1%nat = Some (u "a")) as H1 by reflexivity.
  assert (0 < 1)%nat as H2 by lia.
  assert (2 < length (tokenize (u "=a, b")))%nat as H3 by (vm_compute; lia).
  destruct (tokenize_tokens (u "=a, b")) as (_ & _ & _ & H).
  exact (conj (conj H1 (conj H2 H3)) (H 1%nat (u "a") H1 H2 H3)).
Defined.

Lemma clean_text_words_and_spaces_witness :
  (forall w, Forall (fun c => re_w c = true) w ->
             Forall (fun c => re_w c = true) (table_lemmatize w)) /\
  Forall (fun c => re_w c = true \/ c = 32) (clean (u "Visit <b>us</b> [ad] now!")).
Proof.
  exact (conj table_words
           (clean_text_words_and_spaces strip_tags nltk_stopwords table_lemmatize table_words
              (u "Visit <b>us</b> [ad] now!"))).
Defined.

(** [x -- z] leaves the stage of the stopwords with two spaces in a row,
    where the two hyphens stood, and the cleaner with one. *)
Lemma clean_text_single_spaces_witness :
  ((forall w, Forall (fun c => re_w c = true) w ->
              Forall (fun c => re_w c = true) (table_lemmatize w)) /\
   (forall w, w <> [] -> table_lemmatize w <> [])) /\
  remove_stopwords nltk_stopwords (u "x -- z") = u "x  z" /\
  ~ occurs_in (u "  ") (clean (u "x -- z")).
Proof.
  split; [exact (conj table_words table_full)|]. split; [reflexivity|].
  exact (clean_text_single_spaces strip_tags nltk_stopwords table_lemmatize
           table_words table_full (u "x -- z")).
Defined.

Lemma lower_no_capital :
  Forall (fun c => ascii_isupper c = false) (str_lower (strip_tags (u "BREAKING: Visits"))).
Proof. vm_compute. repeat (constructor; [reflexivity|]). constructor. Qed.

(** No capital letter of ASCII is in what is left of [BREAKING: Visits]. *)
Lemma clean_text_only_deletes_witness :
  (ascii_isupper 32 = false /\
   (forall w, Forall (fun c => ascii_isupper c = false) w ->
              Forall (fun c => ascii_isupper c = false) (table_lemmatize w)) /\
   Forall (fun c => ascii_isupper c = false) (str_lower (strip_tags (u "BREAKING: Visits")))) /\
  Forall (fun c => ascii_isupper c = false) (clean (u "BREAKING: Visits")).
Proof.
  split; [exact (conj eq_refl (conj table_no_capital lower_no_capital))|].
  exact (clean_text_only_deletes strip_tags nltk_stopwords table_lemmatize
           (fun c => ascii_isupper c = false) (u "BREAKING: Visits")
           eq_refl table_no_capital lower_no_capital).
Defined.

Lemma blank_text : Forall (fun c => isspace c = true /\ is_ascii c = true)
                          (strip_tags (u "  " ++ [10; 9])).
Proof. vm_compute. repeat (constructor; [by split|]). constructor. Qed.

Lemma clean_text_of_blank_witness :
  (Forall (fun c => isspace c = true /\ is_ascii c = true) (strip_tags (u "  " ++ [10; 9])) /\
   table_lemmatize [] = []) /\
  clean (u "  " ++ [10; 9]) = [].
Proof.
  split; [exact (conj blank_text eq_refl)|].
  exact (clean_text_of_blank strip_tags nltk_stopwords table_lemmatize (u "  " ++ [10; 9])
           blank_text eq_refl).
Defined.

Lemma no_digit_here : Forall (fun c => re_d c = false) (u "route sixty-six").
Proof. vm_compute. repeat (constructor; [reflexivity|]). constructor. Qed.

Lemma remove_numbers_idempotent_witness :
  Forall (fun c => re_d c = false) (u "route sixty-six") /\
  remove_numbers (u "route sixty-six") = u "route sixty-six" /\
  remove_numbers (remove_numbers (u "route 66")) = remove_numbers (u "route 66").
Proof.
  destruct remove_numbers_idempotent as [H1 H2].
  exact (conj no_digit_here (conj (H1 _ no_digit_here) (H2 (u "route 66")))).
Defined.

Lemma no_closing_bracket : 91 ∉ u "a [ b" \/ 93 ∉ u "a [ b".
Proof. right. apply (bool_decide_eq_false_1 (_ ∈ _)). reflexivity. Qed.

Lemma remove_between_square_brackets_idempotent_witness :
  (91 ∉ u "a [ b" \/ 93 ∉ u "a [ b") /\
  remove_between_square_brackets (u "a [ b") = u "a [ b" /\
  remove_between_square_brackets (remove_between_square_brackets (u "[[a]]"))
  = remove_between_square_brackets (u "[[a]]").
Proof.
  destruct remove_between_square_brackets_idempotent as (_ & H2 & H3).
  exact (conj no_closing_bracket (conj (H2 _ no_closing_bracket) (H3 (u "[[a]]")))).
Defined.

Lemma no_http_here : ~ occurs_in (u "http") (u "see page 2").
Proof. intros H%occurs_contains. by vm_compute in H. Qed.

Lemma remove_urls_idempotent_witness :
  (~ occurs_in (u "http") (u "see page 2")) /\
  remove_urls (u "see page 2") = u "see page 2" /\
  remove_urls (remove_urls (u "hthttp://x tp://y")) = remove_urls (u "hthttp://x tp://y").
Proof.
  destruct remove_urls_idempotent as [H1 H2].
  exact (conj no_http_here (conj (H1 _ no_http_here) (H2 (u "hthttp://x tp://y")))).
Defined.

End StagesOnReference.

(** * Properties of the pipeline *)

Section Outcomes.
Context {S : Type}.

Lemma wp_ret {A} (a : A) Q E (st : S) : Q a st -> wp (ret a) Q E st.
Proof. done. Qed.

Lemma wp_raise {A} e (Q : A -> S -> Prop) E (st : S) : E e st -> wp (raise e) Q E st.
Proof. done. Qed.

Lemma wp_bind {A B} (c : M S A) (k : A -> M S B) Q E st :
  wp c (fun a s => wp (k a) Q E s) E st -> wp (bind c k) Q E st.
Proof. unfold wp, bind. by destruct (c st). Qed.

Lemma wp_gets {A} (f : S -> A) Q E st : Q (f st) st -> wp (gets f) Q E st.
Proof. done. Qed.

Lemma wp_modify (f : S -> S) Q E st : Q tt (f st) -> wp (modify f) Q E st.
Proof. done. Qed.

Lemma wp_of_sum {A} (r : exn + A) Q E (st : S) :
  (forall a, r = inr a -> Q a st) -> (forall e, r = inl e -> E e st) ->
  wp (of_sum r) Q E st.
Proof. intros HQ HE. destruct r; simpl; [by apply HE|by apply HQ]. Qed.

Lemma wp_mono {A} (c : M S A) (Q Q' : A -> S -> Prop) (E E' : exn -> S -> Prop) st :
  wp c Q E st -> (forall a s, Q a s -> Q' a s) -> (forall e s, E e s -> E' e s) ->
  wp c Q' E' st.
Proof. unfold wp. intros H HQ HE. destruct (c st); auto. Qed.

Lemma wp_Ok {A} (c : M S A) Q E st a st' : wp c Q E st -> c st = Ok a st' -> Q a st'.
Proof. unfold wp. intros H Heq. by rewrite Heq in H. Qed.

Lemma wp_Raise {A} (c : M S A) Q E st e st' : wp c Q E st -> c st = Raise e st' -> E e st'.
Proof. unfold wp. intros H Heq. by rewrite Heq in H. Qed.

Lemma wp_final {A} (c : M S A) (P : S -> Prop) st :
  wp c (fun _ s => P s) (fun _ s => P s) st <-> P (final (c st)).
Proof. unfold wp, final. by destruct (c st). Qed.

Lemma returned_Ok {A} (r : Res S A) a : returned r = Some a -> r = Ok a (final r).
Proof. destruct r; simpl; congruence. Qed.

Lemma succeeded_Ok {A} (r : Res S A) : succeeded r = true -> exists a s, r = Ok a s.
Proof. destruct r; simpl; [eauto|done]. Qed.

End Outcomes.

Section Always.
Context {NP : Numpy} {SK : Sklearn}.
Context (R : State -> State -> Prop) `{!Reflexive R} `{!Transitive R}.

Lemma always_ret {A} (a : A) : always R (ret a).
Proof. intros st. simpl. reflexivity. Qed.

Lemma always_raise {A} e : always R (@raise State A e).
Proof. intros st. simpl. reflexivity. Qed.

Lemma always_gets {A} (f : State -> A) : always R (gets f).
Proof. intros st. simpl. reflexivity. Qed.

Lemma always_of_sum {A} (r : exn + A) : always R (of_sum r).
Proof. intros st. destruct r; simpl; reflexivity. Qed.

Lemma always_bind {A B} (c : M State A) (k : A -> M State B) :
  always R c -> (forall a, always R (k a)) -> always R (bind c k).
Proof.
  intros Hc Hk st. unfold bind. specialize (Hc st).
  destruct (c st) as [a s|e s]; simpl in *; [|done].
  transitivity s; [done|apply Hk].
Qed.

Lemma always_modify (f : State -> State) : (forall st, R st (f st)) -> always R (modify f).
Proof. intros H st. apply H. Qed.

Lemma always_load l : always R (load l).
Proof. intros st. unfold load. destruct (_ !! _); simpl; reflexivity. Qed.

Lemma always_attribute col f : always R (attribute col f).
Proof. unfold attribute. destruct (column col f); [apply always_ret|apply always_raise]. Qed.

End Always.

Section PipelineFacts.
Context {UCD : Unicode} {NP : Numpy} {SK : Sklearn}.
Variable strip_html : str -> str.
Variable stopwords_english : list str.
Variable lemmatize : str -> str.

Ltac open_cleanup_text := unfold cleanup_text.
Ltac open_pre_processor := unfold pre_processor.
Ltac open_run := unfold run.
Ltac open_call := unfold call.

Abbreviation cleanup_text := (cleanup_text strip_html stopwords_english lemmatize).
Abbreviation pre_processor := (pre_processor strip_html stopwords_english lemmatize).
Abbreviation run := (run strip_html stopwords_english lemmatize).
Abbreviation call := (call strip_html stopwords_english lemmatize).
Abbreviation calls := (calls strip_html stopwords_english lemmatize).

(** ** The cache of the sampled frame *)

#[local] Instance keeps_df_refl : Reflexive keeps_df.
Proof. by intros st l. Qed.

#[local] Instance keeps_df_trans : Transitive keeps_df.
Proof. intros s1 s2 s3 H12 H23 l Hl. by apply H23, H12. Qed.

Lemma keeps_df_same_self st st' : self st' = self st -> keeps_df st st'.
Proof. intros Heq l. by rewrite Heq. Qed.

Lemma keeps_df_same_df st st' : _df (self st') = _df (self st) -> keeps_df st st'.
Proof. intros Heq l. by rewrite Heq. Qed.

Lemma keeps_df_emit ev : always keeps_df (emit ev).
Proof. intros st. by apply keeps_df_same_self. Qed.

Lemma keeps_df_alloc f : always keeps_df (alloc f).
Proof. intros st. by apply keeps_df_same_self. Qed.

Lemma keeps_df_store l f : always keeps_df (store l f).
Proof. intros st. by apply keeps_df_same_self. Qed.

Lemma keeps_df_draw n : always keeps_df (draw_permutation n).
Proof.
  intros st. unfold draw_permutation. destruct (permutation _ _).
  by apply keeps_df_same_self.
Qed.

Lemma keeps_df_modify f :
  (forall m, _df (f m) = _df m) -> always keeps_df (modify (on_self f)).
Proof. intros H st. apply keeps_df_same_df. apply H. Qed.

Lemma keeps_df_with_rng g : always keeps_df (modify (on_world (with_rng g))).
Proof. intros st. by apply keeps_df_same_self. Qed.

Create HintDb keeps discriminated.
#[local] Hint Resolve keeps_df_emit keeps_df_alloc keeps_df_store keeps_df_draw
  keeps_df_with_rng : keeps.
#[local] Hint Extern 1 (always keeps_df (modify (on_self _))) =>
  apply keeps_df_modify; done : keeps.

Ltac always_go db :=
  repeat first
    [ progress intros
    | solve [eauto with db]
    | apply always_ret | apply always_raise | apply always_gets | apply always_of_sum
    | apply always_load | apply always_attribute
    | match goal with
      | |- Reflexive _ => exact _
      | |- Transitive _ => exact _
      | |- always _ (match ?x with _ => _ end) => destruct x
      | |- always _ (bind _ _) => apply always_bind
      end ].

Lemma keeps_df_create_data_frame : always keeps_df create_data_frame.
Proof. unfold create_data_frame. always_go keeps. Qed.
#[local] Hint Resolve keeps_df_create_data_frame : keeps.

Lemma keeps_df_df : always keeps_df df.
Proof.
  intros st l Hl. unfold df, bind, gets. rewrite Hl. done.
Qed.
#[local] Hint Resolve keeps_df_df : keeps.

Lemma keeps_df_cleanup_text : always keeps_df cleanup_text.
Proof. open_cleanup_text. always_go keeps. Qed.
#[local] Hint Resolve keeps_df_cleanup_text : keeps.

Lemma keeps_df_pre_processor : always keeps_df pre_processor.
Proof. open_pre_processor. always_go keeps. Qed.
#[local] Hint Resolve keeps_df_pre_processor : keeps.

Lemma keeps_df_TrainTestSplit l : always keeps_df (TrainTestSplit__init__ l).
Proof. unfold TrainTestSplit__init__. always_go keeps. Qed.
#[local] Hint Resolve keeps_df_TrainTestSplit : keeps.

Lemma keeps_df_split : always keeps_df split.
Proof. unfold split. always_go keeps. Qed.
#[local] Hint Resolve keeps_df_split : keeps.

Lemma keeps_df_Vectorize sp vt : always keeps_df (Vectorize__init__ sp vt).
Proof. unfold Vectorize__init__. always_go keeps. Qed.
#[local] Hint Resolve keeps_df_Vectorize : keeps.

Lemma keeps_df_vectorize : always keeps_df vectorize.
Proof. unfold vectorize. always_go keeps. Qed.
#[local] Hint Resolve keeps_df_vectorize : keeps.

Lemma keeps_df_model_attribute name : always keeps_df (model_attribute name).
Proof. unfold model_attribute. always_go keeps. Qed.
#[local] Hint Resolve keeps_df_model_attribute : keeps.

Lemma keeps_df_fit : always keeps_df Model_fit.
Proof. unfold Model_fit. always_go keeps. Qed.
#[local] Hint Resolve keeps_df_fit : keeps.

Lemma keeps_df_predict : always keeps_df Model_predict.
Proof. unfold Model_predict. always_go keeps. Qed.
#[local] Hint Resolve keeps_df_predict : keeps.

Lemma keeps_df_accuracy_score : always keeps_df Model_accuracy_score.
Proof. unfold Model_accuracy_score. always_go keeps. Qed.
#[local] Hint Resolve keeps_df_accuracy_score : keeps.

Lemma keeps_df_print_accuracy_score : always keeps_df print_accuracy_score.
Proof. unfold print_accuracy_score, model_type_value. always_go keeps. Qed.
#[local] Hint Resolve keeps_df_print_accuracy_score : keeps.

Lemma keeps_df_print_classification_report : always keeps_df print_classification_report.
Proof. unfold print_classification_report. always_go keeps. Qed.
#[local] Hint Resolve keeps_df_print_classification_report : keeps.

Lemma keeps_df_run : always keeps_df run.
Proof. open_run. always_go keeps. Qed.
#[local] Hint Resolve keeps_df_run : keeps.

Lemma keeps_df_call c : always keeps_df (call c).
Proof. destruct c; open_call; always_go keeps. Qed.

Lemma keeps_df_calls cs st : keeps_df st (calls cs st).
Proof.
  revert st. induction cs as [|c cs IH]; intros st; [reflexivity|].
  simpl. transitivity (final (call c st)); [apply keeps_df_call|apply IH].
Qed.

(** With the frame in the cache, [df] answers it and touches nothing. *)
Lemma df_cached st l : _df (self st) = Some l -> df st = Ok l st.
Proof. intros Hl. unfold df, bind, gets. by rewrite Hl. Qed.

(** After [df] has answered, the frame is in the cache. *)
Lemma df_caches st l st' : df st = Ok l st' -> _df (self st') = Some l.
Proof.
  unfold df, bind, gets. destruct (_df (self st)) as [l0|] eqn:E.
  - by intros [= <- <-].
  - destruct (create_data_frame st) as [l1 s1|]; [|done]. by intros [= <- <-].
Qed.

(** ** What preparing the data leaves alone *)

#[local] Instance same_caches_refl : Reflexive same_caches.
Proof. by intros st. Qed.

#[local] Instance same_caches_trans : Transitive same_caches.
Proof.
  intros s1 s2 s3 (H1 & H2 & H3) (H4 & H5 & H6). unfold same_caches. by rewrite H4, H5, H6.
Qed.

Lemma same_caches_same_self st st' : self st' = self st -> same_caches st st'.
Proof. intros Heq. unfold same_caches. by rewrite Heq. Qed.

Lemma same_caches_emit ev : always same_caches (emit ev).
Proof. intros st. by apply same_caches_same_self. Qed.

Lemma same_caches_alloc f : always same_caches (alloc f).
Proof. intros st. by apply same_caches_same_self. Qed.

Lemma same_caches_store l f : always same_caches (store l f).
Proof. intros st. by apply same_caches_same_self. Qed.

Lemma same_caches_draw n : always same_caches (draw_permutation n).
Proof.
  intros st. unfold draw_permutation. destruct (permutation _ _).
  by apply same_caches_same_self.
Qed.

Lemma same_caches_with_rng g : always same_caches (modify (on_world (with_rng g))).
Proof. intros st. by apply same_caches_same_self. Qed.

Create HintDb caches discriminated.
#[local] Hint Resolve same_caches_emit same_caches_alloc same_caches_store
  same_caches_draw same_caches_with_rng : caches.
#[local] Hint Extern 1 (always same_caches (modify (on_self _))) =>
  apply always_modify; intros ?; done : caches.

Lemma same_caches_create_data_frame : always same_caches create_data_frame.
Proof. unfold create_data_frame. always_go caches. Qed.

Lemma same_caches_TrainTestSplit l : always same_caches (TrainTestSplit__init__ l).
Proof. unfold TrainTestSplit__init__. always_go caches. Qed.

Lemma same_caches_Vectorize sp vt : always same_caches (Vectorize__init__ sp vt).
Proof. unfold Vectorize__init__. always_go caches. Qed.

Lemma same_caches_model_attribute name : always same_caches (model_attribute name).
Proof. unfold model_attribute. always_go caches. Qed.

#[local] Instance prepared_unsplit_refl : Reflexive prepared_unsplit.
Proof. intros st. repeat split; try done. exists []. by rewrite app_nil_r. Qed.

#[local] Instance prepared_unsplit_trans : Transitive prepared_unsplit.
Proof.
  intros s1 s2 s3 [[(e1 & L1 & P1) (V1 & M1 & Z1)] S1] [[(e2 & L2 & P2) (V2 & M2 & Z2)] S2].
  repeat split; try congruence.
  exists (e1 ++ e2). split; [by rewrite L2, L1, app_assoc|by apply Forall_app].
Qed.

Lemma prepared_same st st' :
  self st' = self st -> log (world st') = log (world st) -> prepared_unsplit st st'.
Proof.
  intros Hs Hl. repeat split; try (by rewrite Hs).
  exists []. by rewrite app_nil_r.
Qed.

Lemma prepared_emit ev : preparation ev -> always prepared_unsplit (emit ev).
Proof.
  intros Hev st. repeat split; try done. exists [ev]. split; [done|by constructor].
Qed.

Lemma prepared_alloc f : always prepared_unsplit (alloc f).
Proof. intros st. by apply prepared_same. Qed.

Lemma prepared_store l f : always prepared_unsplit (store l f).
Proof. intros st. by apply prepared_same. Qed.

Lemma prepared_draw n : always prepared_unsplit (draw_permutation n).
Proof.
  intros st. unfold draw_permutation. destruct (permutation _ _).
  by apply prepared_same.
Qed.

Lemma prepared_modify f :
  (forall m, vectorizer_type (f m) = vectorizer_type m /\ model (f m) = model m /\
             _vectorize (f m) = _vectorize m /\ _split (f m) = _split m) ->
  always prepared_unsplit (modify (on_self f)).
Proof.
  intros H st. destruct (H (self st)) as (H1 & H2 & H3 & H4).
  repeat split; try done. exists []. by rewrite app_nil_r.
Qed.

Create HintDb prep discriminated.
#[local] Hint Resolve prepared_alloc prepared_store prepared_draw : prep.
#[local] Hint Extern 1 (always prepared_unsplit (emit _)) =>
  apply prepared_emit; exact I : prep.
#[local] Hint Extern 1 (always prepared_unsplit (modify (on_self _))) =>
  apply prepared_modify; done : prep.

Lemma prepared_create_data_frame : always prepared_unsplit create_data_frame.
Proof. unfold create_data_frame. always_go prep. Qed.
#[local] Hint Resolve prepared_create_data_frame : prep.

Lemma prepared_df : always prepared_unsplit df.
Proof. unfold df. always_go prep. Qed.
#[local] Hint Resolve prepared_df : prep.

Lemma prepared_cleanup_text : always prepared_unsplit cleanup_text.
Proof. open_cleanup_text. always_go prep. Qed.
#[local] Hint Resolve prepared_cleanup_text : prep.

Lemma prepared_pre_processor : always prepared_unsplit pre_processor.
Proof. open_pre_processor. always_go prep. Qed.

Lemma prepared_TrainTestSplit l : always prepared_unsplit (TrainTestSplit__init__ l).
Proof. unfold TrainTestSplit__init__. always_go prep. Qed.

(** ** An unsupported vectorizer selector *)

Lemma prepared_unsplit_final {A} (c : M State A) st :
  always prepared_unsplit c ->
  wp c (fun _ s => prepared_unsplit st s) (fun _ s => prepared_unsplit st s) st.
Proof. intros H. apply wp_final, H. Qed.

Lemma split_outcome st :
  _split (self st) = None ->
  wp split (fun _ s => prepared st s) (fun _ s => prepared_unsplit st s) st.
Proof.
  intros Hs. unfold split. apply wp_bind, wp_gets. rewrite Hs.
  apply wp_bind. eapply wp_mono; [apply prepared_unsplit_final, prepared_df| |done].
  intros l s1 H1. cbn beta.
  apply wp_bind. eapply wp_mono; [apply prepared_unsplit_final, prepared_TrainTestSplit| |].
  - intros sp s2 H2. apply wp_bind, wp_modify, wp_ret.
    destruct (transitivity H1 H2) as [[Hlog (Hv & Hm & Hz)] _].
    by repeat split.
  - intros e s2 H2. by transitivity s1.
Qed.

Lemma Vectorize_foreign sp v st :
  Vectorize__init__ sp (Foreign v) st
  = Raise (RuntimeError "Unable to determine the vectorizer type.") st.
Proof. reflexivity. Qed.

(** C1, as it holds: for every unsupported vectorizer selector the
    constructor of [Vectorize] raises the configuration error and does
    nothing else; in a run with a supported model, the run ends in an
    exception, nothing but sampling, cleaning and splitting has been
    asked of the libraries by then (no vectorizer was fitted, no model
    trained), and once the split has been made the exception is that
    configuration error. *)
Theorem unsupported_vectorizer_raises_after_split :
  (forall sp v st,
     Vectorize__init__ sp (Foreign v) st
     = Raise (RuntimeError "Unable to determine the vectorizer type.") st) /\
  (forall st v est,
     vectorizer_type (self st) = Foreign v -> model (self st) = Some est ->
     _vectorize (self st) = None -> _split (self st) = None ->
     exists e st', run st = Raise e st' /\ prepared st st' /\
       (_split (self st') <> None ->
        e = RuntimeError "Unable to determine the vectorizer type.")).
Proof.
  split; [apply Vectorize_foreign|].
  intros st v est Hv Hm Hz Hs.
  pose proof (prepared_pre_processor st) as H1.
  open_run. unfold bind at 1.
  destruct (pre_processor st) as [[] s1|e s1]; simpl in H1.
  - destruct H1 as [[Hlog1 (Hv1 & Hm1 & Hz1)] Hs1].
    rewrite Hv in Hv1. rewrite Hm in Hm1. rewrite Hz in Hz1. rewrite Hs in Hs1.
    unfold bind at 1. unfold Model_fit. unfold bind at 1.
    unfold model_attribute. unfold bind at 1. unfold gets at 1. rewrite Hm1.
    unfold ret at 1. unfold bind at 1. unfold vectorize at 1.
    unfold bind at 1. unfold gets at 1. rewrite Hz1. unfold bind at 1.
    pose proof (split_outcome s1 Hs1) as H2. unfold wp in H2.
    destruct (split s1) as [sp s2|e s2].
    + destruct H2 as [Hlog2 (Hv2 & Hm2 & Hz2)].
      unfold bind at 1. unfold gets at 1. rewrite Hv2, Hv1.
      unfold bind at 1. rewrite Vectorize_foreign.
      eexists _, s2. split; [reflexivity|]. split; [|done].
      assert (prepared st s1) as Hp1 by (repeat split; congruence).
      assert (prepared s1 s2) as Hp2 by (repeat split; congruence).
      destruct Hp1 as [(e1 & L1 & P1) (? & ? & ?)], Hp2 as [(e2 & L2 & P2) (? & ? & ?)].
      repeat split; try congruence.
      exists (e1 ++ e2). split; [by rewrite L2, L1, app_assoc|by apply Forall_app].
    + eexists e, s2. split; [reflexivity|].
      assert (prepared_unsplit st s1) as Hp1 by (repeat split; congruence).
      destruct (transitivity Hp1 H2) as [Hp Hsp]. split; [done|].
      rewrite Hsp, Hs. done.
  - eexists e, s1. split; [reflexivity|]. destruct H1 as [Hp Hsp].
    split; [done|]. rewrite Hsp, Hs. done.
Qed.

(** ** One sample for one instance *)

#[local] Instance carries_refl P : Reflexive (carries P).
Proof. intros st H. exact H. Qed.

#[local] Instance carries_trans P : Transitive (carries P).
Proof. intros s1 s2 s3 H12 H23 H. by apply H23, H12. Qed.

Lemma coherent_same_caches d st st' :
  same_caches st st' -> carries (coherent_at d) st st'.
Proof.
  intros (H1 & H2 & H3) [[Hs Hv] Hd]. unfold coherent_at, coherent.
  rewrite H1, H2, H3. done.
Qed.

Lemma carries_of_same_caches {A} d (c : M State A) :
  always same_caches c -> always (carries (coherent_at d)) c.
Proof. intros H st. apply coherent_same_caches, H. Qed.

Lemma carries_modify d f :
  (forall m, _df (f m) = _df m /\ _split (f m) = _split m /\ _vectorize (f m) = _vectorize m) ->
  always (carries (coherent_at d)) (modify (on_self f)).
Proof.
  intros H. apply carries_of_same_caches, always_modify. intros st. apply H.
Qed.

Create HintDb coh discriminated.
#[local] Hint Extern 1 (always (carries _) (emit _)) =>
  apply carries_of_same_caches, same_caches_emit : coh.
#[local] Hint Extern 1 (always (carries _) (alloc _)) =>
  apply carries_of_same_caches, same_caches_alloc : coh.
#[local] Hint Extern 1 (always (carries _) (store _ _)) =>
  apply carries_of_same_caches, same_caches_store : coh.
#[local] Hint Extern 1 (always (carries _) (draw_permutation _)) =>
  apply carries_of_same_caches, same_caches_draw : coh.
#[local] Hint Extern 1 (always (carries _) (modify (on_world _))) =>
  apply carries_of_same_caches, same_caches_with_rng : coh.
#[local] Hint Extern 1 (always (carries _) (modify (on_self _))) =>
  apply carries_modify; done : coh.
#[local] Hint Extern 1 (always (carries _) create_data_frame) =>
  apply carries_of_same_caches, same_caches_create_data_frame : coh.
#[local] Hint Extern 1 (always (carries _) (model_attribute _)) =>
  apply carries_of_same_caches, same_caches_model_attribute : coh.

Lemma df_outcome d st :
  coherent_at d st ->
  wp df (fun l s => coherent_at d s /\ _df (self s) = Some l /\
                    _split (self s) = _split (self st) /\
                    _vectorize (self s) = _vectorize (self st))
        (fun _ s => coherent_at d s) st.
Proof.
  intros Hc. unfold df. apply wp_bind, wp_gets.
  destruct (_df (self st)) as [l|] eqn:E; [by apply wp_ret|].
  apply wp_bind.
  eapply wp_mono; [apply wp_final, same_caches_create_data_frame| |].
  - intros l s1 (H1 & H2 & H3). apply wp_bind, wp_modify, wp_ret.
    destruct Hc as [[Hs Hv] Hd]. simpl. repeat split; try done.
    + intros sp Hsp. cbn in *. rewrite H2 in Hsp. apply Hs in Hsp. congruence.
    + intros vz Hvz. cbn in *. rewrite H3 in Hvz. rewrite H2. by apply Hv.
    + intros l0 Hl0. cbn in *. apply Hd in Hl0. congruence.
  - intros e s1 Hsame. by apply (coherent_same_caches d st s1).
Qed.

Lemma carries_df d : always (carries (coherent_at d)) df.
Proof.
  intros st Hc. pose proof (df_outcome d st Hc) as H. unfold wp in H.
  destruct (df st); simpl; [by destruct H|done].
Qed.
#[local] Hint Resolve carries_df : coh.

Lemma TrainTestSplit_value l st :
  wp (TrainTestSplit__init__ l) (fun sp s => self s = self st /\ tts_df sp = l)
     (fun _ s => self s = self st) st.
Proof.
  unfold wp, TrainTestSplit__init__, bind, load, attribute, emit, modify, of_sum, ret, raise.
  repeat case_match; by simplify_eq/=.
Qed.

Lemma Vectorize_value sp vt st :
  wp (Vectorize__init__ sp vt) (fun vz s => self s = self st /\ v_split vz = sp)
     (fun _ s => self s = self st) st.
Proof.
  unfold wp, Vectorize__init__, bind, emit, modify, of_sum, ret, raise.
  repeat case_match; by simplify_eq/=.
Qed.

Lemma split_coherent d st :
  coherent_at d st ->
  wp split (fun sp s => coherent_at d s /\ _split (self s) = Some sp /\
                        _vectorize (self s) = _vectorize (self st))
        (fun _ s => coherent_at d s) st.
Proof.
  intros Hc. unfold split. apply wp_bind, wp_gets.
  destruct (_split (self st)) as [sp|] eqn:E; [by apply wp_ret|].
  apply wp_bind. eapply wp_mono; [by apply df_outcome| |done].
  intros l s1 (Hc1 & Hl & Hs1 & Hv1). cbn beta.
  apply wp_bind. eapply wp_mono; [apply TrainTestSplit_value| |].
  - intros sp s2 [Hself <-]. apply wp_bind, wp_modify, wp_ret.
    destruct Hc1 as [[Hs Hv] Hd]. repeat split; cbn; rewrite ?Hself; try done.
    + by intros ? [= <-].
    + intros vz Hvz. apply Hv in Hvz. congruence.
  - intros e s2 Hself. cbn beta. destruct Hc1 as [[Hs Hv] Hd].
    unfold coherent_at, coherent. by rewrite Hself.
Qed.

Lemma carries_split d : always (carries (coherent_at d)) split.
Proof.
  intros st Hc. pose proof (split_coherent d st Hc) as H. unfold wp in H.
  destruct (split st); simpl; [by destruct H|done].
Qed.
#[local] Hint Resolve carries_split : coh.

Lemma carries_vectorize d : always (carries (coherent_at d)) vectorize.
Proof.
  intros st Hc. apply (wp_final vectorize (coherent_at d)).
  unfold vectorize. apply wp_bind, wp_gets.
  destruct (_vectorize (self st)) as [vz|] eqn:E; [by apply wp_ret|].
  apply wp_bind. eapply wp_mono; [by apply split_coherent| |done].
  intros sp s1 (Hc1 & Hsp & Hv1). cbn beta. apply wp_bind, wp_gets.
  apply wp_bind. eapply wp_mono; [apply Vectorize_value| |].
  - intros vz s2 [Hself <-]. apply wp_bind, wp_modify, wp_ret.
    destruct Hc1 as [[Hs Hv] Hd]. repeat split; cbn; rewrite ?Hself; try done.
    by intros ? [= <-].
  - intros e s2 Hself. cbn beta. destruct Hc1 as [[Hs Hv] Hd].
    unfold coherent_at, coherent. by rewrite Hself.
Qed.
#[local] Hint Resolve carries_vectorize : coh.

Lemma carries_TrainTestSplit d l : always (carries (coherent_at d)) (TrainTestSplit__init__ l).
Proof. apply carries_of_same_caches, same_caches_TrainTestSplit. Qed.

Lemma carries_cleanup_text d : always (carries (coherent_at d)) cleanup_text.
Proof. open_cleanup_text. always_go coh. Qed.
#[local] Hint Resolve carries_cleanup_text : coh.

Lemma carries_pre_processor d : always (carries (coherent_at d)) pre_processor.
Proof. open_pre_processor. always_go coh. Qed.
#[local] Hint Resolve carries_pre_processor : coh.

Lemma carries_fit d : always (carries (coherent_at d)) Model_fit.
Proof. unfold Model_fit. always_go coh. Qed.
#[local] Hint Resolve carries_fit : coh.

Lemma carries_predict d : always (carries (coherent_at d)) Model_predict.
Proof. unfold Model_predict. always_go coh. Qed.
#[local] Hint Resolve carries_predict : coh.

Lemma carries_accuracy_score d : always (carries (coherent_at d)) Model_accuracy_score.
Proof. unfold Model_accuracy_score. always_go coh. Qed.
#[local] Hint Resolve carries_accuracy_score : coh.

Lemma carries_print_accuracy_score d : always (carries (coherent_at d)) print_accuracy_score.
Proof. unfold print_accuracy_score, model_type_value. always_go coh. Qed.
#[local] Hint Resolve carries_print_accuracy_score : coh.

Lemma carries_print_classification_report d :
  always (carries (coherent_at d)) print_classification_report.
Proof. unfold print_classification_report. always_go coh. Qed.
#[local] Hint Resolve carries_print_classification_report : coh.

Lemma carries_run d : always (carries (coherent_at d)) run.
Proof. open_run. always_go coh. Qed.
#[local] Hint Resolve carries_run : coh.

Lemma carries_call d c : always (carries (coherent_at d)) (call c).
Proof. destruct c; open_call; always_go coh. Qed.

Lemma coherent_calls d cs st : coherent_at d st -> coherent_at d (calls cs st).
Proof.
  revert st. induction cs as [|c cs IH]; intros st Hc; [done|].
  simpl. apply IH. by apply carries_call.
Qed.

(** [cleanup_text] writes to the cached frame and to no other. *)
Lemma cleanup_text_writes_cached st l l' :
  _df (self st) = Some l -> l' <> l ->
  heap (world (final (cleanup_text st))) !! l' = heap (world st) !! l'.
Proof.
  intros Hl Hne. open_cleanup_text. unfold bind at 1. rewrite (df_cached st l Hl).
  unfold bind at 1. unfold load at 1.
  destruct (heap (world st) !! l) as [f|]; [|done].
  unfold bind at 1. destruct (column "text" f) as [text|]; [|done].
  unfold ret at 1. unfold bind at 1. unfold emit at 1, modify at 1.
  unfold bind at 1.
  destruct (series_apply _ text) as [e|cleaned]; [done|].
  unfold of_sum, ret at 1. unfold bind at 1.
  rewrite (df_cached _ l) by done.
  unfold bind, load, store, modify. simpl.
  destruct (heap (world st) !! l); simpl; [|done].
  by rewrite list_lookup_insert_ne.
Qed.

(** C10: the first access of the property [df] fixes the sampled frame of
    the instance. Whatever methods are called afterwards, in whatever
    order and however they end, a later access answers the same frame
    object and changes nothing, the generator included; the split, once
    made, is a split of that frame and the vectorizer a vectorizer of that
    split (for an instance whose caches agreed before, as those of a fresh
    one do); and [cleanup_text] writes to that frame alone. *)
Theorem df_is_sampled_once (st : State) (l : loc) (st1 : State) :
  df st = Ok l st1 ->
  _df (self st1) = Some l /\
  (forall cs, df (calls cs st1) = Ok l (calls cs st1)) /\
  (coherent st -> forall cs,
     let st2 := calls cs st1 in
     (forall sp, _split (self st2) = Some sp -> tts_df sp = l) /\
     (forall vz, _vectorize (self st2) = Some vz -> tts_df (v_split vz) = l)) /\
  (forall cs l', l' <> l ->
     heap (world (final (cleanup_text (calls cs st1)))) !! l'
     = heap (world (calls cs st1)) !! l').
Proof.
  intros Hdf. pose proof (df_caches _ _ _ Hdf) as Hl.
  assert (forall cs, _df (self (calls cs st1)) = Some l) as Hkeep.
  { intros cs. by apply keeps_df_calls. }
  split; [done|]. split; [|split].
  - intros cs. by apply df_cached.
  - intros Hc cs st2.
    assert (coherent_at None st1) as Hc1.
    { pose proof (carries_df None st) as H. unfold carries in H.
      rewrite Hdf in H. apply H. by split. }
    destruct (coherent_calls None cs st1 Hc1) as [[Hs Hv] _].
    fold st2 in Hs, Hv. specialize (Hkeep cs). fold st2 in Hkeep. split.
    + intros sp Hsp. apply Hs in Hsp. congruence.
    + intros vz Hvz. pose proof (Hs _ (Hv _ Hvz)). congruence.
  - intros cs l' Hne. by apply cleanup_text_writes_cached with l.
Qed.

(** ** Labels and partition *)

Lemma take_positions_app {A} (l : list A) p q :
  take_positions l (p ++ q) = take_positions l p ++ take_positions l q.
Proof. apply omap_app. Qed.

Lemma take_positions_from {A} (pre l : list A) :
  take_positions (pre ++ l) (seq (length pre) (length l)) = l.
Proof.
  revert pre. induction l as [|x l IH]; intros pre; [done|].
  unfold take_positions. simpl. rewrite list_lookup_middle by done. f_equal.
  specialize (IH (pre ++ [x])). rewrite <-app_assoc, length_app in IH. simpl in IH.
  by rewrite Nat.add_1_r in IH.
Qed.

Lemma take_positions_all {A} (l : list A) : take_positions l (seq 0 (length l)) = l.
Proof. apply (take_positions_from [] l). Qed.

(** A partition of the positions is a partition of the rows. *)
Lemma take_positions_partition {A} (l : list A) p q :
  p ++ q ≡ₚ seq 0 (length l) -> take_positions l p ++ take_positions l q ≡ₚ l.
Proof.
  intros H. rewrite <-take_positions_app. rewrite <-(take_positions_all l) at 2.
  unfold take_positions. by rewrite H.
Qed.

Lemma fmap_take_positions {A B} (g : A -> B) (l : list A) p :
  g <$> take_positions l p = take_positions (g <$> l) p.
Proof.
  unfold take_positions. induction p as [|i p IH]; csimpl; [done|].
  rewrite list_lookup_fmap. destruct (l !! i); csimpl; by rewrite IH.
Qed.

Lemma fst_series_of col f : fst <$> series_of col f = fst <$> rows f.
Proof. unfold series_of. rewrite <-list_fmap_compose. by apply list_fmap_ext. Qed.

Lemma length_series_of col f : length (series_of col f) = length (rows f).
Proof. unfold series_of. by rewrite length_fmap. Qed.

(** The rows that are shuffled are [assembled]. *)
Lemma category_survives (r : gmap string Cell) (c : Cell) (name : string) (x : Cell) :
  name = "index"%string \/ name = "level_0"%string ->
  cell_of "category"
    (foldr delete
       (<[name := x]> (foldr delete (<["category"%string := c]> r)
                             ["title"; "subject"; "date"]%string))
       ["index"]%string) = c.
Proof.
  intros Hname. unfold cell_of. simpl.
  rewrite lookup_delete_ne by done.
  rewrite lookup_insert_ne by (destruct Hname; by subst).
  rewrite !lookup_delete_ne by done. by rewrite lookup_insert_eq.
Qed.

Lemma reset_index_rows f f' :
  reset_index f = inr f' ->
  exists name, (name = "index"%string \/ name = "level_0"%string) /\
    columns f' = name :: columns f /\
    rows f' = imap (fun i r => (i, <[name := CInt (Z.of_nat r.1)]> r.2)) (rows f).
Proof.
  unfold reset_index. repeat case_decide; intros [= <-]; eauto.
Qed.

Lemma drop_columns_rows cols f f' :
  drop_columns cols f = inr f' ->
  columns f' = filter (fun c => c ∉ cols) (columns f) /\
  rows f' = (fun r => (r.1, foldr delete r.2 cols)) <$> rows f.
Proof.
  unfold drop_columns. destruct (list_find _ cols) as [[? ?]|]; [done|]. by intros [= <-].
Qed.

Lemma setitem_const_columns col v f : col ∈ columns (setitem_const col v f).
Proof.
  unfold setitem_const. simpl. case_decide; [done|]. apply elem_of_app. right. by left.
Qed.

Lemma assembled_rows (T F df1 df2 df3 : Frame) :
  drop_columns ["title"; "subject"; "date"]%string
    (pd_concat (setitem_const "category" (CInt 1) T)
               (setitem_const "category" (CInt 0) F)) = inr df1 ->
  reset_index df1 = inr df2 ->
  drop_columns ["index"]%string df2 = inr df3 ->
  "category"%string ∈ columns df3 /\
  assembled (length (rows T)) (length (rows F)) (rows df3).
Proof.
  intros [C1 R1]%drop_columns_rows (name & Hname & C2 & R2)%reset_index_rows
         [C3 R3]%drop_columns_rows.
  split.
  - assert (forall cols : list string,
              bool_decide ("category"%string ∈ cols) = false ->
              "category"%string ∉ cols) as Hnot.
    { intros cols. apply bool_decide_eq_false. }
    rewrite C3, C2, C1. apply list_elem_of_filter. split; [by apply Hnot|].
    right. apply list_elem_of_filter. split; [by apply Hnot|].
    unfold pd_concat. cbn [columns]. apply elem_of_app. left.
    apply setitem_const_columns.
  - split.
    + rewrite R3, length_fmap, R2, length_imap, R1, length_fmap. simpl.
      by rewrite length_app, !length_fmap.
    + intros i lr. rewrite R3, list_lookup_fmap, R2, list_lookup_imap, R1, list_lookup_fmap.
      simpl. intros Hi.
      destruct (decide (i < length (rows T))%nat) as [Hlt|Hge].
      * rewrite lookup_app_l in Hi by (by rewrite length_fmap).
        rewrite list_lookup_fmap in Hi.
        destruct (rows T !! i) as [[lbl r]|]; [|done]. simpl in Hi. simplify_eq.
        split; [done|]. simpl. by apply category_survives.
      * rewrite lookup_app_r in Hi by (rewrite length_fmap; lia).
        rewrite list_lookup_fmap in Hi.
        destruct (rows F !! _) as [[lbl r]|]; [|done]. simpl in Hi. simplify_eq.
        split; [done|]. simpl. by apply category_survives.
Qed.

(** A shuffle of assembled rows, cut at any length, is labelled. *)
Lemma shuffled_labelled n_true n_fake rs p k cols :
  assembled n_true n_fake rs -> p ≡ₚ seq 0 (length rs) ->
  "category"%string ∈ cols ->
  labelled n_true n_fake {| columns := cols; rows := take k (take_positions rs p) |}.
Proof.
  intros [Hlen Hrs] Hp Hcol. split; [done|]. simpl.
  assert (NoDup p) as Hnd by (rewrite Hp; apply NoDup_seq).
  assert (forall lr, lr ∈ take_positions rs p -> lr.1 ∈ p /\ rs !! lr.1 = Some lr) as Hin.
  { intros lr (j & Hj & Hlr)%list_elem_of_omap.
    destruct (Hrs _ _ Hlr) as [-> _]. done. }
  split.
  - rewrite fmap_take. eapply sublist_NoDup; [|apply sublist_take].
    clear Hin Hp. unfold take_positions.
    induction Hnd as [|j p Hj Hnd IH]; simpl; [constructor|].
    destruct (rs !! j) as [lr|] eqn:E; simpl.
    + destruct (Hrs _ _ E) as [-> _]. constructor.
      * intros (lr' & Heq & (i & Hi & Hlr')%list_elem_of_omap)%list_elem_of_fmap.
        destruct (Hrs _ _ Hlr') as [Hi' _]. apply Hj. simpl in Heq.
        by rewrite Heq, Hi'.
      * apply IH. 
    + apply IH.
  - intros label r Hlr. apply elem_of_take in Hlr as (i & Hlr%list_elem_of_lookup_2 & _).
    apply Hin in Hlr as [_ Hlr]. simpl in Hlr.
    pose proof (lookup_lt_Some _ _ _ Hlr) as Hlt.
    destruct (Hrs _ _ Hlr) as [_ Hcat]. simpl in Hcat.
    case_decide; [left|right]; split; try done; lia.
Qed.

Lemma wp_draw n (Q : list nat -> State -> Prop) E st :
  Q (permutation (rng (world st)) n).1
    (on_world (with_rng (permutation (rng (world st)) n).2) st) ->
  wp (draw_permutation n) Q E st.
Proof. unfold wp, draw_permutation. by destruct (permutation _ _). Qed.

Lemma wp_alloc f (Q : loc -> State -> Prop) E st :
  Q (length (heap (world st))) (on_world (fun w => with_heap (heap w ++ [f]) w) st) ->
  wp (alloc f) Q E st.
Proof. done. Qed.

Lemma wp_load l (Q : Frame -> State -> Prop) E st :
  (forall f, heap (world st) !! l = Some f -> Q f st) ->
  (heap (world st) !! l = None -> E (RuntimeError "no such object") st) ->
  wp (load l) Q E st.
Proof. intros HQ HE. unfold wp, load. destruct (_ !! _); auto. Qed.

Lemma wp_df_cached l (Q : loc -> State -> Prop) E st :
  _df (self st) = Some l -> Q l st -> wp df Q E st.
Proof. intros Hl HQ. unfold wp. by rewrite (df_cached st l Hl). Qed.

Lemma column_series col f s : column col f = Some s -> s = series_of col f.
Proof. unfold column. case_decide; [|done]. by intros [= <-]. Qed.

Lemma setitem_text_labelled n_true n_fake s f :
  labelled n_true n_fake f -> labelled n_true n_fake (setitem "text" s f).
Proof.
  intros (Hcol & Hnd & Hrows). split; [|split].
  - unfold setitem. cbn [columns]. case_decide; [done|]. apply elem_of_app. by left.
  - unfold setitem. cbn [rows]. rewrite <-list_fmap_compose.
    erewrite list_fmap_ext; [exact Hnd|]. by intros i [??].
  - intros label r. unfold setitem. cbn [rows].
    intros ([label' r'] & [= -> ->] & Hin)%list_elem_of_fmap. simpl.
    unfold cell_of. rewrite lookup_insert_ne by done. by apply Hrows.
Qed.

Section WithPermutations.
Hypothesis permutation_permutes : forall g n, (permutation g n).1 ≡ₚ seq 0 n.

Lemma create_data_frame_labelled n_true n_fake st :
  frame_labelled n_true n_fake st ->
  wp create_data_frame
     (fun l s => frame_labelled n_true n_fake s /\ same_caches st s /\
                 exists f, heap (world s) !! l = Some f /\ labelled n_true n_fake f)
     (fun _ _ => True) st.
Proof.
  intros (Ht & Hf & Hdf). unfold create_data_frame.
  apply wp_bind, wp_modify. apply wp_bind, wp_gets. cbn.
  apply wp_bind, wp_of_sum; [intros df1 H1|done].
  apply wp_bind, wp_of_sum; [intros df2 H2|done].
  apply wp_bind, wp_of_sum; [intros df3 H3|done].
  apply wp_bind, wp_modify. apply wp_bind, wp_draw. apply wp_alloc. cbn.
  destruct (assembled_rows _ _ _ _ _ H1 H2 H3) as [Hcol Hrows].
  rewrite Ht, Hf in Hrows.
  set (f := df_head _ _).
  assert (labelled n_true n_fake f) as Hlab.
  { unfold f, df_head. cbn [columns rows].
    destruct (0 <=? sample_size (self st))%Z; by apply shuffled_labelled. }
  split; [|split; [done|]].
  - split; [cbn; by rewrite length_fmap|]. split; [cbn; by rewrite length_fmap|].
    cbn. intros l Hl. destruct (Hdf l Hl) as (f0 & Hf0 & Hlab0).
    exists f0. split; [|done]. by apply lookup_app_l_Some.
  - exists f. split; [|done]. by apply list_lookup_middle.
Qed.

Lemma df_labelled n_true n_fake st :
  frame_labelled n_true n_fake st ->
  wp df (fun l s => frame_labelled n_true n_fake s /\ _df (self s) = Some l /\
                    _split (self s) = _split (self st))
        (fun _ _ => True) st.
Proof.
  intros Hst. unfold df. apply wp_bind, wp_gets.
  destruct (_df (self st)) as [l|] eqn:E; [by apply wp_ret|].
  apply wp_bind. eapply wp_mono; [by apply create_data_frame_labelled| |done].
  intros l s1 ((Ht & Hf & _) & (_ & Hs & _) & f & Hl & Hlab). cbn beta.
  apply wp_bind, wp_modify, wp_ret. cbn. repeat split; try done.
  intros l' [= <-]. eauto.
Qed.

Lemma cleanup_text_labelled n_true n_fake st :
  frame_labelled n_true n_fake st ->
  wp cleanup_text
     (fun _ s => frame_labelled n_true n_fake s /\ _split (self s) = _split (self st))
     (fun _ _ => True) st.
Proof.
  intros Hst. open_cleanup_text.
  apply wp_bind. eapply wp_mono; [by apply df_labelled| |done].
  intros l s1 ((Ht & Hf & Hdf) & Hl & Hs1). cbn beta.
  apply wp_bind, wp_load; [|done]. intros f Hlf.
  apply wp_bind. destruct (column "text" f) as [text|]; [apply wp_ret|done].
  apply wp_bind, wp_modify. apply wp_bind, wp_of_sum; [intros cleaned _|done].
  apply wp_bind, (wp_df_cached l); [done|].
  apply wp_bind, wp_load; [|done]. cbn. intros f' Hlf'.
  split; [|done]. split; [done|]. split; [done|]. cbn.
  intros l' Hl'. rewrite Hl in Hl'. injection Hl' as <-.
  destruct (Hdf l Hl) as (f0 & Hf0 & Hlab0). rewrite Hf0 in Hlf'. injection Hlf' as <-.
  eexists. split.
  - apply list_lookup_insert_eq. by eapply lookup_lt_Some.
  - by apply setitem_text_labelled.
Qed.

Lemma pre_processor_labelled n_true n_fake st :
  frame_labelled n_true n_fake st ->
  wp pre_processor
     (fun _ s => frame_labelled n_true n_fake s /\ _split (self s) = _split (self st))
     (fun _ _ => True) st.
Proof.
  intros Hst. open_pre_processor.
  apply wp_bind. eapply wp_mono; [by apply create_data_frame_labelled| |done].
  intros l s1 (H1 & (_ & Hs & _) & _). cbn beta.
  eapply wp_mono; [by apply cleanup_text_labelled| |done].
  intros [] s2 [H2 Hs2]. split; [done|congruence].
Qed.

End WithPermutations.

Lemma TrainTestSplit_split_of l st :
  wp (TrainTestSplit__init__ l)
     (fun sp s => self s = self st /\ heap (world s) = heap (world st) /\ tts_df sp = l /\
                  exists f, heap (world st) !! l = Some f /\ split_of f sp)
     (fun _ _ => True) st.
Proof.
  unfold TrainTestSplit__init__.
  apply wp_bind, wp_load; [|done]. intros f Hf.
  apply wp_bind. unfold attribute.
  destruct (column "text" f) as [text|] eqn:Etext; [apply wp_ret|done].
  apply wp_bind.
  destruct (column "category" f) as [category|] eqn:Ecat; [apply wp_ret|done].
  apply column_series in Etext as ->. apply column_series in Ecat as ->.
  apply wp_bind, wp_modify. apply wp_bind, wp_of_sum; [intros parts Hparts|done].
  apply wp_ret. cbn. repeat split; try done.
  exists f. split; [done|]. by exists parts.
Qed.

Lemma split_of_labelled_frame n_true n_fake (st : State) (sp : TrainTestSplit) (st' : State) :
  (forall g n, (permutation g n).1 ≡ₚ seq 0 n) ->
  frame_labelled n_true n_fake st -> _split (self st) = None ->
  (pre_processor ;;; split) st = Ok sp st' ->
  exists f, _df (self st') = Some (tts_df sp) /\
            heap (world st') !! tts_df sp = Some f /\
            labelled n_true n_fake f /\ split_of f sp.
Proof.
  intros Hperm Hst Hs Hrun.
  assert (wp (pre_processor ;;; split)
            (fun sp s => exists f, _df (self s) = Some (tts_df sp) /\
                           heap (world s) !! tts_df sp = Some f /\
                           labelled n_true n_fake f /\ split_of f sp)
            (fun _ _ => True) st) as Hwp.
  { apply wp_bind. eapply wp_mono; [by apply pre_processor_labelled| |done].
    intros [] s1 [H1 Hs1]. cbn beta. rewrite Hs in Hs1.
    unfold split. apply wp_bind, wp_gets. rewrite Hs1.
    apply wp_bind. eapply wp_mono; [by apply df_labelled| |done].
    intros l s2 ((Ht & Hf & Hl2) & Hl & _). cbn beta.
    apply wp_bind. eapply wp_mono; [apply TrainTestSplit_split_of| |done].
    intros sp0 s3 (Hself & Hheap & <- & f & Hlf & Hsp0). cbn beta.
    apply wp_bind, wp_modify, wp_ret. cbn. rewrite Hself, Hheap.
    destruct (Hl2 _ Hl) as (f' & Hlf' & Hlab). rewrite Hlf in Hlf'. injection Hlf' as <-.
    by exists f. }
  exact (wp_Ok _ _ _ _ _ _ Hwp Hrun).
Qed.

Lemma take_positions_valid {A} (l : list A) p :
  Forall (fun i => i < length l)%nat p -> length (take_positions l p) = length p.
Proof.
  unfold take_positions. induction 1 as [|i p Hi _ IH]; [done|]. csimpl.
  destruct (lookup_lt_is_Some_2 l i Hi) as [x ->]. csimpl. by rewrite IH.
Qed.

Lemma series_of_category n_true n_fake f label c :
  labelled n_true n_fake f -> (label, c) ∈ series_of "category" f ->
  (label < n_true)%nat /\ c = CInt 1 \/
  (n_true <= label < n_true + n_fake)%nat /\ c = CInt 0.
Proof.
  intros (_ & _ & Hrows) ([label' r] & [= -> ->] & Hin)%list_elem_of_fmap.
  by apply Hrows.
Qed.

(** C7, as it holds: after assembly and splitting every document carries
    one label, 1 if it comes from the file of the genuine articles and 0
    if from the other file, so the labels lie in the set of 0 and 1 (both
    are there only when the sample took rows of both files); the train
    and the test part are the text and the category of the sample at the
    positions that the split of scikit-learn answers for the category
    column of that sample, by which it stratifies. Of a generator whose
    permutations are permutations and of a split that answers a partition
    of the positions with eight tenths of them, rounded down, in its first
    part: the frame of the split is the cached sample, its rows have
    distinct index labels and the category that their place in the
    concatenation of the two files dictates; the train and the test
    series together are the text and the category column of the sample,
    row for row with the same index labels in both, no index label is in
    both parts, the train part holds eight tenths of the sample, rounded
    down, and every label of either part is the one of the file that the
    document comes from. *)
Theorem split_partitions_labelled_sample (st : State) (sp : TrainTestSplit) (st' : State) :
  (forall g n, (permutation g n).1 ≡ₚ seq 0 n) ->
  (forall labels parts, split_positions labels = inr parts ->
     parts.1 ++ parts.2 ≡ₚ seq 0 (length labels)) ->
  (forall labels parts, split_positions labels = inr parts ->
     length parts.1 = (8 * length labels / 10)%nat) ->
  _df (self st) = None -> _split (self st) = None ->
  (pre_processor ;;; split) st = Ok sp st' ->
  let n_true := length (rows (true_news (self st))) in
  let n_fake := length (rows (fake_news (self st))) in
  exists f,
    _df (self st') = Some (tts_df sp) /\
    heap (world st') !! tts_df sp = Some f /\
    labelled n_true n_fake f /\
    split_of f sp /\
    text_train sp ++ text_test sp ≡ₚ series_of "text" f /\
    category_train sp ++ category_test sp ≡ₚ series_of "category" f /\
    fst <$> text_train sp = fst <$> category_train sp /\
    fst <$> text_test sp = fst <$> category_test sp /\
    NoDup (fst <$> (text_train sp ++ text_test sp)) /\
    length (text_train sp) = (8 * length (rows f) / 10)%nat /\
    length (category_train sp) = (8 * length (rows f) / 10)%nat /\
    (forall label c, (label, c) ∈ category_train sp ++ category_test sp ->
       (label < n_true)%nat /\ c = CInt 1 \/
       (n_true <= label < n_true + n_fake)%nat /\ c = CInt 0).
Proof.
  intros Hperm Hsplit Hsizes Hdf Hs Hrun n_true n_fake.
  assert (frame_labelled n_true n_fake st) as Hst.
  { split; [done|]. split; [done|]. intros l Hl. congruence. }
  destruct (split_of_labelled_frame _ _ st sp st' Hperm Hst Hs Hrun)
    as (f & Hcache & Hlf & Hlab & parts & Hparts & Htr & Hte & Hctr & Hcte).
  exists f. split; [done|]. split; [done|]. split; [done|].
  split; [by exists parts|].
  pose proof (Hsizes _ _ Hparts) as Hsize.
  apply Hsplit in Hparts. rewrite length_fmap, length_series_of in Hparts, Hsize.
  assert (text_train sp ++ text_test sp ≡ₚ series_of "text" f) as Htext.
  { rewrite Htr, Hte. apply take_positions_partition. by rewrite length_series_of. }
  assert (category_train sp ++ category_test sp ≡ₚ series_of "category" f) as Hcat.
  { rewrite Hctr, Hcte. apply take_positions_partition. by rewrite length_series_of. }
  assert (Forall (fun i => i < length (rows f))%nat parts.1) as Hvalid.
  { apply list.Forall_forall. intros i Hi.
    assert (i ∈ seq 0 (length (rows f))) as Hin.
    { rewrite <-Hparts. apply elem_of_app. by left. }
    apply elem_of_seq in Hin. lia. }
  split; [done|]. split; [done|].
  split; [by rewrite Htr, Hctr, !fmap_take_positions, !fst_series_of|].
  split; [by rewrite Hte, Hcte, !fmap_take_positions, !fst_series_of|].
  split; [rewrite Htext, fst_series_of; by destruct Hlab as (_ & Hnd & _)|].
  split; [rewrite Htr, take_positions_valid; [done|by rewrite length_series_of]|].
  split; [rewrite Hctr, take_positions_valid; [done|by rewrite length_series_of]|].
  intros label c Hin. rewrite Hcat in Hin. by eapply series_of_category.
Qed.

End PipelineFacts.

(** ** The pipeline on the reference libraries *)
Module PipelineOnReference.
Import Reference.

Lemma rotate_permutes (g n : nat) : (permutation g n).1 ≡ₚ seq 0 n.
Proof.
  simpl. unfold rotate. rewrite Permutation_app_comm. by rewrite take_drop.
Qed.

Lemma ordered_split_partitions (labels : list Cell) (parts : list nat * list nat) :
  split_positions labels = inr parts -> parts.1 ++ parts.2 ≡ₚ seq 0 (length labels).
Proof.
  simpl. unfold ordered_split. repeat case_decide; try done. intros [= <-]. simpl.
  rewrite <-seq_app.
  assert (8 * length labels / 10 <= length labels)%nat as Hle
    by (apply Nat.Div0.div_le_upper_bound; lia).
  rewrite Nat.add_comm, Nat.sub_add by done. reflexivity.
Qed.

(** C1 as stated fails on both selectors. [create_model] raises nothing
    for a selector it does not know, it answers [None], and the run ends
    in an [AttributeError] only after both files were read and the data
    sampled and cleaned; an unknown vectorizer selector does raise the
    configuration error, after the files were read and the data sampled,
    cleaned and split. *)
Lemma unsupported_selectors_fail_late :
  create_model (Foreign "svm") = None /\
  outcome log (run_once (Member Tfidf) (Foreign "svm") 6 disk)
  = (Some (AttributeError "fit"),
     [EReadCsv "True.csv"; EReadCsv "Fake.csv"; ESample 6; ESample 6; EClean 1%nat]) /\
  outcome log (run_once (Foreign "bow") (Member nb) 6 disk)
  = (Some (RuntimeError "Unable to determine the vectorizer type."),
     [EReadCsv "True.csv"; EReadCsv "Fake.csv"; ESample 6; ESample 6; EClean 1%nat;
      ESplit 1%nat]).
Proof. split; [reflexivity|]. split; vm_compute; reflexivity. Qed.

Lemma unsupported_vectorizer_raises_after_split_witness :
  let st := fresh_state (Foreign "bow") (Member nb) 6 in
  (vectorizer_type (self st) = Foreign "bow" /\ model (self st) = Some MultinomialNB /\
   _vectorize (self st) = None /\ _split (self st) = None) /\
  exists e st', run strip_tags nltk_stopwords table_lemmatize st = Raise e st' /\
    prepared st st' /\
    (_split (self st') <> None ->
     e = RuntimeError "Unable to determine the vectorizer type.").
Proof.
  intros st. split; [by repeat split|].
  destruct (unsupported_vectorizer_raises_after_split strip_tags nltk_stopwords
              table_lemmatize) as [_ H].
  apply (H st "bow"%string MultinomialNB); reflexivity.
Defined.

Lemma df_is_sampled_once_witness :
  let st := fresh_state (Member Tfidf) (Member nb) 6 in
  let st1 := final (df st) in
  (df st = Ok 0%nat st1 /\ coherent st) /\
  _df (self st1) = Some 0%nat /\
  (forall cs, df (calls strip_tags nltk_stopwords table_lemmatize cs st1)
              = Ok 0%nat (calls strip_tags nltk_stopwords table_lemmatize cs st1)).
Proof.
  intros st st1.
  assert (df st = Ok 0%nat st1) as Hdf by (apply returned_Ok; vm_compute; reflexivity).
  assert (coherent st) as Hc by (split; intros ? [=]).
  destruct (df_is_sampled_once strip_tags nltk_stopwords table_lemmatize st 0%nat st1 Hdf)
    as (H1 & H2 & _).
  exact (conj (conj Hdf Hc) (conj H1 H2)).
Defined.

Lemma ordered_split_sizes (labels : list Cell) (parts : list nat * list nat) :
  split_positions labels = inr parts -> length parts.1 = (8 * length labels / 10)%nat.
Proof.
  simpl. unfold ordered_split. repeat case_decide; try done. intros [= <-]. simpl.
  by rewrite length_seq.
Qed.

(** C7 as stated fails: the label set need not be the set of 0 and 1. Of
    the three and three articles two are sampled, both from the file of
    the genuine articles; the split takes one for training and one for
    testing, and no document carries the label 0. *)
Lemma one_class_sample_is_split :
  let st := fresh_state (Member Tfidf) (Member nb) 2 in
  (fun sp => (category_train sp, category_test sp))
    <$> returned ((pre_processor strip_tags nltk_stopwords table_lemmatize ;;; split) st)
  = Some ([(1%nat, CInt 1)], [(2%nat, CInt 1)]).
Proof. vm_compute. reflexivity. Qed.

Lemma split_partitions_labelled_sample_witness :
  let st := fresh_state (Member Tfidf) (Member nb) 6 in
  exists sp st' f,
    (pre_processor strip_tags nltk_stopwords table_lemmatize ;;; split) st = Ok sp st' /\
    heap (world st') !! tts_df sp = Some f /\
    labelled 3 3 f /\
    split_of f sp /\
    text_train sp ++ text_test sp ≡ₚ series_of "text" f /\
    NoDup (fst <$> (text_train sp ++ text_test sp)) /\
    length (text_train sp) = (8 * length (rows f) / 10)%nat /\
    (forall label c, (label, c) ∈ category_train sp ++ category_test sp ->
       (label < 3)%nat /\ c = CInt 1 \/ (3 <= label < 3 + 3)%nat /\ c = CInt 0).
Proof.
  intros st.
  destruct (succeeded_Ok
              ((pre_processor strip_tags nltk_stopwords table_lemmatize ;;; split) st))
    as (sp & st' & Hrun); [vm_compute; reflexivity|].
  destruct (split_partitions_labelled_sample strip_tags nltk_stopwords table_lemmatize
              st sp st' rotate_permutes ordered_split_partitions ordered_split_sizes
              eq_refl eq_refl Hrun)
    as (f & _ & Hf & Hlab & Hof & Htext & _ & _ & _ & Hnd & Hlen & _ & Hcat).
  exists sp, st', f.
  exact (conj Hrun (conj Hf (conj Hlab (conj Hof (conj Htext (conj Hnd (conj Hlen Hcat))))))).
Defined.


End PipelineOnReference.

(** * The steps of the pipeline, one by one *)

Section StepsOfThePipeline.
Context {UCD : Unicode} {NP : Numpy} {SK : Sklearn}.
Variable strip_html : str -> str.
Variable stopwords_english : list str.
Variable lemmatize : str -> str.

Ltac open_cleanup_text := unfold cleanup_text.
Ltac open_pre_processor := unfold pre_processor.
Ltac open_run := unfold run.
Ltac open_call := unfold call.

Abbreviation cleanup_text := (cleanup_text strip_html stopwords_english lemmatize).
Abbreviation pre_processor := (pre_processor strip_html stopwords_english lemmatize).
Abbreviation run := (run strip_html stopwords_english lemmatize).
Abbreviation call := (call strip_html stopwords_english lemmatize).
Abbreviation calls := (calls strip_html stopwords_english lemmatize).

Ltac always_go db :=
  repeat first
    [ progress intros
    | solve [eauto with db]
    | apply always_ret | apply always_raise | apply always_gets | apply always_of_sum
    | apply always_load | apply always_attribute
    | match goal with
      | |- Reflexive _ => exact _
      | |- Transitive _ => exact _
      | |- always _ (match ?x with _ => _ end) => destruct x
      | |- always _ (bind _ _) => apply always_bind
      end ].

(** ** What [create_data_frame] does *)

Lemma create_data_frame_runs st :
  create_data_frame st =
  match assemble (true_news (self st)) (fake_news (self st)) with
  | inl e => Raise e (marked st)
  | inr df =>
      Ok (length (heap (world st)))
         {| self := self (marked st);
            world := {| files := files (world st);
                        rng := (permutation (rng (world st)) (length (rows df))).2;
                        heap := heap (world st) ++ [sample_of st df];
                        log := log (world st) ++ [ESample (length (rows df))] |} |}
  end.
Proof.
  unfold create_data_frame, assemble, bind, modify, gets, of_sum, ret, raise, emit, alloc,
    draw_permutation, sample_of, marked.
  cbn.
  destruct (drop_columns _ (pd_concat _ _)) as [e|df1]; [done|]. cbn.
  destruct (reset_index df1) as [e|df2]; [done|]. cbn.
  destruct (drop_columns _ df2) as [e|df3]; [done|]. cbn.
  by destruct (permutation _ _).
Qed.

Lemma assemble_parts T F df :
  assemble T F = inr df ->
  exists df1 df2,
    drop_columns ["title"; "subject"; "date"]%string
      (pd_concat (setitem_const "category" (CInt 1) T)
                 (setitem_const "category" (CInt 0) F)) = inr df1 /\
    reset_index df1 = inr df2 /\
    drop_columns ["index"]%string df2 = inr df.
Proof.
  unfold assemble. destruct (drop_columns _ (pd_concat _ _)) as [|df1]; [done|].
  destruct (reset_index df1) as [|df2] eqn:E; [done|]. intros H. by exists df1, df2.
Qed.

Lemma assemble_assembled T F df :
  assemble T F = inr df ->
  "category"%string ∈ columns df /\ assembled (length (rows T)) (length (rows F)) (rows df).
Proof.
  intros (df1 & df2 & H1 & H2 & H3)%assemble_parts. by eapply assembled_rows.
Qed.

Lemma carried_over_survives (r : gmap string Cell) (c x : Cell) (name col : string) :
  name = "index"%string \/ name = "level_0"%string -> carried_over col ->
  foldr delete
    (<[name := x]> (foldr delete (<["category"%string := c]> r)
                          ["title"; "subject"; "date"]%string))
    ["index"]%string !! col = r !! col.
Proof.
  unfold carried_over. rewrite !not_elem_of_cons. intros Hname (?&?&?&?&?&?&_). simpl.
  rewrite lookup_delete_ne by done.
  rewrite lookup_insert_ne by (destruct Hname; by subst).
  rewrite !lookup_delete_ne by done. by rewrite lookup_insert_ne.
Qed.

(** A row of the assembled frame is a row of one of the two corpora:
    which one, the place of the row tells, and the cells of the columns
    that are carried over are those of that row. *)
Lemma assemble_carries T F df i lr :
  assemble T F = inr df -> rows df !! i = Some lr ->
  exists lr0,
    (if decide (i < length (rows T))%nat then rows T !! i
     else rows F !! (i - length (rows T))%nat) = Some lr0 /\
    forall col, carried_over col -> lr.2 !! col = lr0.2 !! col.
Proof.
  intros (df1 & df2 & [C1 R1]%drop_columns_rows & (name & Hname & C2 & R2)%reset_index_rows
          & [C3 R3]%drop_columns_rows)%assemble_parts.
  rewrite R3, list_lookup_fmap, R2, list_lookup_imap, R1, list_lookup_fmap. simpl.
  intros Hi. case_decide as Hlt.
  - rewrite lookup_app_l in Hi by (by rewrite length_fmap).
    rewrite list_lookup_fmap in Hi.
    destruct (rows T !! i) as [[lbl r]|]; [|done]. simpl in Hi. simplify_eq.
    eexists. split; [done|]. intros col Hcol. simpl. by apply carried_over_survives.
  - rewrite lookup_app_r in Hi by (rewrite length_fmap; lia).
    rewrite list_lookup_fmap, length_fmap in Hi.
    destruct (rows F !! _) as [[lbl r]|]; [|done]. simpl in Hi. simplify_eq.
    eexists. split; [done|]. intros col Hcol. simpl. by apply carried_over_survives.
Qed.

Lemma sample_of_rows st df lr :
  lr ∈ rows (sample_of st df) -> exists i, rows df !! i = Some lr.
Proof.
  unfold sample_of, df_head. cbn [rows].
  assert (forall k, lr ∈ take k (take_positions (rows df)
            (permutation (rng (world st)) (length (rows df))).1) ->
          exists i, rows df !! i = Some lr) as H.
  { intros k (j & Hj%list_elem_of_lookup_2 & _)%elem_of_take.
    apply list_elem_of_omap in Hj as (i & _ & Hi). by exists i. }
  destruct (0 <=? _)%Z; apply H.
Qed.

(** X13: The rows of the sample are rows of the two files. A row with a label
    below the number of rows of the first file is the row of the first
    file at that place, with category 1; a row with a label from there on
    is the row of the second file at the place counted from there, with
    category 0; the cells of the columns that are carried over, the text
    among them, are those of the file. *)
Theorem sample_rows_come_from_files (st : State) (l : loc) (st' : State) :
  create_data_frame st = Ok l st' ->
  exists f, heap (world st') !! l = Some f /\
    forall label r, (label, r) ∈ rows f ->
      exists lr0,
        (if decide (label < length (rows (true_news (self st))))%nat
         then rows (true_news (self st)) !! label
         else rows (fake_news (self st)) !! (label - length (rows (true_news (self st))))%nat)
        = Some lr0 /\
        cell_of "category" r
        = CInt (if decide (label < length (rows (true_news (self st))))%nat then 1 else 0) /\
        forall col, carried_over col -> r !! col = lr0.2 !! col.
Proof.
  rewrite create_data_frame_runs.
  destruct (assemble _ _) as [e|df] eqn:E; [done|]. intros [= <- <-]. cbn.
  exists (sample_of st df). split; [by apply list_lookup_middle|].
  intros label r (i & Hi)%sample_of_rows.
  destruct (assemble_assembled _ _ _ E) as [_ [_ Hrows]].
  destruct (Hrows _ _ Hi) as [Hlabel Hcat]. simpl in Hlabel, Hcat. subst i.
  destruct (assemble_carries _ _ _ _ _ E Hi) as (lr0 & Hlr0 & Hcols).
  exists lr0. done.
Qed.

Lemma take_positions_length {A} (l : list A) p :
  p ≡ₚ seq 0 (length l) -> length (take_positions l p) = length l.
Proof.
  intros Hp. apply Permutation_length.
  rewrite <-(app_nil_r (take_positions l p)).
  apply (take_positions_partition l p []). by rewrite app_nil_r.
Qed.

(** X14: The sample holds [sample_size] rows, or all the rows of the two
    files when they are fewer; of a negative [sample_size] it holds all
    rows but that many. Stated of a draw that is a permutation. *)
Theorem sample_has_sample_size_rows (st : State) (l : loc) (st' : State) :
  let n := (length (rows (true_news (self st))) + length (rows (fake_news (self st))))%nat in
  (permutation (rng (world st)) n).1 ≡ₚ seq 0 n ->
  create_data_frame st = Ok l st' ->
  exists f, heap (world st') !! l = Some f /\
    length (rows f) =
      if (0 <=? sample_size (self st))%Z
      then (Z.to_nat (sample_size (self st)) `min` n)%nat
      else (n - Z.to_nat (- sample_size (self st)))%nat.
Proof.
  intros n Hp. rewrite create_data_frame_runs.
  destruct (assemble _ _) as [e|df] eqn:E; [done|]. intros [= <- <-]. cbn.
  exists (sample_of st df). split; [by apply list_lookup_middle|].
  destruct (assemble_assembled _ _ _ E) as [_ [Hlen _]]. fold n in Hlen.
  unfold sample_of, df_head. cbn [rows]. rewrite Hlen.
  destruct (0 <=? _)%Z; rewrite length_take, take_positions_length by (by rewrite Hlen); lia.
Qed.

Lemma drop_columns_missing cols f col :
  col ∈ cols -> col ∉ columns f ->
  exists k, drop_columns cols f = inl (KeyError k) /\ k ∈ cols /\ k ∉ columns f.
Proof.
  intros Hin Hout. unfold drop_columns.
  destruct (list_find (fun c => c ∉ columns f) cols) as [[i k]|] eqn:E.
  - apply list_find_Some in E as (Hk%list_elem_of_lookup_2 & Hno & _). by exists k.
  - apply list_find_None in E. eapply list.Forall_forall in E; [|exact Hin]. done.
Qed.

(** X15: When neither file has one of the columns [title], [subject] and
    [date], [create_data_frame] raises a [KeyError] for a column that is
    missing: no permutation has been drawn and no frame made by then, and
    the two corpora of the instance hold their category already. *)
Theorem create_data_frame_needs_the_columns (st : State) (col : string) :
  col ∈ ["title"; "subject"; "date"]%string ->
  col ∉ columns (true_news (self st)) -> col ∉ columns (fake_news (self st)) ->
  exists k,
    create_data_frame st = Raise (KeyError k) (marked st) /\
    k ∈ ["title"; "subject"; "date"]%string /\
    (k ∉ columns (true_news (self st))) /\ (k ∉ columns (fake_news (self st))) /\
    world (marked st) = world st.
Proof.
  intros Hcol Ht Hf. rewrite create_data_frame_runs. unfold assemble.
  assert (forall c : string, c ∈ ["title"; "subject"; "date"]%string ->
            c ∉ columns (pd_concat (setitem_const "category" (CInt 1) (true_news (self st)))
                                   (setitem_const "category" (CInt 0) (fake_news (self st))))
            <-> (c ∉ columns (true_news (self st))) /\ (c ∉ columns (fake_news (self st)))) as Hiff.
  { intros c Hc. assert (c <> "category"%string) as Hne.
    { intros ->. revert Hc. rewrite !elem_of_cons. intros [?|[?|[?|?%elem_of_nil]]]; done. }
    unfold pd_concat, setitem_const. cbn [columns].
    rewrite elem_of_app, list_elem_of_filter.
    repeat case_decide; rewrite ?elem_of_app, ?list_elem_of_singleton; tauto. }
  destruct (drop_columns_missing ["title"; "subject"; "date"]%string
              (pd_concat (setitem_const "category" (CInt 1) (true_news (self st)))
                         (setitem_const "category" (CInt 0) (fake_news (self st)))) col)
    as (k & -> & Hk & Hno); [done|by apply Hiff|].
  exists k. apply Hiff in Hno as [? ?]; [|done]. done.
Qed.

Lemma setitem_const_twice col v f :
  setitem_const col v (setitem_const col v f) = setitem_const col v f.
Proof.
  unfold setitem_const. cbn [columns rows]. f_equal.
  - case_decide as H; [done|]. exfalso. apply H. apply (setitem_const_columns col v f).
  - rewrite <-list_fmap_compose. apply list_fmap_ext. intros i [label r] _. simpl.
    by rewrite insert_insert_eq.
Qed.

(** X16: [create_data_frame] writes the category into the two corpora that
    the instance holds, however it ends, and touches no cache; a second
    call finds them written and leaves them as they are. *)
Theorem create_data_frame_marks_the_corpora (st : State) :
  let st1 := final (create_data_frame st) in
  let st2 := final (create_data_frame st1) in
  true_news (self st1) = setitem_const "category" (CInt 1) (true_news (self st)) /\
  fake_news (self st1) = setitem_const "category" (CInt 0) (fake_news (self st)) /\
  same_caches st st1 /\
  true_news (self st2) = true_news (self st1) /\
  fake_news (self st2) = fake_news (self st1).
Proof.
  assert (forall s, self (final (create_data_frame s)) = self (marked s)) as H.
  { intros s. rewrite create_data_frame_runs. by destruct (assemble _ _). }
  intros st1 st2.
  assert (self st1 = self (marked st)) as H1 by apply H.
  assert (self st2 = self (marked st1)) as H2 by apply H.
  assert (same_caches st st1) as Hc.
  { unfold same_caches. by rewrite H1. }
  rewrite H2. unfold marked. cbn. rewrite H1. cbn.
  by rewrite !setitem_const_twice.
Qed.

(** ** What [cleanup_text] does *)

Lemma series_apply_inr g (s out : list (nat * Cell)) :
  series_apply g s = inr out ->
  Forall2 (fun e e' => e'.1 = e.1 /\ exists t, e.2 = CStr t /\ e'.2 = CStr (g t)) s out.
Proof.
  revert out. induction s as [|[label c] s IH]; intros out; simpl.
  - intros [= <-]. constructor.
  - destruct c as [t| |]; try done.
    destruct (series_apply g s) as [|out']; [done|]. intros [= <-].
    constructor; [|by apply IH]. split; [done|]. by exists t.
Qed.

Lemma series_apply_labels g (s out : list (nat * Cell)) :
  series_apply g s = inr out -> fst <$> out = fst <$> s.
Proof.
  intros H%series_apply_inr. induction H as [|e e' s out [He _] _ IH]; [done|].
  csimpl. by rewrite He, IH.
Qed.

Lemma series_apply_inl g (s : list (nat * Cell)) e :
  e ∈ s -> (forall t, e.2 <> CStr t) -> exists msg, series_apply g s = inl (TypeError msg).
Proof.
  intros Hin Hbad. induction s as [|[label c] s IH]; [by apply elem_of_nil in Hin|].
  simpl. destruct c as [t| |]; try by eexists.
  apply elem_of_cons in Hin as [->|Hin]; [by destruct (Hbad t)|].
  destruct (IH Hin) as [msg ->]. by eexists.
Qed.

Lemma series_at_lookup (s : list (nat * Cell)) i label v :
  NoDup (fst <$> s) -> s !! i = Some (label, v) -> series_at s label = v.
Proof.
  intros Hnd Hi. unfold series_at.
  destruct (list_find (fun e : nat * Cell => e.1 = label) s) as [[j [label' v']]|] eqn:E.
  - apply list_find_Some in E as (Hj & Hl & _). simpl in Hl. subst label'.
    assert (i = j) as ->; [|congruence].
    apply (NoDup_lookup _ _ _ label Hnd); rewrite list_lookup_fmap.
    + by rewrite Hi.
    + by rewrite Hj.
  - apply list_find_None in E. exfalso.
    eapply list.Forall_forall in E; [|by eapply list_elem_of_lookup_2]. by apply E.
Qed.

Lemma cleanup_text_runs st l f :
  _df (self st) = Some l -> heap (world st) !! l = Some f ->
  cleanup_text st =
  match column "text" f with
  | None => Raise (KeyError "text") st
  | Some text =>
      let st1 := on_world (fun w => with_log (log w ++ [EClean l]) w) st in
      match series_apply (clean_text strip_html stopwords_english lemmatize) text with
      | inl e => Raise e st1
      | inr cleaned =>
          Ok tt (on_world (fun w => with_heap (<[l := setitem "text" cleaned f]> (heap w)) w) st1)
      end
  end.
Proof.
  intros Hl Hf. open_cleanup_text. unfold bind at 1. rewrite (df_cached st l Hl).
  unfold bind at 1. unfold load at 1. rewrite Hf.
  unfold bind at 1. destruct (column "text" f) as [text|]; [|done].
  unfold ret at 1. unfold bind at 1. unfold emit at 1, modify at 1.
  unfold bind at 1.
  destruct (series_apply _ text) as [e|cleaned]; [done|].
  unfold of_sum, ret at 1. unfold bind at 1.
  rewrite (df_cached _ l) by done.
  unfold bind, load, store, modify. cbn. by rewrite Hf.
Qed.

(** X17: [cleanup_text] puts the cleaned text in the place of the text of each
    row of the cached frame and changes nothing else: the rows, their
    labels and their other cells, the columns, the instance. Stated of a
    frame whose labels are distinct, on which the assignment by label is
    an assignment row by row. *)
Theorem cleanup_text_cleans_each_text (st : State) (l : loc) (f : Frame) (st' : State) :
  _df (self st) = Some l -> heap (world st) !! l = Some f ->
  NoDup (fst <$> rows f) ->
  cleanup_text st = Ok tt st' ->
  exists f',
    heap (world st') = <[l := f']> (heap (world st)) /\
    self st' = self st /\
    columns f' = columns f /\
    Forall2 (fun lr lr' =>
               lr'.1 = lr.1 /\
               exists t, cell_of "text" lr.2 = CStr t /\
                 lr'.2 = <["text"%string :=
                             CStr (clean_text strip_html stopwords_english lemmatize t)]> lr.2)
            (rows f) (rows f').
Proof.
  intros Hl Hf Hnd. rewrite (cleanup_text_runs st l f Hl Hf).
  destruct (column "text" f) as [text|] eqn:Etext; [|done]. cbn zeta.
  destruct (series_apply _ text) as [|cleaned] eqn:Eapply; [done|]. intros [= <-].
  exists (setitem "text" cleaned f). split; [done|]. split; [done|].
  assert ("text"%string ∈ columns f) as Hcol.
  { unfold column in Etext. by case_decide. }
  split; [unfold setitem; cbn; by case_decide|].
  apply column_series in Etext as ->.
  pose proof (series_apply_labels _ _ _ Eapply) as Hlabels.
  apply series_apply_inr in Eapply.
  unfold setitem. cbn [rows]. apply Forall2_fmap_r.
  apply Forall2_same_length_lookup_2; [done|].
  intros i [label r] [label' r'] Hi Hi'. rewrite Hi in Hi'. injection Hi' as <- <-. cbn.
  split; [done|].
  assert (series_of "text" f !! i = Some (label, cell_of "text" r)) as Hs.
  { unfold series_of, Series. by rewrite list_lookup_fmap, Hi. }
  destruct (Forall2_lookup_l _ _ _ _ _ Eapply Hs) as ([label2 v] & Hc & Hlab & t & Ht & Hv).
  cbn in Hlab, Ht, Hv. subst label2 v. exists t. split; [done|]. f_equal.
  apply (series_at_lookup cleaned i label).
  - unfold Series in *. by rewrite Hlabels, fst_series_of.
  - done.
Qed.

(** X18: [cleanup_text] asks for the column [text] by name: without it, it
    raises a [KeyError] and nothing has happened. With it, one row whose
    text is no string (a cell that the file left empty) ends the call in
    a [TypeError], and the frame is as it was: no text has been cleaned. *)
Theorem cleanup_text_needs_texts (st : State) (l : loc) (f : Frame) :
  _df (self st) = Some l -> heap (world st) !! l = Some f ->
  ("text"%string ∉ columns f -> cleanup_text st = Raise (KeyError "text") st) /\
  ("text"%string ∈ columns f ->
   (exists lr, lr ∈ rows f /\ forall t, cell_of "text" lr.2 <> CStr t) ->
   exists msg st', cleanup_text st = Raise (TypeError msg) st' /\
     heap (world st') = heap (world st) /\ self st' = self st).
Proof.
  intros Hl Hf. rewrite (cleanup_text_runs st l f Hl Hf). unfold column. split.
  - intros Hno. by rewrite decide_False.
  - intros Hcol (lr & Hin & Hbad). rewrite decide_True by done. cbn zeta.
    destruct (series_apply_inl (clean_text strip_html stopwords_english lemmatize)
                ((fun r => (r.1, cell_of "text" r.2)) <$> rows f) (lr.1, cell_of "text" lr.2))
      as [msg ->]; [|done|by eexists _, _].
    apply list_elem_of_fmap. by exists lr.
Qed.

(** ** What a run asks of the libraries *)

Lemma wp_create_data_frame (Q : loc -> State -> Prop) (E : exn -> State -> Prop) st :
  (forall df, assemble (true_news (self st)) (fake_news (self st)) = inr df ->
     Q (length (heap (world st)))
       {| self := self (marked st);
          world := {| files := files (world st);
                      rng := (permutation (rng (world st)) (length (rows df))).2;
                      heap := heap (world st) ++ [sample_of st df];
                      log := log (world st) ++ [ESample (length (rows df))] |} |}) ->
  (forall e, assemble (true_news (self st)) (fake_news (self st)) = inl e -> E e (marked st)) ->
  wp create_data_frame Q E st.
Proof.
  intros HQ HE. unfold wp. rewrite create_data_frame_runs.
  destruct (assemble _ _); auto.
Qed.

Lemma assemble_marked T F :
  assemble (setitem_const "category" (CInt 1) T) (setitem_const "category" (CInt 0) F)
  = assemble T F.
Proof. unfold assemble. by rewrite !setitem_const_twice. Qed.

Lemma assemble_length T F df :
  assemble T F = inr df -> length (rows df) = (length (rows T) + length (rows F))%nat.
Proof. by intros [_ [Hlen _]]%assemble_assembled. Qed.

Lemma bind_Ok {S A B} (c : M S A) (k : A -> M S B) s b s' :
  bind c k s = Ok b s' -> exists a s1, c s = Ok a s1 /\ k a s1 = Ok b s'.
Proof. unfold bind. destruct (c s) as [a s1|]; [by eauto|done]. Qed.

Lemma wp_emit ev (Q : unit -> State -> Prop) E st :
  Q tt (on_world (fun w => with_log (log w ++ [ev]) w) st) -> wp (emit ev) Q E st.
Proof. done. Qed.

Lemma wp_store l f (Q : unit -> State -> Prop) E st :
  Q tt (on_world (fun w => with_heap (<[l := f]> (heap w)) w) st) -> wp (store l f) Q E st.
Proof. done. Qed.

(** [pre_processor] on an instance without a sample: the first sample is
    made and dropped, the second is made for the cache and cleaned. *)
Lemma pre_processor_fresh st :
  _df (self st) = None ->
  wp pre_processor
     (fun _ s =>
        let n := (length (rows (true_news (self st))) + length (rows (fake_news (self st))))%nat in
        let h := length (heap (world st)) in
        log (world s) = log (world st) ++ [ESample n; ESample n; EClean (S h)] /\
        length (heap (world s)) = S (S h) /\
        rng (world s) = (permutation (permutation (rng (world st)) n).2 n).2 /\
        self s = with_df (Some (S h)) (self (marked st)) /\
        files (world s) = files (world st))
     (fun _ _ => True) st.
Proof.
  intros Hd. open_pre_processor.
  apply wp_bind, wp_create_data_frame; [intros df1 H1|done].
  open_cleanup_text. apply wp_bind. unfold df. apply wp_bind, wp_gets.
  cbn [self marked on_self with_news _df]. rewrite Hd.
  apply wp_bind, wp_create_data_frame; [intros df2 H2|done].
  cbn in H2. rewrite assemble_marked in H2. rewrite H1 in H2. injection H2 as <-.
  apply wp_bind, wp_modify, wp_ret.
  apply wp_bind, wp_load; [intros f Hf|done].
  apply wp_bind. destruct (column "text" f) as [text|]; [apply wp_ret|done].
  apply wp_bind, wp_emit. apply wp_bind, wp_of_sum; [intros cleaned _|done].
  apply wp_bind, (wp_df_cached (S (length (heap (world st))))).
  { cbn. by rewrite length_app, Nat.add_1_r. }
  apply wp_bind, wp_load; [intros f' Hf'|done]. apply wp_store. cbn. clear Hf Hf'.
  rewrite (assemble_length _ _ _ H1), !setitem_const_twice, length_insert, !length_app.
  cbn [length]. rewrite !Nat.add_1_r.
  split; [by rewrite <-!app_assoc|]. done.
Qed.

(** [pre_processor] on an instance with its sample: one more sample is
    made and dropped, and the sample of the cache is cleaned. *)
Lemma pre_processor_cached st l :
  _df (self st) = Some l ->
  wp pre_processor
     (fun _ s =>
        let n := (length (rows (true_news (self st))) + length (rows (fake_news (self st))))%nat in
        log (world s) = log (world st) ++ [ESample n; EClean l] /\
        length (heap (world s)) = S (length (heap (world st))) /\
        rng (world s) = (permutation (rng (world st)) n).2 /\
        self s = self (marked st))
     (fun _ _ => True) st.
Proof.
  intros Hd. open_pre_processor.
  apply wp_bind, wp_create_data_frame; [intros df1 H1|done].
  open_cleanup_text. apply wp_bind, (wp_df_cached l); [done|].
  apply wp_bind, wp_load; [intros f Hf|done].
  apply wp_bind. destruct (column "text" f) as [text|]; [apply wp_ret|done].
  apply wp_bind, wp_emit. apply wp_bind, wp_of_sum; [intros cleaned _|done].
  apply wp_bind, (wp_df_cached l); [done|].
  apply wp_bind, wp_load; [intros f' Hf'|done]. apply wp_store. cbn. clear Hf Hf'.
  rewrite (assemble_length _ _ _ H1), length_insert, !length_app.
  cbn [length]. rewrite !Nat.add_1_r.
  split; [by rewrite <-!app_assoc|]. done.
Qed.

(** X19: [pre_processor] calls [create_data_frame] and leaves what it answers
    alone: a sample is drawn and a frame made that nobody holds. On an
    instance without a sample the property [df] then draws the sample
    that is kept and cleaned, so two permutations have been drawn; on an
    instance with its sample that sample is cleaned (again, if it was
    clean), and one permutation has been drawn for nothing. *)
Theorem pre_processor_discards_a_sample (st st' : State) :
  pre_processor st = Ok tt st' ->
  let n := (length (rows (true_news (self st))) + length (rows (fake_news (self st))))%nat in
  let h := length (heap (world st)) in
  (_df (self st) = None ->
   log (world st') = log (world st) ++ [ESample n; ESample n; EClean (S h)] /\
   _df (self st') = Some (S h) /\
   length (heap (world st')) = S (S h) /\
   rng (world st') = (permutation (permutation (rng (world st)) n).2 n).2) /\
  (forall l, _df (self st) = Some l ->
   log (world st') = log (world st) ++ [ESample n; EClean l] /\
   _df (self st') = Some l /\
   length (heap (world st')) = S h /\
   rng (world st') = (permutation (rng (world st)) n).2).
Proof.
  intros Hrun n h. split.
  - intros Hd. destruct (wp_Ok _ _ _ _ _ _ (pre_processor_fresh st Hd) Hrun)
      as (Hlog & Hheap & Hrng & Hself & _).
    rewrite Hself. done.
  - intros l Hd. destruct (wp_Ok _ _ _ _ _ _ (pre_processor_cached st l Hd) Hrun)
      as (Hlog & Hheap & Hrng & Hself).
    rewrite Hself. done.
Qed.

Ltac settle :=
  unfold on_self, on_world, with_log, with_heap, with_rng; cbn;
  rewrite <-?app_assoc; try done.

Lemma split_made st l :
  _df (self st) = Some l -> _split (self st) = None ->
  wp split
     (fun sp s => s = {| self := with_split (Some sp) (self st);
                         world := with_log (log (world st) ++ [ESplit l]) (world st) |})
     (fun _ _ => True) st.
Proof.
  intros Hd Hs. unfold split. apply wp_bind, wp_gets. rewrite Hs.
  apply wp_bind, (wp_df_cached l); [done|].
  apply wp_bind. unfold TrainTestSplit__init__.
  apply wp_bind, wp_load; [intros f Hf|done].
  apply wp_bind. unfold attribute. destruct (column "text" f); [apply wp_ret|done].
  apply wp_bind. destruct (column "category" f); [apply wp_ret|done].
  apply wp_bind, wp_emit. apply wp_bind, wp_of_sum; [intros parts _|done].
  apply wp_ret. apply wp_bind, wp_modify, wp_ret. settle.
Qed.

Lemma split_cached st sp (Q : TrainTestSplit -> State -> Prop) E :
  _split (self st) = Some sp -> Q sp st -> wp split Q E st.
Proof. intros Hs HQ. unfold wp, split, bind, gets. by rewrite Hs. Qed.

Lemma vectorize_cached st vz (Q : Vectorize -> State -> Prop) E :
  _vectorize (self st) = Some vz -> Q vz st -> wp vectorize Q E st.
Proof. intros Hs HQ. unfold wp, vectorize, bind, gets. by rewrite Hs. Qed.

Lemma vectorize_made st l :
  _df (self st) = Some l -> _split (self st) = None -> _vectorize (self st) = None ->
  wp vectorize
     (fun vz s =>
        s = {| self := with_vectorize (Some vz) (with_split (Some (v_split vz)) (self st));
               world := with_log (log (world st) ++
                                  [ESplit l; EFitTransform; ETransform;
                                   EPrint "Train: shape"; EPrint "Test: shape"])
                                 (world st) |})
     (fun _ _ => True) st.
Proof.
  intros Hd Hs Hv. unfold vectorize. apply wp_bind, wp_gets. rewrite Hv.
  apply wp_bind. eapply wp_mono; [by apply (split_made st l)| |done].
  intros sp s ->. cbn beta. apply wp_bind, wp_gets. cbn [self vectorizer_type with_split].
  apply wp_bind. unfold Vectorize__init__. apply wp_bind.
  destruct (vectorizer_type (self st)) as [[]|]; [apply wp_ret|apply wp_ret|done].
  all: apply wp_bind, wp_emit; apply wp_bind, wp_of_sum; [intros fitted _|done];
    apply wp_bind, wp_emit; apply wp_bind, wp_of_sum; [intros tested _|done];
    apply wp_bind, wp_emit; apply wp_bind, wp_emit; apply wp_ret;
    apply wp_bind, wp_modify, wp_ret; settle.
Qed.

(** [fit] on an instance with its sample and nothing else: the split is
    made, the vectorizer fitted on the training texts, the test texts
    transformed, the model fitted. *)
Lemma fit_trace st l :
  _df (self st) = Some l -> _split (self st) = None -> _vectorize (self st) = None ->
  wp Model_fit
     (fun _ s =>
        log (world s) = log (world st) ++
          [ESplit l; EFitTransform; ETransform; EPrint "Train: shape"; EPrint "Test: shape";
           EFit] /\
        heap (world s) = heap (world st) /\ files (world s) = files (world st) /\
        _df (self s) = Some l /\ is_Some (_split (self s)) /\ is_Some (_vectorize (self s)) /\
        _score (self s) = _score (self st) /\ is_Some (model (self s)))
     (fun _ _ => True) st.
Proof.
  intros Hd Hs Hv. unfold Model_fit. apply wp_bind. unfold model_attribute.
  apply wp_bind, wp_gets. destruct (model (self st)) as [est|]; [apply wp_ret|done].
  apply wp_bind. eapply wp_mono; [by apply (vectorize_made st l)| |done].
  intros vz s ->. cbn beta.
  apply wp_bind, (split_cached _ (v_split vz)); [done|].
  apply wp_bind, wp_emit. apply wp_bind, wp_gets.
  apply wp_bind, wp_of_sum; [intros fitted _|done].
  apply wp_bind, wp_modify, wp_modify. settle.
Qed.

Lemma wp_model_type_value (Q : string -> State -> Prop) st :
  (forall name, Q name st) -> wp model_type_value Q (fun _ _ => True) st.
Proof.
  intros HQ. unfold model_type_value. apply wp_bind, wp_gets.
  destruct (model_type (self st)) as [[]|]; first [apply wp_ret, HQ|done].
Qed.

Lemma predict_trace st vz :
  _vectorize (self st) = Some vz ->
  wp Model_predict
     (fun _ s => s = on_world (fun w => with_log (log w ++ [EPredict]) w) st)
     (fun _ _ => True) st.
Proof.
  intros Hv. unfold Model_predict. apply wp_bind. unfold model_attribute.
  apply wp_bind, wp_gets. destruct (model (self st)) as [est|]; [apply wp_ret|done].
  apply wp_bind, (vectorize_cached _ vz); [done|].
  apply wp_bind, wp_emit. by apply wp_of_sum.
Qed.

Lemma print_accuracy_score_trace st sp vz :
  _split (self st) = Some sp -> _vectorize (self st) = Some vz -> _score (self st) = None ->
  wp print_accuracy_score
     (fun _ s => exists sc,
        s = {| self := with_score (Some sc) (self st);
               world := with_log (log (world st) ++ [EPredict; EPrint "accuracy score"])
                                 (world st) |})
     (fun _ _ => True) st.
Proof.
  intros Hs Hv Hsc. unfold print_accuracy_score.
  apply wp_bind, wp_model_type_value. intros name. apply wp_bind.
  unfold Model_accuracy_score. apply wp_bind, wp_gets. rewrite Hsc.
  apply wp_bind, (split_cached _ sp); [done|].
  apply wp_bind. eapply wp_mono; [by apply (predict_trace st vz)| |done].
  intros predicted s ->. cbn beta.
  apply wp_bind, wp_of_sum; [intros sc _|done].
  apply wp_bind, wp_modify, wp_ret, wp_emit. exists sc. settle.
Qed.

Lemma print_classification_report_trace st sp vz :
  _split (self st) = Some sp -> _vectorize (self st) = Some vz ->
  wp print_classification_report
     (fun _ s => exists report,
        s = on_world (fun w => with_log (log w ++ [EPredict; EPrint report]) w) st)
     (fun _ _ => True) st.
Proof.
  intros Hs Hv. unfold print_classification_report.
  apply wp_bind, (split_cached _ sp); [done|].
  apply wp_bind. eapply wp_mono; [by apply (predict_trace st vz)| |done].
  intros predicted s ->. cbn beta.
  apply wp_bind, wp_of_sum; [intros report _|done].
  apply wp_emit. exists report. settle.
Qed.

Lemma run_trace st :
  _df (self st) = None -> _split (self st) = None -> _vectorize (self st) = None ->
  _score (self st) = None ->
  wp run
     (fun _ s => exists report,
        log (world s) = log (world st) ++
          run_events (length (rows (true_news (self st))) + length (rows (fake_news (self st))))
                     (S (length (heap (world st)))) report /\
        length (heap (world s)) = S (S (length (heap (world st)))) /\
        files (world s) = files (world st) /\
        _df (self s) = Some (S (length (heap (world st)))) /\
        is_Some (_split (self s)) /\ is_Some (_vectorize (self s)) /\
        is_Some (_score (self s)))
     (fun _ _ => True) st.
Proof.
  intros Hd Hs Hv Hsc. open_run. apply wp_bind.
  eapply wp_mono; [by apply pre_processor_fresh| |done].
  intros [] s1 (Hlog1 & Hheap1 & _ & Hself1 & Hfiles1). cbn beta.
  set (l := S (length (heap (world st)))) in *.
  assert (_df (self s1) = Some l) as Hd1 by (by rewrite Hself1).
  assert (_split (self s1) = None) as Hs1 by (by rewrite Hself1).
  assert (_vectorize (self s1) = None) as Hv1 by (by rewrite Hself1).
  assert (_score (self s1) = None) as Hsc1 by (by rewrite Hself1).
  apply wp_bind. eapply wp_mono; [by apply (fit_trace s1 l)| |done].
  intros [] s2 (Hlog2 & Hheap2 & Hfiles2 & Hd2 & [sp Hs2] & [vz Hv2] & Hsc2 & _). cbn beta.
  rewrite Hsc1 in Hsc2.
  apply wp_bind. eapply wp_mono; [by apply (print_accuracy_score_trace s2 sp vz)| |done].
  intros [] s3 (sc & ->). cbn beta.
  eapply wp_mono; [by apply (print_classification_report_trace _ sp vz)| |done].
  intros [] s4 (report & ->). exists report. settle.
  rewrite Hlog2, Hlog1, <-!app_assoc. rewrite Hd2, Hs2, Hv2, Hheap2, Hfiles2. done.
Qed.


(** ** Caches that are filled *)

#[local] Instance keeps_filled_refl : Reflexive keeps_filled.
Proof. by intros st. Qed.

#[local] Instance keeps_filled_trans : Transitive keeps_filled.
Proof.
  intros s1 s2 s3 (A1 & A2 & A3 & A4) (B1 & B2 & B3 & B4).
  repeat split; intros x Hx; [apply B1, A1|apply B2, A2|apply B3, A3|apply B4, A4]; done.
Qed.

Lemma filled_same st st' :
  _df (self st') = _df (self st) -> _split (self st') = _split (self st) ->
  _vectorize (self st') = _vectorize (self st) -> _score (self st') = _score (self st) ->
  keeps_filled st st'.
Proof. intros H1 H2 H3 H4. unfold keeps_filled. by rewrite H1, H2, H3, H4. Qed.

Lemma filled_emit ev : always keeps_filled (emit ev).
Proof. intros st. by apply filled_same. Qed.

Lemma filled_alloc f : always keeps_filled (alloc f).
Proof. intros st. by apply filled_same. Qed.

Lemma filled_store l f : always keeps_filled (store l f).
Proof. intros st. by apply filled_same. Qed.

Lemma filled_draw n : always keeps_filled (draw_permutation n).
Proof.
  intros st. unfold draw_permutation. destruct (permutation _ _). by apply filled_same.
Qed.

Lemma filled_with_rng g : always keeps_filled (modify (on_world (with_rng g))).
Proof. intros st. by apply filled_same. Qed.

Lemma filled_modify f :
  (forall m, _df (f m) = _df m /\ _split (f m) = _split m /\
             _vectorize (f m) = _vectorize m /\ _score (f m) = _score m) ->
  always keeps_filled (modify (on_self f)).
Proof. intros H st. destruct (H (self st)) as (?&?&?&?). by apply filled_same. Qed.

Create HintDb filled discriminated.
#[local] Hint Resolve filled_emit filled_alloc filled_store filled_draw filled_with_rng : filled.
#[local] Hint Extern 1 (always keeps_filled (modify (on_self _))) =>
  apply filled_modify; done : filled.

Lemma filled_create_data_frame : always keeps_filled create_data_frame.
Proof. unfold create_data_frame. always_go filled. Qed.
#[local] Hint Resolve filled_create_data_frame : filled.

(** A cache that was empty may be filled. *)
Lemma filled_fill st s s' :
  keeps_filled st s ->
  (_df (self s') = _df (self s) \/ _df (self st) = None) ->
  (_split (self s') = _split (self s) \/ _split (self st) = None) ->
  (_vectorize (self s') = _vectorize (self s) \/ _vectorize (self st) = None) ->
  (_score (self s') = _score (self s) \/ _score (self st) = None) ->
  keeps_filled st s'.
Proof.
  intros (A1 & A2 & A3 & A4) [H1|H1] [H2|H2] [H3|H3] [H4|H4];
    repeat split; intros x Hx; rewrite ?H1, ?H2, ?H3, ?H4; auto; congruence.
Qed.

Lemma filled_df : always keeps_filled df.
Proof.
  intros st. unfold df, bind, gets. destruct (_df (self st)) eqn:E; [reflexivity|].
  pose proof (filled_create_data_frame st) as H.
  destruct (create_data_frame st) as [l s1|e s1]; [|exact H].
  apply (filled_fill st s1); auto.
Qed.
#[local] Hint Resolve filled_df : filled.

Lemma filled_cleanup_text : always keeps_filled cleanup_text.
Proof. open_cleanup_text. always_go filled. Qed.
#[local] Hint Resolve filled_cleanup_text : filled.

Lemma filled_pre_processor : always keeps_filled pre_processor.
Proof. open_pre_processor. always_go filled. Qed.
#[local] Hint Resolve filled_pre_processor : filled.

Lemma filled_TrainTestSplit l : always keeps_filled (TrainTestSplit__init__ l).
Proof. unfold TrainTestSplit__init__. always_go filled. Qed.
#[local] Hint Resolve filled_TrainTestSplit : filled.

Lemma filled_split : always keeps_filled split.
Proof.
  intros st. unfold split, bind, gets. destruct (_split (self st)) eqn:E; [reflexivity|].
  pose proof (filled_df st) as H1.
  destruct (df st) as [l s1|e s1]; [|exact H1].
  pose proof (filled_TrainTestSplit l s1) as H2.
  destruct (TrainTestSplit__init__ l s1) as [sp s2|e s2]; cbn [final] in *.
  - apply (filled_fill st s2); auto. by transitivity s1.
  - by transitivity s1.
Qed.
#[local] Hint Resolve filled_split : filled.

Lemma filled_Vectorize sp vt : always keeps_filled (Vectorize__init__ sp vt).
Proof. unfold Vectorize__init__. always_go filled. Qed.
#[local] Hint Resolve filled_Vectorize : filled.

Lemma filled_vectorize : always keeps_filled vectorize.
Proof.
  intros st. unfold vectorize, bind, gets. destruct (_vectorize (self st)) eqn:E; [reflexivity|].
  pose proof (filled_split st) as H1.
  destruct (split st) as [sp s1|e s1]; [|exact H1].
  pose proof (filled_Vectorize sp (vectorizer_type (self s1)) s1) as H2.
  destruct (Vectorize__init__ sp _ s1) as [vz s2|e s2]; cbn [final] in *.
  - apply (filled_fill st s2); auto. by transitivity s1.
  - by transitivity s1.
Qed.
#[local] Hint Resolve filled_vectorize : filled.

Lemma filled_model_attribute name : always keeps_filled (model_attribute name).
Proof. unfold model_attribute. always_go filled. Qed.
#[local] Hint Resolve filled_model_attribute : filled.

Lemma filled_fit : always keeps_filled Model_fit.
Proof. unfold Model_fit. always_go filled. Qed.
#[local] Hint Resolve filled_fit : filled.

Lemma filled_predict : always keeps_filled Model_predict.
Proof. unfold Model_predict. always_go filled. Qed.
#[local] Hint Resolve filled_predict : filled.

Lemma filled_accuracy_score : always keeps_filled Model_accuracy_score.
Proof.
  intros st. unfold Model_accuracy_score, bind, gets.
  destruct (_score (self st)) eqn:E; [reflexivity|].
  pose proof (filled_split st) as H1.
  destruct (split st) as [sp s1|e s1]; [|exact H1].
  pose proof (filled_predict s1) as H2.
  destruct (Model_predict s1) as [predicted s2|e s2]; cbn [final] in *; [|by transitivity s1].
  destruct (accuracy_score _ predicted) as [e|sc]; cbn; [by transitivity s1|].
  apply (filled_fill st s2); auto. by transitivity s1.
Qed.
#[local] Hint Resolve filled_accuracy_score : filled.

Lemma filled_print_accuracy_score : always keeps_filled print_accuracy_score.
Proof. unfold print_accuracy_score, model_type_value. always_go filled. Qed.
#[local] Hint Resolve filled_print_accuracy_score : filled.

Lemma filled_print_classification_report : always keeps_filled print_classification_report.
Proof. unfold print_classification_report. always_go filled. Qed.
#[local] Hint Resolve filled_print_classification_report : filled.

Lemma filled_run : always keeps_filled run.
Proof. open_run. always_go filled. Qed.
#[local] Hint Resolve filled_run : filled.

Lemma filled_call c : always keeps_filled (call c).
Proof. destruct c; open_call; always_go filled. Qed.

Lemma filled_calls cs st : keeps_filled st (calls cs st).
Proof.
  revert st. induction cs as [|c cs IH]; intros st; [reflexivity|].
  simpl. transitivity (final (call c st)); [apply filled_call|apply IH].
Qed.

(** X21: The split, once made, is the split of the instance for good, and so
    is the vectorizer: whatever is called afterwards, [cleanup_text]
    among it, a later access answers what the cache holds and changes
    nothing. A split that was made before the texts were cleaned keeps
    the texts as they were. *)
Theorem split_and_vectorizer_are_made_once (st : State) :
  (forall sp, _split (self st) = Some sp ->
     forall cs, split (calls cs st) = Ok sp (calls cs st)) /\
  (forall vz, _vectorize (self st) = Some vz ->
     forall cs, vectorize (calls cs st) = Ok vz (calls cs st)).
Proof.
  split.
  - intros sp Hs cs. destruct (filled_calls cs st) as (_ & H & _).
    unfold split, bind, gets. by rewrite (H sp Hs).
  - intros vz Hv cs. destruct (filled_calls cs st) as (_ & _ & H & _).
    unfold vectorize, bind, gets. by rewrite (H vz Hv).
Qed.

(** X22: The accuracy score, once computed, is the score of the instance for
    good: whatever is called afterwards, a second [fit] among it, the
    property answers the score of the cache and predicts nothing. *)
Theorem accuracy_score_is_computed_once (st : State) (sc : score) :
  _score (self st) = Some sc ->
  forall cs, Model_accuracy_score (calls cs st) = Ok sc (calls cs st).
Proof.
  intros Hs cs. destruct (filled_calls cs st) as (_ & _ & _ & H).
  unfold Model_accuracy_score, bind, gets. by rewrite (H sc Hs).
Qed.

(** ** A model selector that is no member of [ModelType] *)

(** X23: [create_model] answers [None] for it and the constructor takes that
    for the model; [fit] then raises an [AttributeError] before it asks
    for the vectorizer, and a run ends in an exception after the data
    has been prepared: nothing but sampling and cleaning has been asked
    of the libraries, and when the preparation went through the
    exception is that [AttributeError]. *)
Theorem unsupported_model_fails_at_fit :
  (forall repr, create_model (Foreign repr) = None) /\
  (forall st, model (self st) = None -> Model_fit st = Raise (AttributeError "fit") st) /\
  (forall st, model (self st) = None ->
     exists e st', run st = Raise e st' /\ prepared st st' /\
       _split (self st') = _split (self st) /\
       (succeeded (pre_processor st) = true -> e = AttributeError "fit")).
Proof.
  split; [done|].
  assert (forall st, model (self st) = None ->
            Model_fit st = Raise (AttributeError "fit") st) as Hfit.
  { intros st Hm. unfold Model_fit, model_attribute, bind, gets. by rewrite Hm. }
  split; [exact Hfit|]. intros st Hm.
  pose proof (prepared_pre_processor strip_html stopwords_english lemmatize st) as H1.
  open_run. unfold bind at 1.
  destruct (pre_processor st) as [[] s1|e s1]; cbn [final] in H1.
  - destruct H1 as [Hp Hs]. unfold bind at 1. rewrite Hfit.
    + by exists (AttributeError "fit"), s1.
    + destruct Hp as (_ & _ & Hmodel & _). by rewrite Hmodel.
  - destruct H1 as [Hp Hs]. by exists e, s1.
Qed.

(** ** The two runs of [run_model] *)





End StepsOfThePipeline.

(** ** Files that are not there *)

Section Files.
Context {UCD : Unicode} {NP : Numpy} {SK : Sklearn}.
Variable strip_html : str -> str.
Variable stopwords_english : list str.
Variable lemmatize : str -> str.

(** X24: [run_model] reads the file of the genuine articles first: when it is
    not there the run ends at once with [FileNotFoundError], the other
    file has not been asked for and nothing been sampled; when only the
    other file is missing, both have been asked for and nothing else. *)
Theorem run_model_needs_both_files (true_news fake_news : string) (sample_size : Z)
    (model_type : selector ModelType) (w : World) :
  (files w !! true_news = None ->
   run_model strip_html stopwords_english lemmatize true_news fake_news sample_size model_type w
   = Raise (FileNotFoundError true_news) (with_log (log w ++ [EReadCsv true_news]) w)) /\
  (is_Some (files w !! true_news) -> files w !! fake_news = None ->
   run_model strip_html stopwords_english lemmatize true_news fake_news sample_size model_type w
   = Raise (FileNotFoundError fake_news)
           (with_log (log w ++ [EReadCsv true_news; EReadCsv fake_news]) w)).
Proof.
  unfold run_model, run_each, Model__init__, bind, read_csv. split.
  - intros Ht. by rewrite Ht.
  - intros [t Ht] Hf. rewrite Ht. cbn. rewrite Hf. unfold with_log. cbn.
    by rewrite <-app_assoc.
Qed.

End Files.

(** ** The steps on the reference libraries *)
Module StepsOnReference.
Import Reference.

Lemma sample_rows_come_from_files_witness :
  let st := fresh_state (Member Tfidf) (Member nb) 4 in
  let st' := final (create_data_frame st) in
  create_data_frame st = Ok 0%nat st' /\
  exists f, heap (world st') !! 0%nat = Some f /\
    forall label r, (label, r) ∈ rows f ->
      exists lr0,
        (if decide (label < 3)%nat then rows true_csv !! label
         else rows fake_csv !! (label - 3)%nat) = Some lr0 /\
        cell_of "category" r = CInt (if decide (label < 3)%nat then 1 else 0) /\
        forall col, carried_over col -> r !! col = lr0.2 !! col.
Proof.
  intros st st'.
  assert (create_data_frame st = Ok 0%nat st') as H
    by (apply returned_Ok; vm_compute; reflexivity).
  exact (conj H (sample_rows_come_from_files st 0%nat st' H)).
Defined.

(** Four of the six rows of the two files are sampled. *)
Lemma sample_has_sample_size_rows_witness :
  let st := fresh_state (Member Tfidf) (Member nb) 4 in
  let st' := final (create_data_frame st) in
  ((permutation (rng (world st)) 6).1 ≡ₚ seq 0 6 /\ create_data_frame st = Ok 0%nat st') /\
  exists f, heap (world st') !! 0%nat = Some f /\ length (rows f) = 4%nat.
Proof.
  intros st st'.
  assert (create_data_frame st = Ok 0%nat st') as H
    by (apply returned_Ok; vm_compute; reflexivity).
  pose proof (PipelineOnReference.rotate_permutes 0 6) as Hp.
  exact (conj (conj Hp H) (sample_has_sample_size_rows st 0%nat st' Hp H)).
Defined.

Lemma date_is_dropped : "date"%string ∈ ["title"; "subject"; "date"]%string.
Proof. apply (bool_decide_unpack _). vm_compute. exact I. Qed.

Lemma date_is_missing : "date"%string ∉ ["title"; "text"; "subject"]%string.
Proof. apply (bool_decide_eq_false_1 (_ ∈ _)). vm_compute. reflexivity. Qed.

(** Two files without the column [date]. *)
Lemma create_data_frame_needs_the_columns_witness :
  let undated := {| columns := ["title"; "text"; "subject"]%string; rows := [] |} in
  let st := {| self := with_news undated undated (self (fresh_state (Member Tfidf) (Member nb) 4));
               world := disk |} in
  ("date"%string ∈ ["title"; "subject"; "date"]%string /\
   ("date"%string ∉ columns (true_news (self st))) /\
   ("date"%string ∉ columns (fake_news (self st)))) /\
  exists k,
    create_data_frame st = Raise (KeyError k) (marked st) /\
    k ∈ ["title"; "subject"; "date"]%string /\
    (k ∉ columns (true_news (self st))) /\ (k ∉ columns (fake_news (self st))) /\
    world (marked st) = world st.
Proof.
  intros undated st.
  exact (conj (conj date_is_dropped (conj date_is_missing date_is_missing))
           (create_data_frame_needs_the_columns st "date"%string
              date_is_dropped date_is_missing date_is_missing)).
Defined.

Lemma fresh_is_labelled (n : Z) :
  frame_labelled 3 3 (fresh_state (Member Tfidf) (Member nb) n).
Proof. split; [done|]. split; [done|]. by intros l [=]. Qed.

Lemma cleanup_text_cleans_each_text_witness :
  let st0 := fresh_state (Member Tfidf) (Member nb) 4 in
  exists l st f st',
    df st0 = Ok l st /\
    (_df (self st) = Some l /\ heap (world st) !! l = Some f /\
     NoDup (fst <$> rows f) /\
     cleanup_text strip_tags nltk_stopwords table_lemmatize st = Ok tt st') /\
    exists f',
      heap (world st') = <[l := f']> (heap (world st)) /\
      self st' = self st /\
      columns f' = columns f /\
      Forall2 (fun lr lr' =>
                 lr'.1 = lr.1 /\
                 exists t, cell_of "text" lr.2 = CStr t /\
                   lr'.2 = <["text"%string := CStr (clean t)]> lr.2)
              (rows f) (rows f').
Proof.
  intros st0.
  destruct (succeeded_Ok
              ((df ;;; cleanup_text strip_tags nltk_stopwords table_lemmatize) st0))
    as ([] & st' & Hrun); [vm_compute; reflexivity|].
  apply bind_Ok in Hrun as (l & st & Hdf & Hclean).
  destruct (wp_Ok _ _ _ _ _ _
              (@df_labelled counter_numpy toy_sklearn PipelineOnReference.rotate_permutes 3 3 st0 (fresh_is_labelled 4))
              Hdf) as ((_ & _ & Hframe) & Hl & _).
  destruct (Hframe l Hl) as (f & Hf & _ & Hnd & _).
  exists l, st, f, st'.
  exact (conj Hdf
           (conj (conj Hl (conj Hf (conj Hnd Hclean)))
              (cleanup_text_cleans_each_text strip_tags nltk_stopwords table_lemmatize
                 st l f st' Hl Hf Hnd Hclean))).
Defined.

(** A frame with a row whose text the file left empty. *)
Lemma cleanup_text_needs_texts_witness :
  let row : nat * gmap string Cell := (0%nat, {[ "text"%string := CNaN ]}) in
  let gap := {| columns := ["text"; "category"]%string; rows := [row] |} in
  let st := {| self := with_df (Some 0%nat) (self (fresh_state (Member Tfidf) (Member nb) 4));
               world := with_heap [gap] disk |} in
  (_df (self st) = Some 0%nat /\ heap (world st) !! 0%nat = Some gap /\
   "text"%string ∈ columns gap /\
   (exists lr, lr ∈ rows gap /\ forall t, cell_of "text" lr.2 <> CStr t)) /\
  exists msg st',
    cleanup_text strip_tags nltk_stopwords table_lemmatize st = Raise (TypeError msg) st' /\
    heap (world st') = heap (world st) /\ self st' = self st.
Proof.
  intros row gap st.
  assert ("text"%string ∈ columns gap) as H3 by (apply (bool_decide_unpack _); vm_compute; exact I).
  assert (exists lr, lr ∈ rows gap /\ forall t, cell_of "text" lr.2 <> CStr t) as H4.
  { exists row. split; [by left|]. intros t. vm_compute. discriminate. }
  destruct (cleanup_text_needs_texts strip_tags nltk_stopwords table_lemmatize
              st 0%nat gap eq_refl eq_refl) as [_ H].
  exact (conj (conj eq_refl (conj eq_refl (conj H3 H4))) (H H3 H4)).
Defined.

Lemma pre_processor_discards_a_sample_witness :
  let st := fresh_state (Member Tfidf) (Member nb) 6 in
  exists st',
    (pre_processor strip_tags nltk_stopwords table_lemmatize st = Ok tt st' /\
     _df (self st) = None) /\
    log (world st') = log (world st) ++ [ESample 6; ESample 6; EClean 1%nat] /\
    _df (self st') = Some 1%nat /\
    length (heap (world st')) = 2%nat /\
    rng (world st') = 2%nat.
Proof.
  intros st.
  destruct (succeeded_Ok (pre_processor strip_tags nltk_stopwords table_lemmatize st))
    as ([] & st' & Hrun); [vm_compute; reflexivity|].
  destruct (pre_processor_discards_a_sample strip_tags nltk_stopwords table_lemmatize
              st st' Hrun) as [Hfresh _].
  exists st'. exact (conj (conj Hrun eq_refl) (Hfresh eq_refl)).
Defined.


(** The instance after a run: its split and its vectorizer stay. *)
Lemma split_and_vectorizer_are_made_once_witness :
  let st0 := fresh_state (Member Tfidf) (Member nb) 6 in
  exists st sp vz,
    run strip_tags nltk_stopwords table_lemmatize st0 = Ok tt st /\
    (_split (self st) = Some sp /\ _vectorize (self st) = Some vz) /\
    (forall cs, split (calls strip_tags nltk_stopwords table_lemmatize cs st)
                = Ok sp (calls strip_tags nltk_stopwords table_lemmatize cs st)) /\
    (forall cs, vectorize (calls strip_tags nltk_stopwords table_lemmatize cs st)
                = Ok vz (calls strip_tags nltk_stopwords table_lemmatize cs st)).
Proof.
  intros st0.
  destruct (succeeded_Ok (run strip_tags nltk_stopwords table_lemmatize st0))
    as ([] & st & Hrun); [vm_compute; reflexivity|].
  destruct (wp_Ok _ _ _ _ _ _
              (run_trace strip_tags nltk_stopwords table_lemmatize st0
                 eq_refl eq_refl eq_refl eq_refl) Hrun)
    as (_ & _ & _ & _ & _ & [sp Hs] & [vz Hv] & _).
  destruct (split_and_vectorizer_are_made_once strip_tags nltk_stopwords table_lemmatize st)
    as [H1 H2].
  exists st, sp, vz. exact (conj Hrun (conj (conj Hs Hv) (conj (H1 sp Hs) (H2 vz Hv)))).
Defined.

Lemma accuracy_score_is_computed_once_witness :
  let st0 := fresh_state (Member Tfidf) (Member nb) 6 in
  exists st sc,
    run strip_tags nltk_stopwords table_lemmatize st0 = Ok tt st /\
    _score (self st) = Some sc /\
    forall cs, Model_accuracy_score (calls strip_tags nltk_stopwords table_lemmatize cs st)
               = Ok sc (calls strip_tags nltk_stopwords table_lemmatize cs st).
Proof.
  intros st0.
  destruct (succeeded_Ok (run strip_tags nltk_stopwords table_lemmatize st0))
    as ([] & st & Hrun); [vm_compute; reflexivity|].
  destruct (wp_Ok _ _ _ _ _ _
              (run_trace strip_tags nltk_stopwords table_lemmatize st0
                 eq_refl eq_refl eq_refl eq_refl) Hrun)
    as (_ & _ & _ & _ & _ & _ & _ & [sc Hsc]).
  exists st, sc.
  exact (conj Hrun (conj Hsc
           (accuracy_score_is_computed_once strip_tags nltk_stopwords table_lemmatize
              st sc Hsc))).
Defined.

Lemma unsupported_model_fails_at_fit_witness :
  let st := fresh_state (Member Tfidf) (Foreign "svm") 6 in
  model (self st) = None /\
  Model_fit st = Raise (AttributeError "fit") st /\
  exists e st', run strip_tags nltk_stopwords table_lemmatize st = Raise e st' /\
    prepared st st' /\ _split (self st') = _split (self st) /\
    (succeeded (pre_processor strip_tags nltk_stopwords table_lemmatize st) = true ->
     e = AttributeError "fit").
Proof.
  intros st.
  destruct (unsupported_model_fails_at_fit strip_tags nltk_stopwords table_lemmatize)
    as (_ & H2 & H3).
  exact (conj eq_refl (conj (H2 st eq_refl) (H3 st eq_refl))).
Defined.

Lemma run_model_needs_both_files_witness :
  (files disk !! "Nope.csv"%string = None /\ is_Some (files disk !! "True.csv"%string)) /\
  run_model strip_tags nltk_stopwords table_lemmatize "Nope.csv" "Fake.csv" 6 (Member nb) disk
  = Raise (FileNotFoundError "Nope.csv") (with_log [EReadCsv "Nope.csv"] disk) /\
  run_model strip_tags nltk_stopwords table_lemmatize "True.csv" "Nope.csv" 6 (Member nb) disk
  = Raise (FileNotFoundError "Nope.csv")
          (with_log [EReadCsv "True.csv"; EReadCsv "Nope.csv"] disk).
Proof.
  assert (files disk !! "Nope.csv"%string = None) as H1 by (vm_compute; reflexivity).
  assert (is_Some (files disk !! "True.csv"%string)) as H2 by (by exists true_csv).
  destruct (run_model_needs_both_files strip_tags nltk_stopwords table_lemmatize
              "Nope.csv" "Fake.csv" 6 (Member nb) disk) as [Ha _].
  destruct (run_model_needs_both_files strip_tags nltk_stopwords table_lemmatize
              "True.csv" "Nope.csv" 6 (Member nb) disk) as [_ Hb].
  exact (conj (conj H1 H2) (conj (Ha H1) (Hb H2 H1))).
Defined.


End StepsOnReference.
